(** * OIerFinder-web: the query engine of [js/app.js]

    A shallow embedding of the candidate filtering engine
    ([findOiers], [buildWhereClauseAndValues], [executeQuery] and the part of
    [displayResults] that prepares the configuration shown with the results),
    together with the properties of the engine stated in the specification,
    and of the code that builds a configuration from a submitted form
    ([handleUiFormSubmit] with [getIntOrNull], [getFloatOrNull] and
    [getListOrNull]) or from a pasted contest history ([handleLuoguFormSubmit]
    with [convertLuoguToConfig]).

    Modelling conventions.
    - A JS number is a rational ([Q]); integer-valued columns and
      configuration entries are kept in [Z] and injected with [inject_Z] when
      they are bound to a statement.  Only comparisons and the integer
      arithmetic [currentYear - grade + 7] are performed on numbers.
    - A JS [Set] is the list of its elements in insertion order, without
      duplicates; [size] is the length of the list.
    - [null] and [undefined] are both [None].
    - A WHERE clause assembled by the code is kept as the list of its
      conjuncts, each one carrying the values pushed with it; the SQL text
      ([sql_text]) and the array of bound values ([sql_values]) are
      projections of that list.
    - The tables hold non-null values of the kind of their column.
    - The sql.js handle [db] is [option Database]; [None] is the global
      before [main] has assigned it.  On an initialised handle a statement
      is refused, with the error [too many SQL variables], when it has more
      than [SQLITE_MAX_VARIABLE_NUMBER] placeholders; every other statement
      is a total function of the tables (rows are scanned in table order,
      and [ORDER BY] is a stable sort of the scanned rows).
    - A run produces the log of the statements it handed to the store, the
      last of which may have been refused, and either a thrown JS error or
      a value.
    - An identifier read from a row is the integer stored; the properties
      of the rows fetched by identifier are stated for the stores whose
      identifiers a JS number holds exactly ([safe_identifiers]).
    - A character of a text stands for a code unit below 256.
    - [parseInt], [parseFloat] and the text of a number are parameters of
      the form handler; what they return is a finite number, [NaN] or an
      infinity ([parsed]).  The evaluation of a configuration is described
      when its numbers are finite ([canonical]).
    - A mapping object is the list of its own entries in insertion order
      and inherits the properties of [Object.prototype] ([lookup]).  The
      evaluation of a configuration read from a contest history is
      described when every level in it is a text
      ([canonical_luogu]). *)

From Stdlib Require Import DecimalString Ascii List NArith ZArith QArith Bool String Lia Permutation Sorted.
Import ListNotations.
Local Open Scope string_scope.
Local Open Scope Z_scope.

Set Implicit Arguments.

(** ** Constants *)

Definition ENUMERATE_THRESHOLD : nat := 20.

(** ** Values and tables *)

Inductive value : Type :=
| VNum (q : Q)
| VText (s : string).

(** SQLite orders every number before every text. *)
Definition value_leb (a b : value) : bool :=
  match a, b with
  | VNum x, VNum y => Qle_bool x y
  | VNum _, VText _ => true
  | VText _, VNum _ => false
  | VText s, VText t => String.leb s t
  end.

Definition value_eqb (a b : value) : bool :=
  match a, b with
  | VNum x, VNum y => Qeq_bool x y
  | VText s, VText t => String.eqb s t
  | _, _ => false
  end.

Definition int_value (z : Z) : value := VNum (inject_Z z).

(** Table [OIer]. *)
Record OIer : Type := {
  uid : Z;
  name : string;
  gender : Z;
  enroll_middle : Z;
  oierdb_score : Q;
  ccf_score : Q;
  ccf_level : Z
}.

(** Table [Contest]. *)
Record Contest : Type := {
  c_id : Z;
  c_year : Z;
  c_type : string
}.

(** Table [Record]. *)
Record RecordRow : Type := {
  r_oier_uid : Z;
  r_contest_id : Z;
  r_score : Q;
  r_rank : Z;
  r_province : string;
  r_level : string
}.

Record Database : Type := {
  OIer_table : list OIer;
  Contest_table : list Contest;
  Record_table : list RecordRow
}.

(** ** Conditions of a WHERE clause *)

(** The columns named by the engine in the view
    [Record r JOIN Contest c ON r.contest_id = c.id]. *)
Inductive join_column : Type :=
| col_c_year | col_r_score | col_r_rank
| col_r_province | col_r_level | col_c_type
| col_r_oier_uid.

(** The column named by the engine in table [OIer]. *)
Inductive oier_column : Type :=
| col_enroll_middle.

Definition join_column_name (c : join_column) : string :=
  match c with
  | col_c_year => "c.year"
  | col_r_score => "r.score"
  | col_r_rank => "r.rank"
  | col_r_province => "r.province"
  | col_r_level => "r.level"
  | col_c_type => "c.type"
  | col_r_oier_uid => "r.oier_uid"
  end.

Definition oier_column_name (c : oier_column) : string :=
  match c with
  | col_enroll_middle => "enroll_middle"
  end.

(** One conjunct of a WHERE clause with the values pushed next to it. *)
Inductive condition (col : Type) : Type :=
| Always                                  (* "1=1" *)
| AtLeast (c : col) (v : value)           (* `${column} >= ?` *)
| AtMost (c : col) (v : value)            (* `${column} <= ?` *)
| Member (c : col) (vs : list value).     (* `${column} IN (?,...,?)` *)

Arguments Always {col}.
Arguments AtLeast {col} c v.
Arguments AtMost {col} c v.
Arguments Member {col} c vs.

(** [Array(n).fill('?').join(',')] *)
Definition placeholders (n : nat) : string :=
  String.concat "," (repeat "?" n).

Definition condition_text {col} (cname : col -> string) (k : condition col) : string :=
  match k with
  | Always => "1=1"
  | AtLeast c _ => cname c ++ " >= ?"
  | AtMost c _ => cname c ++ " <= ?"
  | Member c vs => cname c ++ " IN (" ++ placeholders (List.length vs) ++ ")"
  end.

Definition condition_values {col} (k : condition col) : list value :=
  match k with
  | Always => []
  | AtLeast _ v => [v]
  | AtMost _ v => [v]
  | Member _ vs => vs
  end.

Definition is_inequality {col} (k : condition col) : bool :=
  match k with
  | AtLeast _ _ | AtMost _ _ => true
  | Always | Member _ _ => false
  end.

Definition is_membership {col} (k : condition col) : bool :=
  match k with
  | Member _ _ => true
  | Always | AtLeast _ _ | AtMost _ _ => false
  end.

Definition condition_column {col} (k : condition col) : option col :=
  match k with
  | Always => None
  | AtLeast c _ | AtMost c _ | Member c _ => Some c
  end.

(** Evaluation of one condition on a row, [get] reading the row's columns. *)
Definition holds {col} (get : col -> value) (k : condition col) : bool :=
  match k with
  | Always => true
  | AtLeast c v => value_leb v (get c)
  | AtMost c v => value_leb (get c) v
  | Member c vs => existsb (value_eqb (get c)) vs
  end.

(** Conditions are joined with [" AND "]. *)
Definition where_holds {col} (get : col -> value) (ks : list (condition col)) : bool :=
  forallb (holds get) ks.

Definition join_value (r : RecordRow) (c : Contest) (col : join_column) : value :=
  match col with
  | col_c_year => int_value (c_year c)
  | col_r_score => VNum (r_score r)
  | col_r_rank => int_value (r_rank r)
  | col_r_province => VText (r_province r)
  | col_r_level => VText (r_level r)
  | col_c_type => VText (c_type c)
  | col_r_oier_uid => int_value (r_oier_uid r)
  end.

Definition oier_value (o : OIer) (col : oier_column) : value :=
  match col with
  | col_enroll_middle => int_value (enroll_middle o)
  end.

(** ** Query configuration *)

Definition bounds (A : Type) : Type := (option A * option A)%type.

Record RecordConstraint : Type := {
  year_range : option (bounds Z);
  rank_range : option (bounds Z);
  score_range : option (bounds Q);
  province : option (list string);
  contest_type : option (list string);
  level_range : option (list string)
}.

Record QueryConfig : Type := {
  enroll_year_range : option (bounds Z);
  grade_range : option (bounds Z);
  records : option (list RecordConstraint)
}.

(** [range.some(v => v !== null)] *)
Definition some_not_null {A} (b : bounds A) : bool :=
  match b with
  | (None, None) => false
  | _ => true
  end.

Definition map_bounds {A B} (f : A -> B) (b : bounds A) : bounds B :=
  (option_map f (fst b), option_map f (snd b)).

(** [params[field]] for the keys of [rangeFields]. *)
Definition get_range (params : RecordConstraint) (field : string) : option (bounds value) :=
  if String.eqb field "year_range" then option_map (map_bounds int_value) (year_range params)
  else if String.eqb field "score_range" then option_map (map_bounds VNum) (score_range params)
  else if String.eqb field "rank_range" then option_map (map_bounds int_value) (rank_range params)
  else None.

(** [params[field]] for the keys of [listFields]. *)
Definition get_list (params : RecordConstraint) (field : string) : option (list value) :=
  if String.eqb field "province" then option_map (map VText) (province params)
  else if String.eqb field "level_range" then option_map (map VText) (level_range params)
  else if String.eqb field "contest_type" then option_map (map VText) (contest_type params)
  else None.

Definition rangeFields : list (string * join_column) :=
  [("year_range", col_c_year); ("score_range", col_r_score); ("rank_range", col_r_rank)].

Definition listFields : list (string * join_column) :=
  [("province", col_r_province); ("level_range", col_r_level); ("contest_type", col_c_type)].

(** ** [buildWhereClauseAndValues] *)

(** The two guarded pushes made for a pair [minV, maxV] on [column]. *)
Definition bound_conditions {col} (column : col) (b : bounds value) : list (condition col) :=
  let (minV, maxV) := b in
  (match minV with Some v => [AtLeast column v] | None => [] end) ++
  (match maxV with Some v => [AtMost column v] | None => [] end).

(** Body of the loop over [Object.entries(rangeFields)]. *)
Definition range_conditions (params : RecordConstraint) (entry : string * join_column)
  : list (condition join_column) :=
  let (field, column) := entry in
  match get_range params field with
  | Some b => if some_not_null b then bound_conditions column b else []
  | None => []
  end.

(** Body of the loop over [Object.entries(listFields)]. *)
Definition list_conditions (params : RecordConstraint) (entry : string * join_column)
  : list (condition join_column) :=
  let (field, column) := entry in
  match get_list params field with
  | Some vs => if (0 <? List.length vs)%nat then [Member column vs] else []
  | None => []
  end.

(** The arrays [conditions] and [values], filled in lock-step. *)
Definition conditions_of (params : RecordConstraint) : list (condition join_column) :=
  flat_map (range_conditions params) rangeFields ++
  flat_map (list_conditions params) listFields.

Definition where_text {col} (cname : col -> string) (ks : list (condition col)) : string :=
  String.concat " AND " (map (condition_text cname) ks).

Definition where_values {col} (ks : list (condition col)) : list value :=
  flat_map condition_values ks.

(** [conditions.length > 0 ? conditions.join(" AND ") : "1=1"], as the list
    of its conjuncts. *)
Definition whereClause_of (params : RecordConstraint) : list (condition join_column) :=
  let conditions := conditions_of params in
  if (0 <? List.length conditions)%nat then conditions else [Always].

Definition buildWhereClauseAndValues (params : RecordConstraint) : string * list value :=
  (where_text join_column_name (whereClause_of params),
   where_values (conditions_of params)).

(** ** JS sets of identifiers *)

(** [s.has(x)] *)
Definition Set_has (s : list Z) (x : Z) : bool := existsb (Z.eqb x) s.

(** [s.add(x)] *)
Definition Set_add (s : list Z) (x : Z) : list Z :=
  if Set_has s x then s else (s ++ [x])%list.

(** [s = new Set(); while (stmt.step()) s.add(stmt.get()[0])] over the
    stepped rows [l]. *)
Definition Set_of (l : list Z) : list Z := fold_left Set_add l [].

(** [new Set([...a].filter(uid => b.has(uid)))] *)
Definition Set_intersect (a b : list Z) : list Z := filter (Set_has b) a.

(** ** The store *)

(** The statements the engine sends. *)
Inductive query : Type :=
| SelectUidFromOIer (ks : list (condition oier_column))
    (* SELECT uid FROM OIer WHERE ks *)
| SelectDistinctOierUid (ks : list (condition join_column))
    (* SELECT DISTINCT r.oier_uid FROM Record r JOIN Contest c
       ON r.contest_id = c.id WHERE ks *)
| SelectAllOIersOrdered
    (* SELECT * FROM OIer ORDER BY oierdb_score DESC *)
| SelectOIersInOrdered (uids : list Z).
    (* SELECT * FROM OIer WHERE uid IN (uids) ORDER BY oierdb_score DESC *)

(** The text handed to [db.prepare] or [db.exec], and the array handed to
    [stmt.bind]. *)
Definition sql_text (q : query) : string :=
  match q with
  | SelectUidFromOIer ks =>
      "SELECT uid FROM OIer WHERE " ++ where_text oier_column_name ks
  | SelectDistinctOierUid ks =>
      "SELECT DISTINCT r.oier_uid FROM Record r JOIN Contest c ON r.contest_id = c.id WHERE "
      ++ where_text join_column_name ks
  | SelectAllOIersOrdered =>
      "SELECT * FROM OIer ORDER BY oierdb_score DESC"
  | SelectOIersInOrdered uids =>
      "SELECT * FROM OIer WHERE uid IN (" ++ placeholders (List.length uids)
      ++ ") ORDER BY oierdb_score DESC"
  end.

Definition sql_values (q : query) : list value :=
  match q with
  | SelectUidFromOIer ks => where_values ks
  | SelectDistinctOierUid ks => where_values ks
  | SelectAllOIersOrdered => []
  | SelectOIersInOrdered uids => map int_value uids
  end.

(** [Record r JOIN Contest c ON r.contest_id = c.id] *)
Definition joined (d : Database) : list (RecordRow * Contest) :=
  flat_map
    (fun r => map (pair r) (filter (fun c => r_contest_id r =? c_id c) (Contest_table d)))
    (Record_table d).

(** [DISTINCT] keeps the first occurrence of each identifier. *)
Definition distinct (l : list Z) : list Z := fold_left Set_add l [].

(** [ORDER BY oierdb_score DESC]: each row is placed before the first row
    whose score is not greater, so rows of equal score keep their scan order. *)
Fixpoint insert_desc (o : OIer) (l : list OIer) : list OIer :=
  match l with
  | [] => [o]
  | x :: xs =>
      if Qle_bool (oierdb_score x) (oierdb_score o) then o :: l
      else x :: insert_desc o xs
  end.

Fixpoint order_by_score_desc (l : list OIer) : list OIer :=
  match l with
  | [] => []
  | o :: rest => insert_desc o (order_by_score_desc rest)
  end.

Definition run_SelectUidFromOIer (d : Database) (ks : list (condition oier_column)) : list Z :=
  map uid (filter (fun o => where_holds (oier_value o) ks) (OIer_table d)).

Definition run_SelectDistinctOierUid (d : Database) (ks : list (condition join_column)) : list Z :=
  distinct
    (map (fun rc => r_oier_uid (fst rc))
       (filter (fun rc => where_holds (join_value (fst rc) (snd rc)) ks) (joined d))).

Definition run_SelectAllOIersOrdered (d : Database) : list OIer :=
  order_by_score_desc (OIer_table d).

Definition run_SelectOIersInOrdered (d : Database) (uids : list Z) : list OIer :=
  order_by_score_desc
    (filter (fun o => existsb (value_eqb (int_value (uid o))) (map int_value uids))
       (OIer_table d)).

(** ** Runs: statement log and thrown errors *)

Record JsError : Type := {
  err_name : string;
  message : string
}.

Definition TypeError (msg : string) : JsError :=
  {| err_name := "TypeError"; message := msg |}.

(** The error of reading property [p] of [undefined] or [null], with the
    wording of V8; nothing below depends on the wording. *)
Definition cannot_read (of_what p : string) : JsError :=
  TypeError ("Cannot read properties of " ++ of_what ++ " (reading '" ++ p ++ "')").

Definition Eval (A : Type) : Type := (list query * (JsError + A))%type.

Definition ret {A} (a : A) : Eval A := ([], inr a).

Definition throw {A} (e : JsError) : Eval A := ([], inl e).

Definition bind {A B} (m : Eval A) (f : A -> Eval B) : Eval B :=
  match m with
  | (log, inl e) => (log, inl e)
  | (log, inr a) => let (log', r) := f a in ((log ++ log')%list, r)
  end.

Notation "x <- m ;; k" := (bind m (fun x => k))
  (at level 61, m at next level, right associativity).

(** The store accepts at most [SQLITE_MAX_VARIABLE_NUMBER] bound values in
    one statement: 32766, the default of SQLite since 3.32, which the builds
    of sql.js keep.  Handed a text with more [?] than that, the store throws
    the error ["too many SQL variables"] instead of running the statement. *)
Definition SQLITE_MAX_VARIABLE_NUMBER : N := 32766.

Definition accepted (q : query) : bool :=
  (N.of_nat (List.length (sql_values q)) <=? SQLITE_MAX_VARIABLE_NUMBER)%N.

Definition too_many_variables : JsError :=
  {| err_name := "Error"; message := "too many SQL variables" |}.

(** A call [db.method(q)]: reading [method] of the unassigned global throws;
    otherwise the statement is handed to the store and logged, and either
    the store refuses it or its rows are produced. *)
Definition db_call {A} (db : option Database) (method : string) (q : query)
    (rows : Database -> A) : Eval A :=
  match db with
  | None => throw (cannot_read "undefined" method)
  | Some d => if accepted q then ([q], inr (rows d)) else ([q], inl too_many_variables)
  end.

Definition select_uid_from_oier db ks : Eval (list Z) :=
  db_call db "prepare" (SelectUidFromOIer ks) (fun d => run_SelectUidFromOIer d ks).

Definition select_distinct_oier_uid db ks : Eval (list Z) :=
  db_call db "prepare" (SelectDistinctOierUid ks) (fun d => run_SelectDistinctOierUid d ks).

Definition exec_select_all_oiers db : Eval (list OIer) :=
  db_call db "exec" SelectAllOIersOrdered run_SelectAllOIersOrdered.

Definition select_oiers_in db uids : Eval (list OIer) :=
  db_call db "prepare" (SelectOIersInOrdered uids) (fun d => run_SelectOIersInOrdered d uids).

(** ** [findOiers] *)

(** Stage 1: the conditions on [enroll_middle]. *)
Definition enroll_conditions (config : QueryConfig) : list (condition oier_column) :=
  match enroll_year_range config with
  | Some b =>
      if some_not_null b
      then bound_conditions col_enroll_middle (map_bounds int_value b)
      else []
  | None => []
  end.

Definition grade_conditions (currentYear : Z) (config : QueryConfig)
  : list (condition oier_column) :=
  match grade_range config with
  | Some (minGrade, maxGrade) =>
      if some_not_null (minGrade, maxGrade)
      then
        (match maxGrade with
         | Some g => [AtLeast col_enroll_middle (int_value (currentYear - g + 7))]
         | None => []
         end) ++
        (match minGrade with
         | Some g => [AtMost col_enroll_middle (int_value (currentYear - g + 7))]
         | None => []
         end)
      else []
  | None => []
  end.

Definition oierConditions (currentYear : Z) (config : QueryConfig)
  : list (condition oier_column) :=
  (enroll_conditions config ++ grade_conditions currentYear config)%list.

Definition base_filter (db : option Database) (ks : list (condition oier_column))
  : Eval (option (list Z)) :=
  if (0 <? List.length ks)%nat
  then rows <- select_uid_from_oier db ks ;; ret (Some (Set_of rows))
  else ret None.

(** Stage 2: the variables carried by the loop over the record constraints. *)
Record state : Type := {
  candidateUids : option (list Z);
  enumerationMode : bool
}.

(** [candidateUids && candidateUids.size < ENUMERATE_THRESHOLD] *)
Definition initial_mode (candidateUids : option (list Z)) : bool :=
  match candidateUids with
  | Some s => (List.length s <? ENUMERATE_THRESHOLD)%nat
  | None => false
  end.

(** The condition appended to [finalWhere] when
    [enumerationMode && candidateUids.size > 0]. *)
Definition scope_conditions (st : state) : Eval (list (condition join_column)) :=
  if enumerationMode st
  then match candidateUids st with
       | Some s =>
           ret (if (0 <? List.length s)%nat
                then [Member col_r_oier_uid (map int_value s)]
                else [])
       | None => throw (cannot_read "null" "size")
       end
  else ret [].

(** One iteration of the loop, up to the test for [break]. *)
Definition narrow_step (db : option Database) (st : state) (constraint : RecordConstraint)
  : Eval state :=
  scope <- scope_conditions st ;;
  rows <- select_distinct_oier_uid db (whereClause_of constraint ++ scope)%list ;;
  let uidsForThisConstraint := Set_of rows in
  let candidateUids' :=
    match candidateUids st with
    | None => uidsForThisConstraint
    | Some s => Set_intersect s uidsForThisConstraint
    end in
  let enumerationMode' :=
    if negb (enumerationMode st) && (List.length candidateUids' <? ENUMERATE_THRESHOLD)%nat
    then true else enumerationMode st in
  ret {| candidateUids := Some candidateUids'; enumerationMode := enumerationMode' |}.

(** [if (candidateUids.size === 0) break;] *)
Definition breaks (st : state) : bool :=
  match candidateUids st with
  | Some s => (List.length s =? 0)%nat
  | None => false
  end.

Fixpoint narrow_loop (db : option Database) (st : state) (rs : list RecordConstraint)
  : Eval state :=
  match rs with
  | [] => ret st
  | constraint :: rest =>
      st' <- narrow_step db st constraint ;;
      if breaks st' then ret st' else narrow_loop db st' rest
  end.

(** Rows come back either as arrays of column values ([db.exec(..)[0].values])
    or as objects keyed by column name ([stmt.getAsObject()]). *)
Inductive row : Type :=
| ValuesRow (o : OIer)
| ObjectRow (o : OIer).

Definition row_oier (r : row) : OIer :=
  match r with ValuesRow o | ObjectRow o => o end.

(** Stage 3. *)
Definition materialize (db : option Database) (ks : list (condition oier_column))
    (recordConstraints : list RecordConstraint) (candidateUids : option (list Z))
  : Eval (list row) :=
  match candidateUids, ks, recordConstraints with
  | None, [], [] => rows <- exec_select_all_oiers db ;; ret (map ValuesRow rows)
  | _, _, _ =>
      match candidateUids with
      | None => ret []
      | Some s =>
          if (List.length s =? 0)%nat then ret []
          else rows <- select_oiers_in db s ;; ret (map ObjectRow rows)
      end
  end.

Definition recordConstraints (config : QueryConfig) : list RecordConstraint :=
  match records config with
  | Some rs => rs
  | None => []
  end.

(** The loop variables on entry to the loop. *)
Definition initial_state (db : option Database) (currentYear : Z) (config : QueryConfig)
  : Eval state :=
  base <- base_filter db (oierConditions currentYear config) ;;
  ret {| candidateUids := base; enumerationMode := initial_mode base |}.

(** The loop variables with which stage 3 is entered. *)
Definition narrowed (db : option Database) (currentYear : Z) (config : QueryConfig)
  : Eval state :=
  st <- initial_state db currentYear config ;;
  narrow_loop db st (recordConstraints config).

Definition findOiers (db : option Database) (currentYear : Z) (config : QueryConfig)
  : Eval (list row) :=
  st <- narrowed db currentYear config ;;
  materialize db (oierConditions currentYear config) (recordConstraints config)
    (candidateUids st).

(** ** [displayResults], [displayError] and [executeQuery] *)

(** What [resultsArea] shows: the configuration dumped as YAML with the table
    of rows, or an alert. *)
Inductive page : Type :=
| ResultsPage (cleanConfig : QueryConfig) (oiers : list OIer)
| ErrorAlert (msg : string).

(** [cleanConfig]: the entries of [config] that are truthy and, for arrays,
    non-empty with some non-null element. *)
Definition cleanConfig (config : QueryConfig) : QueryConfig :=
  {| enroll_year_range :=
       match enroll_year_range config with
       | Some b => if some_not_null b then Some b else None
       | None => None
       end;
     grade_range :=
       match grade_range config with
       | Some b => if some_not_null b then Some b else None
       | None => None
       end;
     records :=
       match records config with
       | Some rs => if (0 <? List.length rs)%nat then Some rs else None
       | None => None
       end |}.

(** The table row of one result: [oier.oierdb_score.toFixed(2)] reads
    [toFixed] of [undefined] when the row is an array of values. *)
Definition table_row (r : row) : Eval OIer :=
  match r with
  | ObjectRow o => ret o
  | ValuesRow _ => throw (cannot_read "undefined" "toFixed")
  end.

Fixpoint table_rows (oiers : list row) : Eval (list OIer) :=
  match oiers with
  | [] => ret []
  | r :: rest => o <- table_row r ;; os <- table_rows rest ;; ret (o :: os)
  end.

Definition displayResults (oiers : list row) (config : QueryConfig) : Eval page :=
  let clean := cleanConfig config in
  shown <- table_rows oiers ;;
  ret (ResultsPage clean shown).

Definition displayError (msg : string) : page := ErrorAlert msg.

(** The [catch] clause of [executeQuery]. *)
Definition on_error (e : JsError) : page :=
  displayError ("Query execution failed: " ++ message e).

Definition executeQuery (db : option Database) (currentYear : Z)
    (config : option QueryConfig) : list query * page :=
  match config with
  | None => ([], displayError "Invalid or empty configuration.")
  | Some cfg =>
      match (results <- findOiers db currentYear cfg ;; displayResults results cfg) with
      | (log, inr p) => (log, p)
      | (log, inl e) => (log, on_error e)
      end
  end.

(** ** Observing a run of the loop *)

(** One executed iteration: the loop variables on entry, the constraint
    processed, and what [narrow_step] produced (the statements it sent and
    the loop variables after it, or the error it threw). *)
Record iteration : Type := {
  before : state;
  processed : RecordConstraint;
  outcome : Eval state
}.

Fixpoint iterations (db : option Database) (st : state) (rs : list RecordConstraint)
  : list iteration :=
  match rs with
  | [] => []
  | constraint :: rest =>
      let out := narrow_step db st constraint in
      {| before := st; processed := constraint; outcome := out |} ::
      match out with
      | (_, inr st') => if breaks st' then [] else iterations db st' rest
      | (_, inl _) => []
      end
  end.

(** The candidate set after an iteration. *)
Definition candidates_after (it : iteration) : option (list Z) :=
  match outcome it with
  | (_, inr st) => candidateUids st
  | (_, inl _) => None
  end.

(** The enumeration mode after an iteration. *)
Definition mode_after (it : iteration) : bool :=
  match outcome it with
  | (_, inr st) => enumerationMode st
  | (_, inl _) => false
  end.

(** The statements sent by a sequence of iterations. *)
Definition lookups (its : list iteration) : list query :=
  flat_map (fun it => fst (outcome it)) its.

(** The lookup of an iteration is scoped to the candidates it was entered
    with: it is the constraint's own conditions followed by
    [r.oier_uid IN (candidates)]. *)
Definition scoped_lookup (it : iteration) : Prop :=
  exists s,
    candidateUids (before it) = Some s /\
    fst (outcome it) =
      [SelectDistinctOierUid
         (whereClause_of (processed it) ++ [Member col_r_oier_uid (map int_value s)])].

(** The lookup of an iteration is the constraint's own conditions only. *)
Definition unscoped_lookup (it : iteration) : Prop :=
  fst (outcome it) = [SelectDistinctOierUid (whereClause_of (processed it))].

(** The identifiers matching one constraint over the whole view. *)
Definition matching (d : Database) (constraint : RecordConstraint) : list Z :=
  Set_of (run_SelectDistinctOierUid d (whereClause_of constraint)).

(** Two candidate sets with the same elements ([null] only equals [null]). *)
Definition same_set (a b : option (list Z)) : Prop :=
  match a, b with
  | None, None => True
  | Some s, Some t => NoDup s /\ NoDup t /\ forall x, In x s <-> In x t
  | _, _ => False
  end.

(** [config] with its [records] replaced. *)
Definition with_records (config : QueryConfig) (rs : list RecordConstraint) : QueryConfig :=
  {| enroll_year_range := enroll_year_range config;
     grade_range := grade_range config;
     records := Some rs |}.

Definition score_desc (a b : OIer) : Prop := (oierdb_score b <= oierdb_score a)%Q.

(** The candidates left by one constraint: its matching identifiers when the
    set was still [null], and the candidates that match it otherwise. *)
Definition narrowed_by (d : Database) (cands : option (list Z)) (constraint : RecordConstraint)
  : list Z :=
  match cands with
  | None => matching d constraint
  | Some s => Set_intersect s (matching d constraint)
  end.

Fixpoint narrowed_by_all (d : Database) (cands : option (list Z)) (rs : list RecordConstraint)
  : option (list Z) :=
  match rs with
  | [] => cands
  | constraint :: rest => narrowed_by_all d (Some (narrowed_by d cands constraint)) rest
  end.

(** The enumeration mode is on exactly when the candidate set is non-null
    and below the threshold. *)
Definition mode_tracks_size (st : state) : Prop :=
  enumerationMode st = initial_mode (candidateUids st).

(** The condition that an iteration entered with the loop variables [st]
    appends to the clause of its constraint. *)
Definition scope_of (st : state) : list (condition join_column) :=
  match candidateUids st with
  | Some (x :: s) =>
      if enumerationMode st then [Member col_r_oier_uid (map int_value (x :: s))] else []
  | _ => []
  end.

(** The statement that such an iteration hands to the store. *)
Definition lookup_of (st : state) (constraint : RecordConstraint) : query :=
  SelectDistinctOierUid (whereClause_of constraint ++ scope_of st).

(** The loop variables that it leaves when the store accepts the
    statement. *)
Definition next_state (d : Database) (st : state) (constraint : RecordConstraint) : state :=
  let s := narrowed_by d (candidateUids st) constraint in
  {| candidateUids := Some s; enumerationMode := initial_mode (Some s) |}.

(** The store refused the lookup of an iteration. *)
Definition refused (it : iteration) : Prop :=
  snd (outcome it) = inl too_many_variables.

(** What an iteration on an initialised store does: it hands exactly one
    statement to the store, scoped when the mode is on and the candidate set
    is non-empty; the store refuses it when it binds too many values, and
    otherwise the iteration leaves the candidates of [narrowed_by]. *)
Definition sound_iteration (d : Database) (it : iteration) : Prop :=
  mode_tracks_size (before it) /\
  outcome it =
    ([lookup_of (before it) (processed it)],
     if accepted (lookup_of (before it) (processed it))
     then inr (next_state d (before it) (processed it))
     else inl too_many_variables).

(** No statement of a run was refused by the store. *)
Definition unrefused {A} (run : Eval A) : Prop :=
  forallb accepted (fst run) = true.

(** A record constraint of at most 32747 values: with the identifiers of a
    scope, which are fewer than 20, its lookup binds at most 32766 values. *)
Definition constraint_in_range (constraint : RecordConstraint) : Prop :=
  (N.of_nat (List.length (snd (buildWhereClauseAndValues constraint))) <= 32747)%N.

(** Identifiers that a JS number holds exactly. *)
Definition MAX_SAFE_INTEGER : Z := 2 ^ 53 - 1.

Definition safe_integer (z : Z) : Prop :=
  - MAX_SAFE_INTEGER <= z <= MAX_SAFE_INTEGER.

Definition safe_identifiers (d : Database) : Prop :=
  Forall (fun o => safe_integer (uid o)) (OIer_table d) /\
  Forall (fun r => safe_integer (r_oier_uid r)) (Record_table d).

(** [x] matches every constraint of [rs]. *)
Definition matches_all (d : Database) (rs : list RecordConstraint) (x : Z) : bool :=
  forallb (fun constraint => Set_has (matching d constraint) x) rs.

(** ** The specification's vocabulary *)

(** A bound pair with no present side, or no pair at all. *)
Definition unbounded {A} (r : option (bounds A)) : Prop :=
  r = None \/ r = Some (None, None).

(** The sides of a bound pair, an absent pair having none. *)
Definition sides {A} (r : option (bounds A)) : bounds A :=
  match r with
  | Some b => b
  | None => (None, None)
  end.

(** [x] satisfies the inclusive bounds that are present. *)
Definition within (b : bounds Z) (x : Z) : Prop :=
  (forall lo, fst b = Some lo -> lo <= x) /\
  (forall hi, snd b = Some hi -> x <= hi).

Definition withinQ (b : bounds Q) (x : Q) : Prop :=
  (forall lo, fst b = Some lo -> (lo <= x)%Q) /\
  (forall hi, snd b = Some hi -> (x <= hi)%Q).

(** [x] is allowed by a set filter: an absent or empty filter allows
    everything. *)
Definition allowed (f : option (list string)) (x : string) : Prop :=
  match f with
  | Some (v :: vs) => In x (v :: vs)
  | _ => True
  end.

(** Spec, section 3: [min_enrollment = Y - max_grade + 7], present only if
    [max_grade] is. *)
Definition spec_min_enrollment (Y : Z) (g : option (bounds Z)) : option Z :=
  match g with
  | Some (_, Some max_grade) => Some (Y - max_grade + 7)
  | _ => None
  end.

(** Spec, section 3: [max_enrollment = Y - min_grade + 7], present only if
    [min_grade] is. *)
Definition spec_max_enrollment (Y : Z) (g : option (bounds Z)) : option Z :=
  match g with
  | Some (Some min_grade, _) => Some (Y - min_grade + 7)
  | _ => None
  end.

Definition spec_grade_window (Y : Z) (g : option (bounds Z)) : bounds Z :=
  (spec_min_enrollment Y g, spec_max_enrollment Y g).

(** The conditions of a predicate as the specification words them, each one
    the text of the condition with the values bound to it: an inclusive
    lower bound, an inclusive upper bound, and the membership in a non-empty
    set (one placeholder per allowed value). *)
Definition spec_at_least (column : string) (lo : option value) : list (string * list value) :=
  match lo with
  | Some v => [(column ++ " >= ?", [v])]
  | None => []
  end.

Definition spec_at_most (column : string) (hi : option value) : list (string * list value) :=
  match hi with
  | Some v => [(column ++ " <= ?", [v])]
  | None => []
  end.

Definition spec_bounds (column : string) (b : bounds value) : list (string * list value) :=
  (spec_at_least column (fst b) ++ spec_at_most column (snd b))%list.

Fixpoint question_marks (n : nat) : string :=
  match n with
  | O => ""
  | S O => "?"
  | S m => "?," ++ question_marks m
  end.

Definition spec_member (column : string) (f : option (list string))
  : list (string * list value) :=
  match f with
  | Some (v :: vs) =>
      [(column ++ " IN (" ++ question_marks (List.length (v :: vs)) ++ ")",
        map VText (v :: vs))]
  | _ => []
  end.

(** Spec, sections 3 and 4.1: the bounds of [enroll_year_range] and the
    window derived from [grade_range], all on the enrollment year. *)
Definition spec_base_predicate (Y : Z) (config : QueryConfig) : list (string * list value) :=
  (spec_bounds "enroll_middle" (map_bounds int_value (sides (enroll_year_range config))) ++
   spec_bounds "enroll_middle"
     (map_bounds int_value (spec_grade_window Y (grade_range config))))%list.

(** Spec, section 4.2: up to two inequalities for each numeric field and one
    membership for each non-empty set field, on the columns of the
    record/contest view. *)
Definition spec_record_predicate (params : RecordConstraint) : list (string * list value) :=
  (spec_bounds "c.year" (map_bounds int_value (sides (year_range params))) ++
   spec_bounds "r.score" (map_bounds VNum (sides (score_range params))) ++
   spec_bounds "r.rank" (map_bounds int_value (sides (rank_range params))) ++
   spec_member "r.province" (province params) ++
   spec_member "r.level" (level_range params) ++
   spec_member "c.type" (contest_type params))%list.

(** The conjunction of such conditions with its bound values; the
    conjunction of no condition is the tautology. *)
Definition spec_conjunction (p : list (string * list value)) : string * list value :=
  (match p with
   | [] => "1=1"
   | _ => String.concat " AND " (map fst p)
   end,
   flat_map snd p).

(** The conjuncts of a clause that the code assembles, each with the values
    pushed next to it. *)
Definition conjuncts {col} (cname : col -> string) (ks : list (condition col))
  : list (string * list value) :=
  map (fun k => (condition_text cname k, condition_values k)) ks.

(** A set filter that is absent or explicitly empty. *)
Definition no_filter (f : option (list string)) : Prop :=
  f = None \/ f = Some [].

(** The number of present sides of a bound pair. *)
Definition present_sides {A} (b : bounds A) : nat :=
  (match fst b with Some _ => 1 | None => 0 end +
   match snd b with Some _ => 1 | None => 0 end)%nat.

(** The one membership condition of a non-empty set filter. *)
Definition membership_conditions (column : join_column) (f : option (list string))
  : list (condition join_column) :=
  match f with
  | Some (v :: vs) => [Member column (map VText (v :: vs))]
  | _ => []
  end.

Definition join_column_eqb (a b : join_column) : bool :=
  match a, b with
  | col_c_year, col_c_year | col_r_score, col_r_score | col_r_rank, col_r_rank
  | col_r_province, col_r_province | col_r_level, col_r_level
  | col_c_type, col_c_type | col_r_oier_uid, col_r_oier_uid => true
  | _, _ => false
  end.

Definition on_column (column : join_column) (k : condition join_column) : bool :=
  match condition_column k with
  | Some c => join_column_eqb c column
  | None => false
  end.

(** The number of inequality conditions, and of membership conditions, that
    a clause puts on a column. *)
Definition inequalities_on (column : join_column) (ks : list (condition join_column)) : nat :=
  List.length
    (filter (fun k => is_inequality k && on_column column k) ks).

Definition memberships_on (column : join_column) (ks : list (condition join_column)) : nat :=
  List.length
    (filter (fun k => is_membership k && on_column column k) ks).

(** The three set-filter fields of a record constraint. *)
Inductive set_field : Type :=
| Province | ContestType | LevelRange.

(** [constraint] with one set-filter field replaced. *)
Definition set_filter (f : set_field) (constraint : RecordConstraint)
    (v : option (list string)) : RecordConstraint :=
  {| year_range := year_range constraint;
     rank_range := rank_range constraint;
     score_range := score_range constraint;
     province := match f with Province => v | _ => province constraint end;
     contest_type := match f with ContestType => v | _ => contest_type constraint end;
     level_range := match f with LevelRange => v | _ => level_range constraint end |}.

(** Spec, section 7: the kinds of error an evaluation is said to surface. *)
Inductive error_kind : Type :=
| StoreUnavailable | ExecutionFailed.

(** Spec, section 6: the normalized configuration, "after grade-to-year
    translation": the window derived from [grade_range] is folded into the
    enrollment-year bounds (both sets of bounds apply), and no grade bound is
    left. *)
Definition tighter_lower (a b : option Z) : option Z :=
  match a, b with
  | Some x, Some y => Some (Z.max x y)
  | Some x, None | None, Some x => Some x
  | None, None => None
  end.

Definition tighter_upper (a b : option Z) : option Z :=
  match a, b with
  | Some x, Some y => Some (Z.min x y)
  | Some x, None | None, Some x => Some x
  | None, None => None
  end.

Definition spec_normalized_config (Y : Z) (config : QueryConfig) : QueryConfig :=
  let e := sides (enroll_year_range config) in
  let g := spec_grade_window Y (grade_range config) in
  let b := (tighter_lower (fst e) (fst g), tighter_upper (snd e) (snd g)) in
  {| enroll_year_range := if some_not_null b then Some b else None;
     grade_range := None;
     records := records config |}.

(** ** Sample data *)

Definition mkOIer (u : Z) (n : string) (enroll : Z) (score : Q) : OIer :=
  {| uid := u; name := n; gender := 0; enroll_middle := enroll;
     oierdb_score := score; ccf_score := 0; ccf_level := 0 |}.

Definition mkRecord (u cid : Z) (score : Q) (rk : Z) (prov lvl : string) : RecordRow :=
  {| r_oier_uid := u; r_contest_id := cid; r_score := score; r_rank := rk;
     r_province := prov; r_level := lvl |}.

(** The dataset of the specification's scenarios A and B, with two contests
    and four records. *)
Definition scenario_db : Database :=
  {| OIer_table := [mkOIer 1 "uid1" 2020 (90 # 1); mkOIer 2 "uid2" 2021 (80 # 1)];
     Contest_table := [ {| c_id := 10; c_year := 2019; c_type := "NOIP" |};
                        {| c_id := 11; c_year := 2020; c_type := "NOI" |} ];
     Record_table := [ mkRecord 2 10 (100 # 1) 5 "BJ" "1st";
                       mkRecord 1 10 (50 # 1) 50 "SH" "2nd";
                       mkRecord 1 11 (300 # 1) 1 "SH" "1st";
                       mkRecord 2 11 (10 # 1) 100 "BJ" "3rd" ] |}.

Definition any_record : RecordConstraint :=
  {| year_range := None; rank_range := None; score_range := None;
     province := None; contest_type := None; level_range := None |}.

Definition empty_config : QueryConfig :=
  {| enroll_year_range := None; grade_range := None; records := None |}.

(** A configuration whose base filter selects nobody in [scenario_db],
    followed by one record constraint. *)
Definition empty_base_config : QueryConfig :=
  {| enroll_year_range := Some (Some 2030, None);
     grade_range := None;
     records := Some [any_record] |}.

(** Two record constraints: contests from 2020 on, and records from
    province SH. *)
Definition since_2020 : RecordConstraint :=
  {| year_range := Some (Some 2020, None); rank_range := None; score_range := None;
     province := None; contest_type := None; level_range := None |}.

Definition from_SH : RecordConstraint :=
  {| year_range := None; rank_range := None; score_range := None;
     province := Some ["SH"]; contest_type := None; level_range := None |}.

Definition two_records_config : QueryConfig :=
  {| enroll_year_range := None; grade_range := None;
     records := Some [since_2020; from_SH] |}.

(** The specification's example of a grade window. *)
Definition grades_1_3_config : QueryConfig :=
  {| enroll_year_range := None; grade_range := Some (Some 1, Some 3); records := None |}.

Definition from_BJ : RecordConstraint :=
  {| year_range := None; rank_range := None; score_range := None;
     province := Some ["BJ"]; contest_type := None; level_range := None |}.

(** A set filter that names no province of [scenario_db], and one of 32767
    values, one more than the store binds. *)
Definition from_nowhere : RecordConstraint :=
  {| year_range := None; rank_range := None; score_range := None;
     province := Some ["XX"]; contest_type := None; level_range := None |}.

Definition from_too_many : RecordConstraint :=
  {| year_range := None; rank_range := None; score_range := None;
     province := Some (repeat "BJ" (N.to_nat 32767)); contest_type := None;
     level_range := None |}.

Definition too_many_last_config : QueryConfig :=
  {| enroll_year_range := None; grade_range := None;
     records := Some [from_nowhere; from_too_many] |}.

(** A dataset of [n] enrollees with one record each, in the same contest. *)
Definition uniform_db (n : nat) : Database :=
  let uids := map Z.of_nat (seq 1 n) in
  {| OIer_table := map (fun u => mkOIer u "x" 2020 (inject_Z u)) uids;
     Contest_table := [ {| c_id := 10; c_year := 2019; c_type := "NOIP" |} ];
     Record_table := map (fun u => mkRecord u 10 (100 # 1) 1 "BJ" "1st") uids |}.

Definition two_any_config : QueryConfig :=
  {| enroll_year_range := None; grade_range := None;
     records := Some [any_record; any_record] |}.

(** ** What a query asks for *)

(** A joined record satisfies every present bound and every non-empty set
    filter of a record constraint. *)
Definition satisfies (constraint : RecordConstraint) (r : RecordRow) (k : Contest) : Prop :=
  within (sides (year_range constraint)) (c_year k) /\
  withinQ (sides (score_range constraint)) (r_score r) /\
  within (sides (rank_range constraint)) (r_rank r) /\
  allowed (province constraint) (r_province r) /\
  allowed (contest_type constraint) (c_type k) /\
  allowed (level_range constraint) (r_level r).

(** Identifier [x] owns a record, joined to its contest, that satisfies the
    constraint. *)
Definition has_matching_record (d : Database) (constraint : RecordConstraint) (x : Z) : Prop :=
  exists r k,
    In r (Record_table d) /\ In k (Contest_table d) /\
    r_contest_id r = c_id k /\ r_oier_uid r = x /\
    satisfies constraint r k.

(** Some row of [OIer] with identifier [x] has its enrollment year within the
    bounds of [enroll_year_range] and within the window of [grade_range]. *)
Definition passes_base (d : Database) (Y : Z) (config : QueryConfig) (x : Z) : Prop :=
  exists o,
    In o (OIer_table d) /\ uid o = x /\
    within (sides (enroll_year_range config)) (enroll_middle o) /\
    within (spec_grade_window Y (grade_range config)) (enroll_middle o).

(** The enrollees of the rows returned by a run, if it returned. *)
Definition returned (run : Eval (list row)) : list OIer :=
  match snd run with
  | inr rows => map row_oier rows
  | inl _ => []
  end.

(** The number of occurrences of a character in a text. *)
Fixpoint count_char (c : Ascii.ascii) (s : string) : nat :=
  match s with
  | EmptyString => 0
  | String a s' => ((if Ascii.eqb a c then 1 else 0) + count_char c s')%nat
  end.

(** ** Strings *)

(** A character stands for a code unit below 256.  Among these, the white
    space and line terminators of JS ([String.prototype.trim], [\s]) are
    TAB, LF, VT, FF, CR, SP and NBSP; the line terminators ([.] does not
    match them) are LF and CR; the digits ([\d]) are ["0"] to ["9"]. *)
Definition is_space (c : ascii) : bool :=
  let n := nat_of_ascii c in
  ((n =? 9) || (n =? 10) || (n =? 11) || (n =? 12) || (n =? 13) || (n =? 32) || (n =? 160))%nat.

Definition is_line_terminator (c : ascii) : bool :=
  let n := nat_of_ascii c in
  ((n =? 10) || (n =? 13))%nat.

Definition is_digit (c : ascii) : bool :=
  let n := nat_of_ascii c in
  ((48 <=? n) && (n <=? 57))%nat.

Fixpoint trimStart (s : string) : string :=
  match s with
  | EmptyString => EmptyString
  | String c s' => if is_space c then trimStart s' else s
  end.

Fixpoint trimEnd (s : string) : string :=
  match s with
  | EmptyString => EmptyString
  | String c s' =>
      match trimEnd s' with
      | EmptyString => if is_space c then EmptyString else String c EmptyString
      | t => String c t
      end
  end.

(** [s.trim()] *)
Definition trim (s : string) : string := trimEnd (trimStart s).

(** [Boolean(s)] for a string. *)
Definition nonempty (s : string) : bool :=
  match s with
  | EmptyString => false
  | String _ _ => true
  end.

(** Putting a character in front of the first piece of a split. *)
Definition cons_first (c : ascii) (pieces : list string) : list string :=
  match pieces with
  | piece :: rest => String c piece :: rest
  | [] => [String c EmptyString]
  end.

(** [s.split(sep)] for a separator of one character. *)
Fixpoint split (sep : ascii) (s : string) : list string :=
  match s with
  | EmptyString => [EmptyString]
  | String c s' =>
      if Ascii.eqb c sep then EmptyString :: split sep s'
      else cons_first c (split sep s')
  end.

(** [s.split(/\r?\n/)] *)
Fixpoint split_lines (s : string) : list string :=
  match s with
  | EmptyString => [EmptyString]
  | String c s' =>
      if Ascii.eqb c "010" then EmptyString :: split_lines s'
      else
        match s' with
        | String c' s'' =>
            if Ascii.eqb c "013" && Ascii.eqb c' "010"
            then EmptyString :: split_lines s''
            else cons_first c (split_lines s')
        | EmptyString => [String c EmptyString]
        end
  end.

(** [text.includes(key)] *)
Fixpoint includes (key text : string) : bool :=
  String.prefix key text ||
  match text with
  | EmptyString => false
  | String _ text' => includes key text'
  end.

(** ** Helper functions of the form handlers *)

(** [getListOrNull]: [value ? value.split(',').map(s => s.trim()).filter(Boolean) : null] *)
Definition getListOrNull (value : option string) : option (list string) :=
  match value with
  | Some (String c s) => Some (filter nonempty (map trim (split "," (String c s))))
  | _ => None
  end.

(** A JS number as [parseInt] and [parseFloat] return it: a finite number,
    [NaN] (for a text that starts with no numeral) or an infinity. *)
Inductive parsed (A : Type) : Type :=
| Finite (x : A)
| NaN
| Infinity (negative : bool).

Arguments Finite {A} x.
Arguments NaN {A}.
Arguments Infinity {A} negative.

Definition to_number (n : parsed Z) : parsed Q :=
  match n with
  | Finite z => Finite (inject_Z z)
  | NaN => NaN
  | Infinity negative => Infinity negative
  end.

(** The nine fields that one record row of the form submits, as
    [formData.getAll] returns them at one index: every row of the form
    submits its nine fields, so that the nine arrays are aligned. *)
Record RecordFields : Type := {
  record_year_min : string;
  record_year_max : string;
  record_rank_min : string;
  record_rank_max : string;
  record_score_min : string;
  record_score_max : string;
  record_province : string;
  record_contest_type : string;
  record_level_range : string
}.

(** The submitted form: [formData.get] of the four base fields ([null] when
    the field is missing) and the record rows. *)
Record UiForm : Type := {
  enroll_min : option string;
  enroll_max : option string;
  grade_min : option string;
  grade_max : option string;
  record_rows : list RecordFields
}.

(** The object [recordCond] that the handler builds for one row, and the
    object [config] that it passes to [executeQuery]: their numbers are
    those that the fields parse to, finite or not. *)
Record RecordCond : Type := {
  form_year_range : bounds (parsed Z);
  form_rank_range : bounds (parsed Z);
  form_score_range : bounds (parsed Q);
  form_province : option (list string);
  form_contest_type : option (list string);
  form_level_range : option (list string)
}.

Record FormConfig : Type := {
  form_enroll_year_range : bounds (parsed Z);
  form_grade_range : bounds (parsed Z);
  form_records : list RecordCond
}.

Section FormHandler.

(** [parseInt(_, 10)], [parseFloat] and [Number.prototype.toString]. *)
Variable parseInt : string -> parsed Z.
Variable parseFloat : string -> parsed Q.
Variable Number_toString : parsed Q -> string.

(** [getIntOrNull]: [value === '' || value === null ? null : parseInt(value, 10)] *)
Definition getIntOrNull (value : option string) : option (parsed Z) :=
  match value with
  | Some (String c s) => Some (parseInt (String c s))
  | _ => None
  end.

(** [getFloatOrNull] *)
Definition getFloatOrNull (value : option string) : option (parsed Q) :=
  match value with
  | Some (String c s) => Some (parseFloat (String c s))
  | _ => None
  end.

(** [recordCond] *)
Definition recordCond (f : RecordFields) : RecordCond :=
  {| form_year_range := (getIntOrNull (Some (record_year_min f)),
                         getIntOrNull (Some (record_year_max f)));
     form_rank_range := (getIntOrNull (Some (record_rank_min f)),
                         getIntOrNull (Some (record_rank_max f)));
     form_score_range := (getFloatOrNull (Some (record_score_min f)),
                          getFloatOrNull (Some (record_score_max f)));
     form_province := getListOrNull (Some (record_province f));
     form_contest_type := getListOrNull (Some (record_contest_type f));
     form_level_range := getListOrNull (Some (record_level_range f)) |}.

(** [v.toString()] of a pair: [null] elements are joined as empty strings. *)
Definition pair_toString {A} (render : A -> string) (b : bounds A) : string :=
  (match fst b with Some x => render x | None => "" end) ++ "," ++
  (match snd b with Some x => render x | None => "" end).

(** The test [v && (Array.isArray(v) ? v.length > 0 : v !== null) &&
    v.toString() !== 'null,null'] on a pair (an array of length 2) and on a
    list or [null]. *)
Definition pair_is_filled {A} (render : A -> string) (b : bounds A) : bool :=
  (0 <? 2)%nat && negb (String.eqb (pair_toString render b) "null,null").

Definition list_is_filled (v : option (list string)) : bool :=
  match v with
  | Some l => (0 <? List.length l)%nat && negb (String.eqb (String.concat "," l) "null,null")
  | None => false
  end.

(** [Object.values(recordCond).some(...)] *)
Definition is_filled (c : RecordCond) : bool :=
  pair_is_filled (fun n => Number_toString (to_number n)) (form_year_range c) ||
  pair_is_filled (fun n => Number_toString (to_number n)) (form_rank_range c) ||
  pair_is_filled Number_toString (form_score_range c) ||
  list_is_filled (form_province c) ||
  list_is_filled (form_contest_type c) ||
  list_is_filled (form_level_range c).

(** The configuration that [handleUiFormSubmit] builds. *)
Definition ui_config (form : UiForm) : FormConfig :=
  {| form_enroll_year_range :=
       (getIntOrNull (enroll_min form), getIntOrNull (enroll_max form));
     form_grade_range :=
       (getIntOrNull (grade_min form), getIntOrNull (grade_max form));
     form_records := filter is_filled (map recordCond (record_rows form)) |}.

End FormHandler.

(** The canonical configuration that a configuration built from the form
    is, when every number it holds is finite: a configuration that holds
    [NaN] or an infinity has no canonical form. *)
Definition finite_side {A} (v : option (parsed A)) : option (option A) :=
  match v with
  | None => Some None
  | Some (Finite x) => Some (Some x)
  | Some _ => None
  end.

Definition finite_bounds {A} (b : bounds (parsed A)) : option (bounds A) :=
  match finite_side (fst b), finite_side (snd b) with
  | Some lo, Some hi => Some (lo, hi)
  | _, _ => None
  end.

Definition canonical_record (c : RecordCond) : option RecordConstraint :=
  match finite_bounds (form_year_range c), finite_bounds (form_rank_range c),
        finite_bounds (form_score_range c) with
  | Some y, Some r, Some s =>
      Some {| year_range := Some y; rank_range := Some r; score_range := Some s;
              province := form_province c; contest_type := form_contest_type c;
              level_range := form_level_range c |}
  | _, _, _ => None
  end.

Fixpoint canonical_records (l : list RecordCond) : option (list RecordConstraint) :=
  match l with
  | [] => Some []
  | c :: rest =>
      match canonical_record c, canonical_records rest with
      | Some c', Some rest' => Some (c' :: rest')
      | _, _ => None
      end
  end.

Definition canonical (config : FormConfig) : option QueryConfig :=
  match finite_bounds (form_enroll_year_range config),
        finite_bounds (form_grade_range config),
        canonical_records (form_records config) with
  | Some e, Some g, Some rs =>
      Some {| enroll_year_range := Some e; grade_range := Some g; records := Some rs |}
  | _, _, _ => None
  end.

(** [handleUiFormSubmit], for a form whose configuration holds finite
    numbers only ([None] otherwise: the evaluation of a configuration that
    holds [NaN] or an infinity is not described here). *)
Definition handleUiFormSubmit (parseInt : string -> parsed Z) (parseFloat : string -> parsed Q)
    (Number_toString : parsed Q -> string)
    (db : option Database) (currentYear : Z) (form : UiForm)
  : option (list query * page) :=
  match canonical (ui_config parseInt parseFloat Number_toString form) with
  | Some config => Some (executeQuery db currentYear (Some config))
  | None => None
  end.

(** A row of the form with every field left blank. *)
Definition blank_fields : RecordFields :=
  {| record_year_min := ""; record_year_max := ""; record_rank_min := "";
     record_rank_max := ""; record_score_min := ""; record_score_max := "";
     record_province := ""; record_contest_type := ""; record_level_range := "" |}.

(** Identifier [x] owns a record joined to a contest. *)
Definition has_record (d : Database) (x : Z) : Prop :=
  exists r k,
    In r (Record_table d) /\ In k (Contest_table d) /\
    r_contest_id r = c_id k /\ r_oier_uid r = x.

(** [Number.prototype.toString] never yields a text that starts with ["n"]:
    its results start with a digit, ["-"], ["N"] (for [NaN]) or ["I"] (for
    [Infinity]). *)
Definition renders_numbers (Number_toString : parsed Q -> string) : Prop :=
  forall n, exists c s, Number_toString n = String c s /\ c <> "n"%char.

(** Every character of a text passes a test. *)
Fixpoint all_chars (p : ascii -> bool) (s : string) : bool :=
  match s with
  | EmptyString => true
  | String c s' => p c && all_chars p s'
  end.

(** A text made of commas and white space only. *)
Definition only_separators (s : string) : bool :=
  all_chars (fun c => Ascii.eqb c "," || is_space c) s.

(** ** [convertLuoguToConfig] *)

(** The name mapping loaded from [MAPPING_PATH].  A mapping object is the
    list of its own entries in insertion order (its keys are no array
    indices, its values are texts); like every object that [jsyaml.load]
    builds, it inherits the properties of [Object.prototype]. *)
Record NameMapping : Type := {
  contest_mapping : option (list (string * string));
  level_mapping : option (list (string * string))
}.

(** The names of the properties of [Object.prototype].  Each of them holds
    a function, or for [__proto__] the prototype object itself: a truthy
    value that is no text. *)
Definition Object_prototype : list string :=
  ["constructor"; "__defineGetter__"; "__defineSetter__"; "hasOwnProperty";
   "__lookupGetter__"; "__lookupSetter__"; "isPrototypeOf"; "propertyIsEnumerable";
   "toString"; "valueOf"; "__proto__"; "toLocaleString"].

(** What reading a property of a mapping object gives: the value of an own
    entry, a property inherited from [Object.prototype], or [undefined]. *)
Inductive property : Type :=
| OwnValue (v : string)
| Inherited (name : string)
| Undefined.

Fixpoint own_entry (map : list (string * string)) (key : string) : option string :=
  match map with
  | [] => None
  | (k, v) :: rest => if String.eqb k key then Some v else own_entry rest key
  end.

(** [map[key]] *)
Definition lookup (map : list (string * string)) (key : string) : property :=
  match own_entry map key with
  | Some v => OwnValue v
  | None =>
      if existsb (String.eqb key) Object_prototype then Inherited key else Undefined
  end.

(** [.*]: up to the first line terminator. *)
Fixpoint dot_star (s : string) : string :=
  match s with
  | EmptyString => EmptyString
  | String c s' => if is_line_terminator c then EmptyString else String c (dot_star s')
  end.

(** [parseInt] of four digits. *)
Definition digit_value (c : ascii) : Z := Z.of_nat (nat_of_ascii c) - 48.

Definition four_digits (d1 d2 d3 d4 : ascii) : Z :=
  1000 * digit_value d1 + 100 * digit_value d2 + 10 * digit_value d3 + digit_value d4.

(** The pattern of [convertLuoguToConfig] tried at the start of [s]: an
    opening bracket, four digits (the first group), a closing bracket, any
    white space, and the rest of the line (the second group).  The result is
    [parseInt] of the first group and the second group. *)
Definition match_here (s : string) : option (Z * string) :=
  match s with
  | String b (String d1 (String d2 (String d3 (String d4 (String e rest))))) =>
      if Ascii.eqb b "[" && is_digit d1 && is_digit d2 && is_digit d3 && is_digit d4 &&
         Ascii.eqb e "]"
      then Some (four_digits d1 d2 d3 d4, dot_star (trimStart rest))
      else None
  | _ => None
  end.

(** [line.match(pattern)]: the leftmost position at which the pattern
    matches. *)
Fixpoint match_pattern (s : string) : option (Z * string) :=
  match match_here s with
  | Some m => Some m
  | None =>
      match s with
      | EmptyString => None
      | String _ s' => match_pattern s'
      end
  end.

(** The loop over [Object.entries(contestMap)]: the value of the first key
    that the contest name includes. *)
Fixpoint first_included (contestMap : list (string * string)) (luoguContest : string)
  : option string :=
  match contestMap with
  | [] => None
  | (key, value) :: rest =>
      if includes key luoguContest then Some value else first_included rest luoguContest
  end.

(** The value of [standardLevel] in a pushed record: a text of the level
    mapping, or the property that the level line names in
    [Object.prototype]. *)
Inductive level : Type :=
| LevelText (l : string)
| LevelInherited (name : string).

(** The record pushed for one entry:
    [{year_range: [year, year], contest_type: [standardContestType],
      level_range: [standardLevel]}]. *)
Record LuoguRecord : Type := {
  luogu_year : Z;
  luogu_contest_type : string;
  luogu_level : level
}.

(** The object that [convertLuoguToConfig] returns. *)
Record LuoguConfig : Type := {
  luogu_records : list LuoguRecord
}.

(** [if (!standardLevel) continue]: the truthy values of [levelMap[luoguLevel]]. *)
Definition truthy_level (p : property) : option level :=
  match p with
  | OwnValue (String c l) => Some (LevelText (String c l))
  | OwnValue EmptyString => None
  | Inherited name => Some (LevelInherited name)
  | Undefined => None
  end.

(** One turn of the loop, on [lines[i]] and [lines[i + 1]]: the records it
    pushes. *)
Definition convert_entry (contestMap levelMap : list (string * string)) (line next : string)
  : list LuoguRecord :=
  match match_pattern line with
  | None => []
  | Some (year, group2) =>
      let luoguContest := trim group2 in
      let luoguLevel := trim next in
      match truthy_level (lookup levelMap luoguLevel) with
      | Some standardLevel =>
          match first_included contestMap luoguContest with
          | Some (String c' t) =>
              [{| luogu_year := year; luogu_contest_type := String c' t;
                  luogu_level := standardLevel |}]
          | _ => []
          end
      | None => []
      end
  end.

(** [for (let i = 0; i < lines.length - 1; i += 2)] *)
Fixpoint convert_lines (contestMap levelMap : list (string * string)) (lines : list string)
  : list LuoguRecord :=
  match lines with
  | line :: next :: rest =>
      (convert_entry contestMap levelMap line next ++
       convert_lines contestMap levelMap rest)%list
  | _ => []
  end.

(** [luoguText.trim().split(/\r?\n/).map(l => l.trim()).filter(Boolean)] *)
Definition luogu_lines (luoguText : string) : list string :=
  filter nonempty (map trim (split_lines (trim luoguText))).

Definition entries_of (m : option (list (string * string))) : list (string * string) :=
  match m with
  | Some l => l
  | None => []
  end.

Definition convertLuoguToConfig (luoguText : string) (mapping : NameMapping) : LuoguConfig :=
  let contestMap := entries_of (contest_mapping mapping) in
  let levelMap := entries_of (level_mapping mapping) in
  {| luogu_records := convert_lines contestMap levelMap (luogu_lines luoguText) |}.

(** The canonical record constraint that a pushed record is when its level
    is a text. *)
Definition luogu_record (year : Z) (standardContestType standardLevel : string)
  : RecordConstraint :=
  {| year_range := Some (Some year, Some year);
     rank_range := None;
     score_range := None;
     province := None;
     contest_type := Some [standardContestType];
     level_range := Some [standardLevel] |}.

Definition canonical_luogu_record (r : LuoguRecord) : option RecordConstraint :=
  match luogu_level r with
  | LevelText l => Some (luogu_record (luogu_year r) (luogu_contest_type r) l)
  | LevelInherited _ => None
  end.

Fixpoint canonical_luogu_records (l : list LuoguRecord) : option (list RecordConstraint) :=
  match l with
  | [] => Some []
  | r :: rest =>
      match canonical_luogu_record r, canonical_luogu_records rest with
      | Some c, Some rest' => Some (c :: rest')
      | _, _ => None
      end
  end.

(** The canonical configuration that the returned object is, when the level
    of every record is a text. *)
Definition canonical_luogu (config : LuoguConfig) : option QueryConfig :=
  match canonical_luogu_records (luogu_records config) with
  | Some rs => Some {| enroll_year_range := None; grade_range := None; records := Some rs |}
  | None => None
  end.

(** [handleLuoguFormSubmit], for a text none of whose records has an
    inherited property as its level ([None] otherwise: the evaluation of a
    configuration that holds a function where a level is expected is not
    described here). *)
Definition handleLuoguFormSubmit (db : option Database) (currentYear : Z)
    (nameMapping : NameMapping) (luoguContent : string) : option (list query * page) :=
  match canonical_luogu (convertLuoguToConfig luoguContent nameMapping) with
  | Some config => Some (executeQuery db currentYear (Some config))
  | None => None
  end.

(** A record of the shape that [convertLuoguToConfig] pushes: a year of four
    digits, a non-empty contest type of the contest mapping, and as level
    either the non-empty text that the level mapping gives for a key, or a
    property of [Object.prototype] whose name is no key of the level
    mapping. *)
Definition luogu_shaped (mapping : NameMapping) (r : LuoguRecord) : Prop :=
  0 <= luogu_year r <= 9999 /\
  luogu_contest_type r <> EmptyString /\
  (exists key, In (key, luogu_contest_type r) (entries_of (contest_mapping mapping))) /\
  match luogu_level r with
  | LevelText l =>
      l <> EmptyString /\ exists key, In (key, l) (entries_of (level_mapping mapping))
  | LevelInherited name =>
      In name Object_prototype /\
      forall v, ~ In (name, v) (entries_of (level_mapping mapping))
  end.

(** An enrollee identifier that owns a record of a given level in a contest
    of a given year and type. *)
Definition took_part (d : Database) (year : Z) (t l : string) (x : Z) : Prop :=
  exists r k,
    In r (Record_table d) /\ In k (Contest_table d) /\
    r_contest_id r = c_id k /\ r_oier_uid r = x /\
    c_year k = year /\ c_type k = t /\ r_level r = l.

(** ** Sample numerals *)

(** The decimal numeral of the integer part of a number, and the integer of
    a decimal numeral; a text that is no decimal numeral parses to [NaN]. *)
Definition integer_numeral (q : Q) : string :=
  NilZero.string_of_int (Z.to_int (Qnum q / Zpos (Qden q))).

Definition number_text (n : parsed Q) : string :=
  match n with
  | Finite q => integer_numeral q
  | NaN => "NaN"
  | Infinity negative => if negative then "-Infinity" else "Infinity"
  end.

Definition numeral_integer (s : string) : parsed Z :=
  match NilZero.int_of_string s with
  | Some i => Finite (Z.of_int i)
  | None => NaN
  end.

Definition numeral_number (s : string) : parsed Q := to_number (numeral_integer s).

Definition one_blank_row_form : UiForm :=
  {| enroll_min := Some ""; enroll_max := Some ""; grade_min := Some ""; grade_max := Some "";
     record_rows := [blank_fields] |}.

(** A form with a blank row and a row whose year is no numeral. *)
Definition no_numeral_row_form : UiForm :=
  {| enroll_min := Some ""; enroll_max := Some ""; grade_min := Some ""; grade_max := Some "";
     record_rows :=
       [blank_fields;
        {| record_year_min := "abc"; record_year_max := ""; record_rank_min := "";
           record_rank_max := ""; record_score_min := ""; record_score_max := "";
           record_province := ""; record_contest_type := ""; record_level_range := "" |}] |}.

Definition sample_mapping : NameMapping :=
  {| contest_mapping := Some [("NOIP", "NOIP"); ("NOI", "NOI")];
     level_mapping := Some [("gold", "1st"); ("silver", "2nd")] |}.

(** A form field that is missing or left empty. *)
Definition left_empty (v : option string) : Prop :=
  v = None \/ v = Some EmptyString.

(** A history of one entry, as pasted: the contest line and the level line. *)
Definition sample_history : string :=
  "[2020] CCF NOI 2020" ++ String "010" "gold".

(** A history whose level line names a property of [Object.prototype]. *)
Definition constructor_history : string :=
  "[2020] NOI 2020" ++ String "010" "constructor".

(** ** Writing a contest history *)

(** One entry of a history: the four digits of the year, the contest name
    and the level. *)
Record HistoryEntry : Type := {
  e_d1 : ascii;
  e_d2 : ascii;
  e_d3 : ascii;
  e_d4 : ascii;
  e_contest : string;
  e_level : string
}.

(** The contest line of an entry: the year in brackets, a space, the
    name. *)
Definition entry_line (e : HistoryEntry) : string :=
  String "[" (String (e_d1 e) (String (e_d2 e) (String (e_d3 e) (String (e_d4 e)
    (String "]" (String " " (e_contest e))))))).

Definition entry_lines (e : HistoryEntry) : list string :=
  [entry_line e; e_level e].

(** The entries written one line after the other, separated by LF. *)
Definition history_text (es : list HistoryEntry) : string :=
  String.concat (String "010" EmptyString) (flat_map entry_lines es).

(** A text that is non-empty, has no white space at either end and no
    line terminator inside. *)
Definition plain (s : string) : Prop :=
  s <> EmptyString /\ trim s = s /\
  all_chars (fun c => negb (is_line_terminator c)) s = true.

Definition well_formed (e : HistoryEntry) : Prop :=
  is_digit (e_d1 e) = true /\ is_digit (e_d2 e) = true /\
  is_digit (e_d3 e) = true /\ is_digit (e_d4 e) = true /\
  plain (e_contest e) /\ plain (e_level e).

(** The level that an entry stands for under a level mapping: the text
    that the mapping has for the entry's level when that text is not empty;
    failing an entry for it, the property of [Object.prototype] that the
    entry's level names; and none otherwise. *)
Definition entry_level (levelMap : list (string * string)) (e : HistoryEntry) : option level :=
  match own_entry levelMap (e_level e) with
  | Some EmptyString => None
  | Some l => Some (LevelText l)
  | None =>
      if existsb (String.eqb (e_level e)) Object_prototype
      then Some (LevelInherited (e_level e))
      else None
  end.

(** The record that an entry stands for under a name mapping, if it has a
    level under the level mapping and the first key of the contest mapping
    that its name includes has a non-empty value. *)
Definition entry_records (mapping : NameMapping) (e : HistoryEntry) : list LuoguRecord :=
  match entry_level (entries_of (level_mapping mapping)) e with
  | Some l =>
      match first_included (entries_of (contest_mapping mapping)) (e_contest e) with
      | Some (String c' t) =>
          [{| luogu_year := four_digits (e_d1 e) (e_d2 e) (e_d3 e) (e_d4 e);
              luogu_contest_type := String c' t;
              luogu_level := l |}]
      | _ => []
      end
  | None => []
  end.

Definition sample_entries : list HistoryEntry :=
  [ {| e_d1 := "2"; e_d2 := "0"; e_d3 := "1"; e_d4 := "9";
       e_contest := "CCF NOIP2019"; e_level := "silver" |};
    {| e_d1 := "2"; e_d2 := "0"; e_d3 := "2"; e_d4 := "0";
       e_contest := "NOI 2020"; e_level := "gold" |};
    {| e_d1 := "2"; e_d2 := "0"; e_d3 := "2"; e_d4 := "1";
       e_contest := "NOI 2021"; e_level := "toString" |};
    {| e_d1 := "2"; e_d2 := "0"; e_d3 := "2"; e_d4 := "2";
       e_contest := "NOI 2022"; e_level := "bronze" |} ].

(** * Properties *)

(** ** Sets of identifiers *)

Section Sets.

Lemma Set_has_In (s : list Z) (x : Z) : Set_has s x = true <-> In x s.
Proof.
  unfold Set_has. rewrite existsb_exists. split.
  - intros [y [Hy E]]. apply Z.eqb_eq in E. now subst.
  - intros H. exists x. split; [assumption | apply Z.eqb_refl].
Qed.

Lemma Set_has_false (s : list Z) (x : Z) : Set_has s x = false <-> ~ In x s.
Proof.
  rewrite <- Set_has_In. destruct (Set_has s x); split; congruence.
Qed.

Lemma Set_add_In (s : list Z) (x y : Z) : In y (Set_add s x) <-> y = x \/ In y s.
Proof.
  unfold Set_add. destruct (Set_has s x) eqn:E.
  - apply Set_has_In in E. split; [tauto | intros [-> | H]; assumption].
  - rewrite in_app_iff. simpl. split; intros H; intuition.
Qed.

Lemma Set_add_NoDup (s : list Z) (x : Z) : NoDup s -> NoDup (Set_add s x).
Proof.
  intros H. unfold Set_add. destruct (Set_has s x) eqn:E; [assumption |].
  apply Set_has_false in E.
  apply NoDup_rev in H. rewrite <- (rev_involutive (s ++ [x])).
  apply NoDup_rev. rewrite rev_app_distr. simpl. constructor; [| assumption].
  now rewrite <- in_rev.
Qed.

Lemma fold_Set_add_In (l acc : list Z) (x : Z) :
  In x (fold_left Set_add l acc) <-> In x l \/ In x acc.
Proof.
  revert acc. induction l as [| y l IH]; intros acc; simpl.
  - tauto.
  - rewrite IH, Set_add_In. split; intros H; intuition.
Qed.

Lemma fold_Set_add_NoDup (l acc : list Z) :
  NoDup acc -> NoDup (fold_left Set_add l acc).
Proof.
  revert acc. induction l as [| y l IH]; intros acc H; simpl; [assumption |].
  apply IH, Set_add_NoDup, H.
Qed.

Lemma Set_of_In (l : list Z) (x : Z) : In x (Set_of l) <-> In x l.
Proof.
  unfold Set_of. rewrite fold_Set_add_In. simpl. tauto.
Qed.

Lemma Set_of_NoDup (l : list Z) : NoDup (Set_of l).
Proof. apply fold_Set_add_NoDup. constructor. Qed.

Lemma distinct_In (l : list Z) (x : Z) : In x (distinct l) <-> In x l.
Proof. apply Set_of_In. Qed.

Lemma Set_intersect_In (a b : list Z) (x : Z) :
  In x (Set_intersect a b) <-> In x a /\ In x b.
Proof.
  unfold Set_intersect. now rewrite filter_In, Set_has_In.
Qed.

Lemma Set_intersect_incl (a b : list Z) : incl (Set_intersect a b) a.
Proof. intros x H. now apply Set_intersect_In in H. Qed.

Lemma Set_intersect_length (a b : list Z) :
  (List.length (Set_intersect a b) <= List.length a)%nat.
Proof. apply filter_length_le. Qed.

(** Intersecting with two sets that agree on [a] gives the same list. *)
Lemma Set_intersect_ext (a b b' : list Z) :
  (forall x, In x a -> (In x b <-> In x b')) ->
  Set_intersect a b = Set_intersect a b'.
Proof.
  intros H. unfold Set_intersect. apply filter_ext_in. intros x Hx.
  specialize (H x Hx).
  destruct (Set_has b x) eqn:E, (Set_has b' x) eqn:E'; try reflexivity.
  - apply Set_has_In in E. apply Set_has_false in E'. tauto.
  - apply Set_has_false in E. apply Set_has_In in E'. tauto.
Qed.

End Sets.

(** ** Values *)

Lemma int_value_eqb (a b : Z) : value_eqb (int_value a) (int_value b) = (a =? b).
Proof.
  unfold value_eqb, int_value, Qeq_bool, inject_Z. simpl.
  now rewrite !Z.mul_1_r.
Qed.

Lemma int_value_leb (a b : Z) : value_leb (int_value a) (int_value b) = (a <=? b).
Proof.
  unfold value_leb, int_value, Qle_bool, inject_Z. simpl.
  now rewrite !Z.mul_1_r.
Qed.

Lemma text_value_eqb (s t : string) : value_eqb (VText s) (VText t) = true <-> s = t.
Proof. simpl. apply String.eqb_eq. Qed.

Lemma member_int_values (x : Z) (s : list Z) :
  existsb (value_eqb (int_value x)) (map int_value s) = Set_has s x.
Proof.
  unfold Set_has. induction s as [| y s IH]; cbn [existsb map]; [reflexivity |].
  now rewrite int_value_eqb, IH.
Qed.

Lemma member_text_values (x : string) (l : list string) :
  existsb (value_eqb (VText x)) (map VText l) = true <-> In x l.
Proof.
  induction l as [| y l IH]; cbn [existsb map In].
  - split; [discriminate | tauto].
  - rewrite orb_true_iff, IH, text_value_eqb. split; intros [H | H]; auto.
Qed.

(** ** [ORDER BY oierdb_score DESC] *)

Section Ordering.

Lemma insert_desc_perm (o : OIer) (l : list OIer) :
  Permutation (insert_desc o l) (o :: l).
Proof.
  induction l as [| x xs IH]; simpl; [reflexivity |].
  destruct (Qle_bool (oierdb_score x) (oierdb_score o)); [reflexivity |].
  rewrite IH. apply perm_swap.
Qed.

Lemma order_by_score_desc_perm (l : list OIer) :
  Permutation (order_by_score_desc l) l.
Proof.
  induction l as [| o l IH]; simpl; [reflexivity |].
  rewrite insert_desc_perm. now constructor.
Qed.

Lemma order_by_score_desc_In (l : list OIer) (o : OIer) :
  In o (order_by_score_desc l) <-> In o l.
Proof.
  split; apply Permutation_in;
    [| symmetry]; apply order_by_score_desc_perm.
Qed.

Lemma insert_desc_sorted (o : OIer) (l : list OIer) :
  StronglySorted score_desc l -> StronglySorted score_desc (insert_desc o l).
Proof.
  induction l as [| x xs IH]; intros H; simpl.
  - repeat constructor.
  - inversion H as [| ? ? Hxs Hall]; subst.
    destruct (Qle_bool (oierdb_score x) (oierdb_score o)) eqn:E.
    + apply Qle_bool_iff in E. constructor; [assumption |].
      constructor; [exact E |].
      eapply Forall_impl; [| exact Hall].
      intros y Hy. unfold score_desc in *. now apply Qle_trans with (oierdb_score x).
    + assert (Hox : score_desc x o).
      { unfold score_desc. destruct (Qlt_le_dec (oierdb_score o) (oierdb_score x)) as [L | L].
        - now apply Qlt_le_weak.
        - apply Qle_bool_iff in L. congruence. }
      constructor; [now apply IH |].
      apply Forall_forall. intros y Hy.
      apply (Permutation_in _ (insert_desc_perm o xs)) in Hy.
      destruct Hy as [<- | Hy]; [assumption |].
      rewrite Forall_forall in Hall. now apply Hall.
Qed.

Lemma order_by_score_desc_sorted (l : list OIer) :
  StronglySorted score_desc (order_by_score_desc l).
Proof.
  induction l as [| o l IH]; simpl; [constructor |].
  now apply insert_desc_sorted.
Qed.

End Ordering.

(** ** The statements on an initialised store *)

Lemma run_SelectOIersInOrdered_spec (d : Database) (s : list Z) :
  run_SelectOIersInOrdered d s =
  order_by_score_desc (filter (fun o => Set_has s (uid o)) (OIer_table d)).
Proof.
  unfold run_SelectOIersInOrdered. f_equal. apply filter_ext.
  intros o. apply member_int_values.
Qed.

Lemma run_SelectOIersInOrdered_ext (d : Database) (s t : list Z) :
  (forall x, In x s <-> In x t) ->
  run_SelectOIersInOrdered d s = run_SelectOIersInOrdered d t.
Proof.
  intros H. rewrite !run_SelectOIersInOrdered_spec. f_equal.
  apply filter_ext. intros o.
  destruct (Set_has s (uid o)) eqn:E, (Set_has t (uid o)) eqn:E'; try reflexivity.
  - apply Set_has_In, H, Set_has_In in E. congruence.
  - apply Set_has_In, H, Set_has_In in E'. congruence.
Qed.

Lemma where_holds_app {col} (get : col -> value) (ks ks' : list (condition col)) :
  where_holds get (ks ++ ks') = where_holds get ks && where_holds get ks'.
Proof. apply forallb_app. Qed.

(** A scoped lookup returns the matching identifiers that are candidates. *)
Lemma run_scoped_In (d : Database) (ks : list (condition join_column)) (s : list Z) (x : Z) :
  In x (run_SelectDistinctOierUid d (ks ++ [Member col_r_oier_uid (map int_value s)])) <->
  In x (run_SelectDistinctOierUid d ks) /\ In x s.
Proof.
  unfold run_SelectDistinctOierUid. rewrite !distinct_In, !in_map_iff. split.
  - intros [rc [<- H]]. apply filter_In in H. destruct H as [Hin H].
    rewrite where_holds_app, andb_true_iff in H. destruct H as [H1 H2].
    split.
    + exists rc. split; [reflexivity |]. apply filter_In. now split.
    + unfold where_holds in H2. cbn [forallb holds join_value] in H2.
      rewrite andb_true_r, member_int_values in H2. now apply Set_has_In.
  - intros [[rc [<- H]] Hs]. apply filter_In in H. destruct H as [Hin H].
    exists rc. split; [reflexivity |]. apply filter_In. split; [assumption |].
    rewrite where_holds_app, H. unfold where_holds. cbn [forallb holds join_value andb].
    rewrite andb_true_r, member_int_values. now apply Set_has_In.
Qed.

(** ** The sample store *)

Lemma scenario_db_safe : safe_identifiers scenario_db.
Proof.
  split; repeat constructor; cbn; unfold MAX_SAFE_INTEGER; lia.
Qed.

(** ** One iteration on an initialised store *)

(** The conditions appended by [scope_conditions], as a function of the
    loop variables. *)
Lemma scope_conditions_run (st : state) :
  mode_tracks_size st ->
  scope_conditions st = ret (scope_of st).
Proof.
  unfold mode_tracks_size, scope_conditions, scope_of. intros H.
  destruct (enumerationMode st) eqn:Em.
  - destruct (candidateUids st) as [[| x s] |]; simpl in *; [reflexivity .. | discriminate].
  - destruct (candidateUids st) as [[| x s] |]; reflexivity.
Qed.

(** Whatever the scope, the candidates left by an iteration are those of
    [narrowed_by]. *)
Lemma narrowed_by_scoped (d : Database) (st : state) (c : RecordConstraint) :
  match candidateUids st with
  | Some s =>
      Set_intersect s (Set_of (run_SelectDistinctOierUid d (whereClause_of c ++ scope_of st)))
  | None => Set_of (run_SelectDistinctOierUid d (whereClause_of c ++ scope_of st))
  end = narrowed_by d (candidateUids st) c.
Proof.
  unfold narrowed_by, matching, scope_of.
  destruct (candidateUids st) as [[| x s] |]; rewrite ?app_nil_r; try reflexivity.
  destruct (enumerationMode st); rewrite ?app_nil_r; [| reflexivity].
  apply Set_intersect_ext. intros y Hy.
  rewrite !Set_of_In, run_scoped_In. tauto.
Qed.

(** The switch of the mode keeps it equal to "non-null and below the
    threshold". *)
Lemma switched_mode (st : state) (s' : list Z) :
  mode_tracks_size st ->
  (forall s, candidateUids st = Some s -> (List.length s' <= List.length s)%nat) ->
  (if negb (enumerationMode st) && (List.length s' <? ENUMERATE_THRESHOLD)%nat
   then true else enumerationMode st) = initial_mode (Some s').
Proof.
  unfold mode_tracks_size. intros Hinv Hle. cbn [initial_mode].
  destruct (enumerationMode st) eqn:Em; cbn [negb andb].
  - destruct (candidateUids st) as [s |] eqn:Ec; [| discriminate].
    cbn [initial_mode] in Hinv. symmetry in Hinv. apply Nat.ltb_lt in Hinv.
    symmetry. apply Nat.ltb_lt. specialize (Hle s eq_refl). lia.
  - now destruct (List.length s' <? ENUMERATE_THRESHOLD)%nat.
Qed.

Lemma narrow_step_run (d : Database) (st : state) (c : RecordConstraint) :
  mode_tracks_size st ->
  narrow_step (Some d) st c =
    ([lookup_of st c],
     if accepted (lookup_of st c) then inr (next_state d st c) else inl too_many_variables).
Proof.
  intros Hinv. unfold narrow_step. rewrite (scope_conditions_run Hinv).
  unfold select_distinct_oier_uid, db_call, lookup_of.
  unfold bind at 1. unfold ret at 1. cbn [app].
  destruct (accepted (SelectDistinctOierUid (whereClause_of c ++ scope_of st))); [| reflexivity].
  unfold bind, ret. cbn [app]. f_equal. f_equal.
  unfold next_state. rewrite (narrowed_by_scoped d st c). f_equal.
  apply switched_mode; [exact Hinv |].
  intros s Es. rewrite Es. apply Set_intersect_length.
Qed.

Lemma next_state_tracks (d : Database) (st : state) (c : RecordConstraint) :
  mode_tracks_size (next_state d st c).
Proof. reflexivity. Qed.

(** The mode never goes back off. *)
Lemma next_state_keeps_mode (d : Database) (st : state) (c : RecordConstraint) :
  mode_tracks_size st ->
  enumerationMode st = true ->
  enumerationMode (next_state d st c) = true.
Proof.
  unfold mode_tracks_size. intros Hinv Em. rewrite Em in Hinv.
  destruct (candidateUids st) as [s |] eqn:Ec; [| discriminate].
  cbn [initial_mode] in Hinv. symmetry in Hinv. apply Nat.ltb_lt in Hinv.
  unfold next_state. cbn [enumerationMode initial_mode]. rewrite Ec. cbn [narrowed_by].
  apply Nat.ltb_lt. pose proof (Set_intersect_length s (matching d c)). lia.
Qed.

(** ** The limit on bound values *)

Section Limit.

Lemma where_values_app {col} (a b : list (condition col)) :
  where_values (a ++ b) = (where_values a ++ where_values b)%list.
Proof. apply flat_map_app. Qed.

(** The conjunct ["1=1"] binds nothing. *)
Lemma where_values_clause (c : RecordConstraint) :
  where_values (whereClause_of c) = snd (buildWhereClauseAndValues c).
Proof.
  unfold whereClause_of, buildWhereClauseAndValues. cbn [snd].
  now destruct (conditions_of c).
Qed.

(** A scope binds fewer than [ENUMERATE_THRESHOLD] identifiers. *)
Lemma scope_of_length (st : state) :
  mode_tracks_size st ->
  (List.length (where_values (scope_of st)) < ENUMERATE_THRESHOLD)%nat.
Proof.
  unfold mode_tracks_size, scope_of. intros Hinv.
  destruct (candidateUids st) as [[| x s] |]; try (cbn; unfold ENUMERATE_THRESHOLD; lia).
  destruct (enumerationMode st); [| cbn; unfold ENUMERATE_THRESHOLD; lia].
  cbn [initial_mode] in Hinv. symmetry in Hinv. apply Nat.ltb_lt in Hinv.
  cbn [where_values flat_map condition_values]. now rewrite app_nil_r, length_map.
Qed.

Lemma lookup_values_length (st : state) (c : RecordConstraint) :
  List.length (sql_values (lookup_of st c)) =
  (List.length (snd (buildWhereClauseAndValues c)) +
   List.length (where_values (scope_of st)))%nat.
Proof.
  unfold lookup_of. cbn [sql_values].
  now rewrite where_values_app, length_app, where_values_clause.
Qed.

Lemma accepted_in_range (st : state) (c : RecordConstraint) :
  mode_tracks_size st ->
  constraint_in_range c ->
  accepted (lookup_of st c) = true.
Proof.
  intros Hinv Hc. unfold accepted. rewrite lookup_values_length.
  pose proof (scope_of_length Hinv) as Hs.
  unfold constraint_in_range, SQLITE_MAX_VARIABLE_NUMBER, ENUMERATE_THRESHOLD in *.
  apply N.leb_le. lia.
Qed.

(** The final fetch binds one value for each candidate, and an unscoped
    record lookup the values of its constraint. *)
Lemma fetch_accepted (s : list Z) :
  accepted (SelectOIersInOrdered s) = (N.of_nat (List.length s) <=? 32766)%N.
Proof. unfold accepted. cbn [sql_values]. now rewrite length_map. Qed.

Lemma unscoped_accepted (c : RecordConstraint) :
  accepted (SelectDistinctOierUid (whereClause_of c)) =
  (N.of_nat (List.length (snd (buildWhereClauseAndValues c))) <=? 32766)%N.
Proof. unfold accepted. cbn [sql_values]. now rewrite where_values_clause. Qed.

(** The base lookup binds at most four values. *)
Lemma oierConditions_values (Y : Z) (config : QueryConfig) :
  (List.length (where_values (oierConditions Y config)) <= 4)%nat.
Proof.
  unfold oierConditions, enroll_conditions, grade_conditions.
  destruct (enroll_year_range config) as [[[a |] [b |]] |],
           (grade_range config) as [[[a' |] [b' |]] |]; cbn; lia.
Qed.

Lemma base_lookup_accepted (Y : Z) (config : QueryConfig) :
  accepted (SelectUidFromOIer (oierConditions Y config)) = true.
Proof.
  unfold accepted. cbn [sql_values]. pose proof (oierConditions_values Y config).
  unfold SQLITE_MAX_VARIABLE_NUMBER. apply N.leb_le. lia.
Qed.

End Limit.

(** ** The loop on an initialised store *)

Section Loop.

Variable d : Database.

Lemma narrowed_by_all_empty (rs : list RecordConstraint) :
  narrowed_by_all d (Some []) rs = Some [].
Proof. induction rs as [| c rs IH]; simpl; [reflexivity | exact IH]. Qed.

Lemma narrowed_by_all_Some (rs : list RecordConstraint) (s : list Z) :
  exists s', narrowed_by_all d (Some s) rs = Some s' /\ incl s' s.
Proof.
  revert s. induction rs as [| c rs IH]; intros s; simpl.
  - exists s. split; [reflexivity | apply incl_refl].
  - destruct (IH (Set_intersect s (matching d c))) as [s' [E I]].
    exists s'. split; [exact E |].
    eapply incl_tran; [exact I | apply Set_intersect_incl].
Qed.

Lemma breaks_true (st : state) :
  breaks st = true <-> candidateUids st = Some [].
Proof.
  unfold breaks. destruct (candidateUids st) as [[| x s] |]; simpl;
    split; congruence.
Qed.

(** Every executed iteration behaves as [narrow_step_run] says. *)
Lemma iterations_sound (rs : list RecordConstraint) (st : state) :
  mode_tracks_size st ->
  Forall (sound_iteration d) (iterations (Some d) st rs).
Proof.
  revert st. induction rs as [| c rs IH]; intros st Hinv; [constructor |].
  cbn [iterations]. rewrite (narrow_step_run d c Hinv).
  constructor.
  - split; [exact Hinv | reflexivity].
  - destruct (accepted (lookup_of st c)); [| constructor].
    destruct (breaks (next_state d st c)); [constructor |].
    apply IH, next_state_tracks.
Qed.

(** What a sound iteration leaves. *)
Lemma sound_iteration_outcome (it : iteration) :
  sound_iteration d it ->
  fst (outcome it) = [lookup_of (before it) (processed it)] /\
  ((accepted (lookup_of (before it) (processed it)) = true /\
    snd (outcome it) = inr (next_state d (before it) (processed it)) /\
    candidates_after it =
      Some (narrowed_by d (candidateUids (before it)) (processed it)) /\
    mode_after it =
      initial_mode (Some (narrowed_by d (candidateUids (before it)) (processed it))) /\
    ~ refused it) \/
   (accepted (lookup_of (before it) (processed it)) = false /\
    refused it /\ candidates_after it = None /\ mode_after it = false)).
Proof.
  intros [_ E]. unfold candidates_after, mode_after, refused. rewrite E. cbn [fst snd].
  split; [reflexivity |].
  destruct (accepted (lookup_of (before it) (processed it))).
  - left. repeat split; try reflexivity. discriminate.
  - right. repeat split; reflexivity.
Qed.

(** The iterations after a given one are those of the loop restarted from
    the state that one left. *)
Lemma iterations_split db (rs : list RecordConstraint) (st : state) h1 it h2 :
  iterations db st rs = (h1 ++ it :: h2)%list ->
  exists rest, iterations db (before it) (processed it :: rest) = it :: h2.
Proof.
  revert st rs. induction h1 as [| it0 h1 IH]; intros st rs E.
  - destruct rs as [| c rs]; [discriminate |]. simpl in E.
    injection E as E1 E2. exists rs. subst it. simpl. now rewrite E2.
  - destruct rs as [| c rs]; [discriminate |]. simpl in E.
    injection E as E1 E2.
    destruct (narrow_step db st c) as [log [e | st']]; [now destruct h1 |].
    destruct (breaks st'); [now destruct h1 |].
    now apply IH in E2.
Qed.

Lemma iterations_rest db (st : state) (c : RecordConstraint) rest it h2 :
  iterations db st (c :: rest) = it :: h2 ->
  before it = st /\ processed it = c /\ outcome it = narrow_step db st c /\
  h2 = match narrow_step db st c with
       | (_, inr st') => if breaks st' then [] else iterations db st' rest
       | (_, inl _) => []
       end.
Proof. simpl. intros E. injection E as <- <-. auto. Qed.

(** The log of the loop is that of its iterations; the loop throws when the
    store refuses a lookup, and otherwise returns with the candidates of
    [narrowed_by_all]. *)
Lemma narrow_loop_run (rs : list RecordConstraint) (st : state) :
  mode_tracks_size st ->
  fst (narrow_loop (Some d) st rs) = lookups (iterations (Some d) st rs) /\
  if forallb accepted (lookups (iterations (Some d) st rs))
  then exists st',
         snd (narrow_loop (Some d) st rs) = inr st' /\
         candidateUids st' = narrowed_by_all d (candidateUids st) rs /\
         mode_tracks_size st'
  else snd (narrow_loop (Some d) st rs) = inl too_many_variables.
Proof.
  revert st. induction rs as [| c rs IH]; intros st Hinv.
  - cbn. split; [reflexivity |]. exists st. auto.
  - cbn [narrow_loop iterations]. rewrite (narrow_step_run d c Hinv). unfold bind.
    unfold lookups. cbn [flat_map outcome fst app forallb].
    destruct (accepted (lookup_of st c)) eqn:A; cbn [andb].
    + destruct (breaks (next_state d st c)) eqn:B.
      * cbn. split; [reflexivity |]. exists (next_state d st c).
        split; [reflexivity |]. split; [| apply next_state_tracks].
        apply breaks_true in B.
        cbn [next_state candidateUids] in B. injection B as B. rewrite B.
        rewrite narrowed_by_all_empty. cbn [next_state candidateUids]. now rewrite B.
      * destruct (IH (next_state d st c) (next_state_tracks d st c)) as [El Er].
        fold (lookups (iterations (Some d) (next_state d st c) rs)).
        destruct (narrow_loop (Some d) (next_state d st c) rs) as [log r].
        cbn [fst snd] in *. rewrite El. split; [reflexivity |].
        destruct (forallb accepted (lookups (iterations (Some d) (next_state d st c) rs))).
        -- destruct Er as [st' [E [Hc Hinv']]]. exists st'. auto.
        -- exact Er.
    + cbn. split; reflexivity.
Qed.

(** No lookup is refused when every constraint is in range. *)
Lemma iterations_in_range (rs : list RecordConstraint) (st : state) :
  mode_tracks_size st ->
  Forall constraint_in_range rs ->
  forallb accepted (lookups (iterations (Some d) st rs)) = true.
Proof.
  revert st. induction rs as [| c rs IH]; intros st Hinv H; [reflexivity |].
  inversion H as [| ? ? Hc Hrs]; subst.
  cbn [iterations]. rewrite (narrow_step_run d c Hinv).
  unfold lookups. cbn [flat_map outcome fst app forallb].
  rewrite (accepted_in_range Hinv Hc). cbn [andb].
  destruct (breaks (next_state d st c)); [reflexivity |].
  apply IH; [apply next_state_tracks | exact Hrs].
Qed.

(** Candidates only shrink: what an iteration leaves is in the set it was
    entered with and in the set the loop was entered with, and contains what
    is left after all the constraints. *)
Lemma iterations_shrink (rs : list RecordConstraint) (st : state) :
  mode_tracks_size st ->
  Forall (fun it =>
            forall sa, candidates_after it = Some sa ->
              (exists sf, narrowed_by_all d (candidateUids st) rs = Some sf /\ incl sf sa) /\
              (forall s, candidateUids (before it) = Some s -> incl sa s) /\
              (forall s, candidateUids st = Some s -> incl sa s))
         (iterations (Some d) st rs).
Proof.
  revert st. induction rs as [| c rs IH]; intros st Hinv; [constructor |].
  cbn [iterations narrowed_by_all]. rewrite (narrow_step_run d c Hinv).
  destruct (narrowed_by_all_Some rs (narrowed_by d (candidateUids st) c)) as [sf [Ef If]].
  assert (Hfirst : forall s, candidateUids st = Some s ->
                             incl (narrowed_by d (candidateUids st) c) s).
  { intros s Es. rewrite Es. apply Set_intersect_incl. }
  constructor.
  - intros sa. unfold candidates_after. cbn [before outcome].
    destruct (accepted (lookup_of st c)); [| discriminate].
    cbn [next_state candidateUids]. intros [= <-].
    split; [exists sf; auto | auto].
  - destruct (accepted (lookup_of st c)); [| constructor].
    destruct (breaks (next_state d st c)); [constructor |].
    specialize (IH _ (next_state_tracks d st c)). cbn [next_state candidateUids] in IH.
    eapply Forall_impl; [| exact IH].
    intros it Hit sa Ea. destruct (Hit sa Ea) as [Hf [I2 I3]].
    split; [exact Hf |]. split; [exact I2 |].
    intros s Es. eapply incl_tran; [apply I3; reflexivity | now apply Hfirst].
Qed.

(** From a state with the mode on and a non-empty candidate set, every
    iteration is entered with the mode on and hands a scoped lookup to the
    store, and leaves the mode on unless the store refuses the lookup. *)
Lemma iterations_scoped (rs : list RecordConstraint) (st : state) :
  mode_tracks_size st ->
  enumerationMode st = true ->
  candidateUids st <> Some [] ->
  Forall (fun it => enumerationMode (before it) = true /\ scoped_lookup it /\
                    (refused it \/ mode_after it = true))
         (iterations (Some d) st rs).
Proof.
  revert st. induction rs as [| c rs IH]; intros st Hinv Hm Hne; [constructor |].
  cbn [iterations]. rewrite (narrow_step_run d c Hinv). constructor.
  - cbn [before]. split; [exact Hm |]. split.
    + unfold scoped_lookup. cbn [before processed outcome fst].
      unfold lookup_of, scope_of.
      unfold mode_tracks_size in Hinv. rewrite Hm in Hinv.
      destruct (candidateUids st) as [[| x s] |]; [congruence | | discriminate].
      exists (x :: s). now rewrite Hm.
    + unfold refused, mode_after. cbn [outcome snd].
      destruct (accepted (lookup_of st c)); [right | left; reflexivity].
      now apply next_state_keeps_mode.
  - destruct (accepted (lookup_of st c)); [| constructor].
    destruct (breaks (next_state d st c)) eqn:B; [constructor |].
    apply IH; [apply next_state_tracks | now apply next_state_keeps_mode |].
    intros Hs. apply breaks_true in Hs. congruence.
Qed.

End Loop.

(** ** The whole of [findOiers] on an initialised store *)

Section Evaluation.

Variable d : Database.
Variable currentYear : Z.

Lemma initial_state_run (config : QueryConfig) :
  let ks := oierConditions currentYear config in
  exists st0,
    initial_state (Some d) currentYear config =
      (match ks with [] => [] | _ => [SelectUidFromOIer ks] end, inr st0) /\
    mode_tracks_size st0 /\
    candidateUids st0 =
      match ks with
      | [] => None
      | _ => Some (Set_of (run_SelectUidFromOIer d ks))
      end.
Proof.
  intros ks. unfold initial_state, base_filter, select_uid_from_oier, db_call.
  rewrite (base_lookup_accepted currentYear config). fold ks.
  destruct ks as [| k ks']; cbn.
  - eexists. split; [reflexivity |]. split; reflexivity.
  - eexists. split; [reflexivity |]. split; reflexivity.
Qed.

(** The structure of a run: the base lookup, the lookups of the executed
    iterations and, unless one of them is refused, stage 3. *)
Lemma findOiers_run (config : QueryConfig) :
  let ks := oierConditions currentYear config in
  let rs := recordConstraints config in
  exists log0 st0,
    initial_state (Some d) currentYear config = (log0, inr st0) /\
    mode_tracks_size st0 /\
    let its := iterations (Some d) st0 rs in
    if forallb accepted (lookups its)
    then exists st,
           narrowed (Some d) currentYear config = ((log0 ++ lookups its)%list, inr st) /\
           candidateUids st = narrowed_by_all d (candidateUids st0) rs /\
           findOiers (Some d) currentYear config =
             ((log0 ++ lookups its) ++ fst (materialize (Some d) ks rs (candidateUids st)),
              snd (materialize (Some d) ks rs (candidateUids st)))%list
    else narrowed (Some d) currentYear config =
           ((log0 ++ lookups its)%list, inl too_many_variables) /\
         findOiers (Some d) currentYear config =
           ((log0 ++ lookups its)%list, inl too_many_variables).
Proof.
  intros ks rs.
  destruct (initial_state_run config) as [st0 [E0 [Hinv Hc0]]].
  eexists _, st0. split; [exact E0 |]. split; [exact Hinv |]. cbv zeta.
  destruct (narrow_loop_run d rs Hinv) as [El Er].
  unfold findOiers, narrowed. rewrite E0. unfold bind. fold rs ks.
  destruct (narrow_loop (Some d) st0 rs) as [log r]. cbn [fst snd] in El, Er. subst log.
  destruct (forallb accepted (lookups (iterations (Some d) st0 rs))).
  - destruct Er as [st [-> [Hc _]]]. exists st. split; [reflexivity |].
    split; [exact Hc |].
    now destruct (materialize (Some d) ks rs (candidateUids st)).
  - subst r. split; reflexivity.
Qed.

(** The base lookup is never refused. *)
Lemma base_log_accepted (config : QueryConfig) (st0 : state) (log0 : list query) :
  initial_state (Some d) currentYear config = (log0, inr st0) ->
  forallb accepted log0 = true.
Proof.
  intros E0. destruct (initial_state_run config) as [st1 [E1 _]].
  rewrite E0 in E1. injection E1 as -> _.
  destruct (oierConditions currentYear config) eqn:Ek; [reflexivity |].
  cbn [forallb]. rewrite <- Ek, base_lookup_accepted. reflexivity.
Qed.

End Evaluation.

(** ** Stage 3 on an initialised store *)

Section Fetch.

Variable d : Database.

Lemma materialize_empty (db : option Database) ks rs :
  materialize db ks rs (Some []) = ([], inr []).
Proof. destruct ks, rs; reflexivity. Qed.

Lemma lookups_app (a b : list iteration) : lookups (a ++ b) = (lookups a ++ lookups b)%list.
Proof. apply flat_map_app. Qed.

Lemma table_rows_objects (l : list OIer) : table_rows (map ObjectRow l) = ret l.
Proof.
  induction l as [| o l IH]; cbn [map table_rows table_row]; [reflexivity |].
  rewrite IH. reflexivity.
Qed.

(** Stage 3 with candidates left: one statement binds every candidate, and
    the store refuses it when there are too many. *)
Lemma materialize_candidates ks (rs : list RecordConstraint) (x : Z) (s : list Z) :
  materialize (Some d) ks rs (Some (x :: s)) =
    ([SelectOIersInOrdered (x :: s)],
     if accepted (SelectOIersInOrdered (x :: s))
     then inr (map ObjectRow (run_SelectOIersInOrdered d (x :: s)))
     else inl too_many_variables).
Proof.
  assert (E : materialize (Some d) ks rs (Some (x :: s)) =
              (rows <- select_oiers_in (Some d) (x :: s) ;; ret (map ObjectRow rows)))
    by (destruct ks, rs; reflexivity).
  rewrite E. unfold select_oiers_in, db_call.
  destruct (accepted (SelectOIersInOrdered (x :: s))); reflexivity.
Qed.

(** Stage 3 of a constrained query: nothing is fetched for no candidate. *)
Lemma materialize_filtered ks (rs : list RecordConstraint) (cands : option (list Z)) :
  ks <> [] \/ rs <> [] ->
  materialize (Some d) ks rs cands =
  match cands with
  | Some (x :: s) =>
      ([SelectOIersInOrdered (x :: s)],
       if accepted (SelectOIersInOrdered (x :: s))
       then inr (map ObjectRow (run_SelectOIersInOrdered d (x :: s)))
       else inl too_many_variables)
  | _ => ([], inr [])
  end.
Proof.
  intros H. destruct cands as [[| x s] |].
  - apply materialize_empty.
  - apply materialize_candidates.
  - destruct ks, rs; try reflexivity. destruct H; congruence.
Qed.

(** Stage 3 throws exactly when its statement is refused. *)
Lemma materialize_outcome ks (rs : list RecordConstraint) (cands : option (list Z)) :
  if forallb accepted (fst (materialize (Some d) ks rs cands))
  then exists rows, snd (materialize (Some d) ks rs cands) = inr rows
  else snd (materialize (Some d) ks rs cands) = inl too_many_variables.
Proof.
  destruct cands as [[| x s] |].
  - rewrite materialize_empty. cbn. eexists. reflexivity.
  - rewrite materialize_candidates. cbn [fst snd forallb].
    destruct (accepted (SelectOIersInOrdered (x :: s))); cbn [andb];
      [eexists; reflexivity | reflexivity].
  - destruct ks, rs; cbn; eexists; reflexivity.
Qed.

Variable currentYear : Z.

(** A run in which the store refused nothing returns. *)
Lemma findOiers_unrefused (config : QueryConfig) :
  unrefused (findOiers (Some d) currentYear config) ->
  let ks := oierConditions currentYear config in
  let rs := recordConstraints config in
  exists log0 st0 st rows,
    initial_state (Some d) currentYear config = (log0, inr st0) /\
    mode_tracks_size st0 /\
    narrowed (Some d) currentYear config =
      ((log0 ++ lookups (iterations (Some d) st0 rs))%list, inr st) /\
    candidateUids st = narrowed_by_all d (candidateUids st0) rs /\
    materialize (Some d) ks rs (candidateUids st) =
      (fst (materialize (Some d) ks rs (candidateUids st)), inr rows) /\
    findOiers (Some d) currentYear config =
      ((log0 ++ lookups (iterations (Some d) st0 rs)) ++
       fst (materialize (Some d) ks rs (candidateUids st)), inr rows)%list.
Proof.
  intros U ks rs. unfold unrefused in U.
  destruct (findOiers_run d currentYear config) as [log0 [st0 [E0 [Hinv H]]]].
  cbv zeta in H. fold rs ks in H.
  destruct (forallb accepted (lookups (iterations (Some d) st0 rs))) eqn:A.
  - destruct H as [st [En [Hc Ef]]]. rewrite Ef in U. cbn [fst] in U.
    rewrite forallb_app in U. apply andb_true_iff in U. destruct U as [_ U].
    pose proof (materialize_outcome ks rs (candidateUids st)) as M. rewrite U in M.
    destruct M as [rows M]. exists log0, st0, st, rows.
    split; [exact E0 |]. split; [exact Hinv |]. split; [exact En |]. split; [exact Hc |].
    split.
    + destruct (materialize (Some d) ks rs (candidateUids st)) as [f r].
      cbn [fst snd] in *. now subst r.
    + now rewrite Ef, M.
  - destruct H as [_ Ef]. rewrite Ef in U. cbn [fst] in U.
    rewrite forallb_app, A, andb_false_r in U. discriminate.
Qed.

(** A run in which the store refused a statement throws its error. *)
Lemma findOiers_refused (config : QueryConfig) :
  forallb accepted (fst (findOiers (Some d) currentYear config)) = false ->
  snd (findOiers (Some d) currentYear config) = inl too_many_variables.
Proof.
  intros U.
  destruct (findOiers_run d currentYear config) as [log0 [st0 [E0 [Hinv H]]]].
  cbv zeta in H.
  destruct (forallb accepted
              (lookups (iterations (Some d) st0 (recordConstraints config)))) eqn:A.
  - destruct H as [st [En [Hc Ef]]]. rewrite Ef in U |- *. cbn [fst snd] in *.
    rewrite !forallb_app, A, (base_log_accepted d currentYear config E0) in U.
    cbn [andb] in U.
    pose proof (materialize_outcome (oierConditions currentYear config)
                  (recordConstraints config) (candidateUids st)) as M.
    now rewrite U in M.
  - destruct H as [_ Ef]. now rewrite Ef.
Qed.

(** A narrowing in which the store refused nothing returns. *)
Lemma narrowed_unrefused (config : QueryConfig) :
  unrefused (narrowed (Some d) currentYear config) ->
  let ks := oierConditions currentYear config in
  let rs := recordConstraints config in
  exists log0 st0 st,
    initial_state (Some d) currentYear config = (log0, inr st0) /\
    mode_tracks_size st0 /\
    narrowed (Some d) currentYear config =
      ((log0 ++ lookups (iterations (Some d) st0 rs))%list, inr st) /\
    candidateUids st = narrowed_by_all d (candidateUids st0) rs /\
    findOiers (Some d) currentYear config =
      ((log0 ++ lookups (iterations (Some d) st0 rs)) ++
       fst (materialize (Some d) ks rs (candidateUids st)),
       snd (materialize (Some d) ks rs (candidateUids st)))%list.
Proof.
  intros U ks rs. unfold unrefused in U.
  destruct (findOiers_run d currentYear config) as [log0 [st0 [E0 [Hinv H]]]].
  cbv zeta in H. fold rs ks in H.
  destruct (forallb accepted (lookups (iterations (Some d) st0 rs))) eqn:A.
  - destruct H as [st [En [Hc Ef]]]. exists log0, st0, st. auto.
  - destruct H as [En _]. rewrite En in U. cbn [fst] in U.
    rewrite forallb_app, A, andb_false_r in U. discriminate.
Qed.

(** A run that returns was refused nothing. *)
Lemma findOiers_returned (config : QueryConfig) (log : list query) (rows : list row) :
  findOiers (Some d) currentYear config = (log, inr rows) ->
  unrefused (findOiers (Some d) currentYear config).
Proof.
  intros E. unfold unrefused.
  destruct (forallb accepted (fst (findOiers (Some d) currentYear config))) eqn:A;
    [reflexivity |].
  apply findOiers_refused in A. rewrite E in A. discriminate.
Qed.

End Fetch.

(** ** C2: the unfiltered query *)

(** C2.  For a configuration with no enrollment-year bound, no grade bound
    and no record constraint, [findOiers] sends the single statement
    [SELECT * FROM OIer ORDER BY oierdb_score DESC] and returns every row of
    [OIer], each exactly once, by non-increasing [oierdb_score]. *)
Theorem unfiltered_returns_all_sorted (d : Database) (currentYear : Z) (config : QueryConfig) :
  unbounded (enroll_year_range config) ->
  unbounded (grade_range config) ->
  recordConstraints config = [] ->
  exists rows,
    findOiers (Some d) currentYear config = ([SelectAllOIersOrdered], inr rows) /\
    Permutation (map row_oier rows) (OIer_table d) /\
    StronglySorted score_desc (map row_oier rows).
Proof.
  intros He Hg Hr.
  exists (map ValuesRow (order_by_score_desc (OIer_table d))).
  assert (Hrows : map row_oier (map ValuesRow (order_by_score_desc (OIer_table d))) =
                  order_by_score_desc (OIer_table d)).
  { rewrite map_map. apply map_id. }
  rewrite Hrows. split; [| split].
  - unfold findOiers, narrowed, initial_state, base_filter, oierConditions,
      enroll_conditions, grade_conditions.
    rewrite Hr.
    destruct He as [-> | ->], Hg as [-> | ->]; reflexivity.
  - apply order_by_score_desc_perm.
  - apply order_by_score_desc_sorted.
Qed.

Lemma unfiltered_returns_all_sorted_witness :
  exists rows,
    findOiers (Some scenario_db) 2024 empty_config = ([SelectAllOIersOrdered], inr rows) /\
    Permutation (map row_oier rows) (OIer_table scenario_db) /\
    StronglySorted score_desc (map row_oier rows).
Proof.
  apply (@unfiltered_returns_all_sorted scenario_db 2024 empty_config).
  - left. reflexivity.
  - left. reflexivity.
  - reflexivity.
Defined.

(** ** The text and the values of a clause *)

Section ClauseText.

Lemma where_text_conjuncts {col} (cname : col -> string) (ks : list (condition col)) :
  where_text cname ks = String.concat " AND " (map fst (conjuncts cname ks)).
Proof. unfold where_text, conjuncts. now rewrite map_map. Qed.

Lemma where_values_conjuncts {col} (cname : col -> string) (ks : list (condition col)) :
  where_values ks = flat_map snd (conjuncts cname ks).
Proof.
  unfold where_values, conjuncts. induction ks as [| k ks IH]; [reflexivity |].
  cbn [flat_map map snd]. now rewrite IH.
Qed.

Lemma bound_conjuncts {col} (cname : col -> string) (column : col) (b : bounds value) :
  conjuncts cname (bound_conditions column b) = spec_bounds (cname column) b.
Proof. destruct b as [[lo |] [hi |]]; reflexivity. Qed.

Lemma placeholders_marks (n : nat) : placeholders (S n) = question_marks (S n).
Proof.
  unfold placeholders. induction n as [| n IH]; [reflexivity |].
  change (String.concat "," (repeat "?" (S (S n))))
    with ("?" ++ "," ++ String.concat "," (repeat "?" (S n)))%string.
  rewrite IH. reflexivity.
Qed.

Lemma member_conjuncts (column : join_column) (f : option (list string)) :
  conjuncts join_column_name (membership_conditions column f) =
  spec_member (join_column_name column) f.
Proof.
  destruct f as [[| v vs] |]; try reflexivity.
  unfold spec_member, membership_conditions.
  change (conjuncts join_column_name [Member column (map VText (v :: vs))])
    with [(join_column_name column ++ " IN (" ++
           placeholders (List.length (map VText (v :: vs))) ++ ")",
           map VText (v :: vs))].
  rewrite length_map. cbn [List.length]. now rewrite placeholders_marks.
Qed.

Lemma conjuncts_app {col} (cname : col -> string) (a b : list (condition col)) :
  conjuncts cname (a ++ b) = (conjuncts cname a ++ conjuncts cname b)%list.
Proof. apply map_app. Qed.

(** The conditions on the enrollment year, as the specification words
    them. *)
Lemma oierConditions_spec (Y : Z) (config : QueryConfig) :
  conjuncts oier_column_name (oierConditions Y config) = spec_base_predicate Y config.
Proof.
  unfold oierConditions, enroll_conditions, grade_conditions, spec_base_predicate,
    spec_grade_window, spec_min_enrollment, spec_max_enrollment.
  destruct (enroll_year_range config) as [[[a |] [b |]] |],
           (grade_range config) as [[[a' |] [b' |]] |]; reflexivity.
Qed.

Lemma base_lookup_text (Y : Z) (config : QueryConfig) :
  sql_text (SelectUidFromOIer (oierConditions Y config)) =
    "SELECT uid FROM OIer WHERE " ++
    String.concat " AND " (map fst (spec_base_predicate Y config)) /\
  sql_values (SelectUidFromOIer (oierConditions Y config)) =
    flat_map snd (spec_base_predicate Y config).
Proof.
  cbn [sql_text sql_values].
  rewrite (where_text_conjuncts oier_column_name),
    (where_values_conjuncts oier_column_name), oierConditions_spec.
  split; reflexivity.
Qed.

End ClauseText.

(** ** C3: grades are translated into enrollment years *)

Lemma bound_conditions_within {col} (get : col -> value) (column : col) (b : bounds Z) (x : Z) :
  get column = int_value x ->
  where_holds get (bound_conditions column (map_bounds int_value b)) = true <-> within b x.
Proof.
  intros Hget. destruct b as [[lo |] [hi |]];
    unfold where_holds, within; cbn [bound_conditions map_bounds option_map fst snd app forallb holds];
    rewrite ?Hget, ?int_value_leb, ?andb_true_r, ?andb_true_iff, ?Z.leb_le.
  - split.
    + intros [H1 H2]. split; intros ? [= <-]; assumption.
    + intros [H1 H2]. split; auto.
  - split.
    + intros H1. split; [intros ? [= <-]; assumption | discriminate].
    + intros [H1 _]. auto.
  - split.
    + intros H2. split; [discriminate | intros ? [= <-]; assumption].
    + intros [_ H2]. auto.
  - split; [intros _; split; discriminate | reflexivity].
Qed.

Lemma enroll_conditions_within (config : QueryConfig) (o : OIer) :
  where_holds (oier_value o) (enroll_conditions config) = true <->
  within (sides (enroll_year_range config)) (enroll_middle o).
Proof.
  unfold enroll_conditions, sides.
  destruct (enroll_year_range config) as [b |].
  - destruct (some_not_null b) eqn:E.
    + now apply bound_conditions_within.
    + destruct b as [[lo |] [hi |]]; try discriminate.
      split; [intros _; split; discriminate | reflexivity].
  - split; [intros _; split; discriminate | reflexivity].
Qed.

Lemma grade_conditions_window (currentYear : Z) (config : QueryConfig) :
  grade_conditions currentYear config =
  bound_conditions col_enroll_middle
    (map_bounds int_value (spec_grade_window currentYear (grade_range config))).
Proof.
  unfold grade_conditions, spec_grade_window, spec_min_enrollment, spec_max_enrollment.
  destruct (grade_range config) as [[[ming |] [maxg |]] |]; reflexivity.
Qed.

Lemma oierConditions_holds (Y : Z) (config : QueryConfig) (o : OIer) :
  where_holds (oier_value o) (oierConditions Y config) = true <->
  within (sides (enroll_year_range config)) (enroll_middle o) /\
  within (spec_grade_window Y (grade_range config)) (enroll_middle o).
Proof.
  unfold oierConditions.
  rewrite where_holds_app, andb_true_iff, enroll_conditions_within,
    grade_conditions_window.
  now rewrite (@bound_conditions_within _ (oier_value o) col_enroll_middle _
                 (enroll_middle o) eq_refl).
Qed.

Lemma base_lookup_In (d : Database) (Y : Z) (config : QueryConfig) (x : Z) :
  In x (run_SelectUidFromOIer d (oierConditions Y config)) <-> passes_base d Y config x.
Proof.
  unfold run_SelectUidFromOIer, passes_base. rewrite in_map_iff. split.
  - intros [o [Hu Ho]]. apply filter_In in Ho. destruct Ho as [Hin Hw].
    apply oierConditions_holds in Hw. exists o. tauto.
  - intros [o [Hin [Hu Hw]]]. exists o. split; [exact Hu |].
    apply filter_In. split; [exact Hin | now apply oierConditions_holds].
Qed.

(** There is a condition on the enrollment year exactly when some bound of
    [enroll_year_range] or [grade_range] is present. *)
Lemma oierConditions_nil (Y : Z) (config : QueryConfig) :
  oierConditions Y config = [] <->
  unbounded (enroll_year_range config) /\ unbounded (grade_range config).
Proof.
  unfold oierConditions, enroll_conditions, grade_conditions, unbounded.
  destruct (enroll_year_range config) as [[[a |] [b |]] |],
           (grade_range config) as [[[a' |] [b' |]] |]; cbn;
    split; try discriminate; auto;
    intros [[H | H] [H' | H']]; discriminate.
Qed.

(** The loop variables on entry, after a base lookup. *)
Lemma base_state (d : Database) (Y : Z) (config : QueryConfig) :
  oierConditions Y config <> [] ->
  base_filter (Some d) (oierConditions Y config) =
    ([SelectUidFromOIer (oierConditions Y config)],
     inr (Some (Set_of (run_SelectUidFromOIer d (oierConditions Y config))))) /\
  initial_state (Some d) Y config =
    ([SelectUidFromOIer (oierConditions Y config)],
     inr {| candidateUids :=
              Some (Set_of (run_SelectUidFromOIer d (oierConditions Y config)));
            enumerationMode :=
              initial_mode
                (Some (Set_of (run_SelectUidFromOIer d (oierConditions Y config)))) |}).
Proof.
  intros Hne.
  assert (Eb : base_filter (Some d) (oierConditions Y config) =
               ([SelectUidFromOIer (oierConditions Y config)],
                inr (Some (Set_of (run_SelectUidFromOIer d (oierConditions Y config)))))).
  { unfold base_filter, select_uid_from_oier, db_call.
    rewrite (base_lookup_accepted Y config).
    destruct (oierConditions Y config); [congruence | reflexivity]. }
  split; [exact Eb |]. unfold initial_state. now rewrite Eb.
Qed.

(** The rows that a run returns after a base lookup have their identifier in
    the base set. *)
Lemma returned_rows_pass_base (d : Database) (Y : Z) (config : QueryConfig)
    (log : list query) (rows : list row) :
  oierConditions Y config <> [] ->
  findOiers (Some d) Y config = (log, inr rows) ->
  (exists log', log = SelectUidFromOIer (oierConditions Y config) :: log') /\
  forall r, In r rows -> passes_base d Y config (uid (row_oier r)).
Proof.
  intros Hne E.
  destruct (@findOiers_unrefused d Y config (@findOiers_returned d Y config log rows E))
    as [log0 [st0 [st [rows' [E0 [Hinv [En [Hc [Em Ef]]]]]]]]].
  destruct (@base_state d Y config Hne) as [_ E1].
  rewrite E0 in E1. injection E1 as El Est.
  rewrite E in Ef. injection Ef as Elog Er. subst rows' log0.
  split.
  - rewrite Elog, <- app_assoc. cbn [app]. eexists. reflexivity.
  - rewrite Est in Hc. cbn [candidateUids] in Hc.
    destruct (narrowed_by_all_Some d (recordConstraints config)
                (Set_of (run_SelectUidFromOIer d (oierConditions Y config))))
      as [s' [Es Is]].
    rewrite Es in Hc. rewrite Hc in Em.
    rewrite materialize_filtered in Em by (left; exact Hne).
    apply (f_equal snd) in Em. cbn [snd] in Em.
    intros r Hr. destruct s' as [| x s'].
    + injection Em as <-. destruct Hr.
    + destruct (accepted (SelectOIersInOrdered (x :: s'))); [| discriminate].
      injection Em as <-. apply in_map_iff in Hr. destruct Hr as [o [<- Ho]].
      cbn [row_oier].
      rewrite run_SelectOIersInOrdered_spec, order_by_score_desc_In, filter_In in Ho.
      destruct Ho as [_ Ho]. apply Set_has_In, Is in Ho. rewrite Set_of_In in Ho.
      now apply base_lookup_In.
Qed.

(** C3.  The base filter's conditions for [grade_range] are the inclusive
    bounds [enroll_middle >= Y - max_grade + 7] (only if [max_grade] is
    present) and [enroll_middle <= Y - min_grade + 7] (only if [min_grade] is
    present), and an enrollee passes the conditions of the base filter
    exactly when its enrollment year satisfies both these bounds and those of
    [enroll_year_range].  On an initialised store, when no bound is present
    the base filter sends nothing and leaves the candidate set [null]; when
    some bound is present it sends one statement whose text is the
    conjunction of the bounds of [enroll_year_range] and of the translated
    window, binding their values in that order, and this statement is the
    first of every run that returns; when moreover the identifiers of the
    store are integers that a JS number holds exactly, the candidate set
    with which the loop is entered holds exactly the identifiers of the
    enrollees within all these bounds, and every row that [findOiers]
    returns has such an identifier.  For [Y = 2024] and grades [[1, 3]] the
    window is [[2028, 2030]], which is what the statement sent binds. *)
Theorem grade_range_translation (currentYear : Z) (config : QueryConfig) :
  grade_conditions currentYear config =
    bound_conditions col_enroll_middle
      (map_bounds int_value (spec_grade_window currentYear (grade_range config))) /\
  (forall o : OIer,
     where_holds (oier_value o) (oierConditions currentYear config) = true <->
     within (sides (enroll_year_range config)) (enroll_middle o) /\
     within (spec_grade_window currentYear (grade_range config)) (enroll_middle o)) /\
  (forall d : Database,
     (unbounded (enroll_year_range config) -> unbounded (grade_range config) ->
      base_filter (Some d) (oierConditions currentYear config) = ([], inr None) /\
      initial_state (Some d) currentYear config =
        ([], inr {| candidateUids := None; enumerationMode := false |})) /\
     (~ (unbounded (enroll_year_range config) /\ unbounded (grade_range config)) ->
      exists q s,
        base_filter (Some d) (oierConditions currentYear config) = ([q], inr (Some s)) /\
        initial_state (Some d) currentYear config =
          ([q], inr {| candidateUids := Some s;
                       enumerationMode := (List.length s <? ENUMERATE_THRESHOLD)%nat |}) /\
        sql_text q =
          "SELECT uid FROM OIer WHERE " ++
          String.concat " AND " (map fst (spec_base_predicate currentYear config)) /\
        sql_values q = flat_map snd (spec_base_predicate currentYear config) /\
        (forall log rows,
           findOiers (Some d) currentYear config = (log, inr rows) ->
           exists log', log = q :: log') /\
        (safe_identifiers d ->
         NoDup s /\
         (forall x, In x s <-> passes_base d currentYear config x) /\
         (forall log rows,
            findOiers (Some d) currentYear config = (log, inr rows) ->
            forall r, In r rows -> passes_base d currentYear config (uid (row_oier r)))))) /\
  spec_grade_window 2024 (Some (Some 1, Some 3)) = (Some 2028, Some 2030) /\
  map (fun q => (sql_text q, sql_values q))
    (fst (findOiers (Some scenario_db) 2024 grades_1_3_config)) =
  [("SELECT uid FROM OIer WHERE enroll_middle >= ? AND enroll_middle <= ?",
    [int_value 2028; int_value 2030])].
Proof.
  split; [apply grade_conditions_window |].
  split; [intros o; apply oierConditions_holds |].
  split; [| split; reflexivity].
  intros d. split.
  - intros He Hg.
    assert (Ek : oierConditions currentYear config = []) by now apply oierConditions_nil.
    unfold initial_state. rewrite Ek. split; reflexivity.
  - intros Hb.
    assert (Hne : oierConditions currentYear config <> []).
    { intros Ek. apply Hb. now apply (oierConditions_nil currentYear). }
    exists (SelectUidFromOIer (oierConditions currentYear config)),
           (Set_of (run_SelectUidFromOIer d (oierConditions currentYear config))).
    destruct (@base_state d currentYear config Hne) as [Eb Ei].
    split; [exact Eb |]. split; [exact Ei |].
    split; [apply base_lookup_text |]. split; [apply base_lookup_text |].
    split; [intros log rows E; now apply (@returned_rows_pass_base d currentYear config log rows Hne E) |].
    intros _. split; [apply Set_of_NoDup |].
    split; [intros x; rewrite Set_of_In; apply base_lookup_In |].
    intros log rows E. now apply (@returned_rows_pass_base d currentYear config log rows Hne E).
Qed.

(** The specification's example, on the conditions the code builds. *)
Example grade_range_1_3_in_2024 :
  oierConditions 2024
    {| enroll_year_range := None; grade_range := Some (Some 1, Some 3); records := None |} =
  [AtLeast col_enroll_middle (int_value 2028); AtMost col_enroll_middle (int_value 2030)].
Proof. reflexivity. Qed.

(** ** C7: the record predicate compiler *)

Section Compiler.

Lemma bound_conditions_withinQ {col} (get : col -> value) (column : col) (b : bounds Q) (x : Q) :
  get column = VNum x ->
  where_holds get (bound_conditions column (map_bounds VNum b)) = true <-> withinQ b x.
Proof.
  intros Hget. destruct b as [[lo |] [hi |]];
    unfold where_holds, withinQ;
    cbn [bound_conditions map_bounds option_map fst snd app forallb holds];
    rewrite ?Hget; cbn [value_leb];
    rewrite ?andb_true_r, ?andb_true_iff, ?Qle_bool_iff.
  - split.
    + intros [H1 H2]. split; intros ? [= <-]; assumption.
    + intros [H1 H2]. split; auto.
  - split.
    + intros H1. split; [intros ? [= <-]; assumption | discriminate].
    + intros [H1 _]. auto.
  - split.
    + intros H2. split; [discriminate | intros ? [= <-]; assumption].
    + intros [_ H2]. auto.
  - split; [intros _; split; discriminate | reflexivity].
Qed.

Lemma membership_conditions_allowed (get : join_column -> value) (column : join_column)
    (f : option (list string)) (x : string) :
  get column = VText x ->
  where_holds get (membership_conditions column f) = true <-> allowed f x.
Proof.
  intros Hget. unfold membership_conditions, allowed, where_holds.
  destruct f as [[| v vs] |]; cbn [forallb holds]; try tauto.
  now rewrite Hget, andb_true_r, member_text_values.
Qed.

(** The pushes of [buildWhereClauseAndValues], field by field, in the order
    of [rangeFields] and [listFields]. *)
Lemma conditions_of_fields (params : RecordConstraint) :
  conditions_of params =
  (bound_conditions col_c_year (map_bounds int_value (sides (year_range params))) ++
   bound_conditions col_r_score (map_bounds VNum (sides (score_range params))) ++
   bound_conditions col_r_rank (map_bounds int_value (sides (rank_range params))) ++
   membership_conditions col_r_province (province params) ++
   membership_conditions col_r_level (level_range params) ++
   membership_conditions col_c_type (contest_type params))%list.
Proof.
  unfold conditions_of, rangeFields, listFields, range_conditions, list_conditions,
    get_range, get_list.
  cbn [flat_map String.eqb Ascii.eqb Bool.eqb].
  rewrite !app_nil_r, <- !app_assoc.
  assert (R' : forall (col : join_column) (r : option (bounds value)),
             match r with
             | Some b => if some_not_null b then bound_conditions col b else []
             | None => []
             end = bound_conditions col (sides r)).
  { intros col [[[lo |] [hi |]] |]; reflexivity. }
  assert (S : forall A (f : A -> value) (r : option (bounds A)),
             sides (option_map (map_bounds f) r) = map_bounds f (sides r)).
  { intros A f [[[lo |] [hi |]] |]; reflexivity. }
  assert (L : forall (col : join_column) (f : option (list string)),
             match option_map (map VText) f with
             | Some vs => if (0 <? List.length vs)%nat then [Member col vs] else []
             | None => []
             end = membership_conditions col f).
  { intros col [[| v vs] |]; reflexivity. }
  now rewrite !R', !S, !L.
Qed.

Lemma whereClause_of_conditions (params : RecordConstraint) :
  whereClause_of params =
  match conditions_of params with
  | [] => [Always]
  | _ :: _ => conditions_of params
  end.
Proof. unfold whereClause_of. now destruct (conditions_of params). Qed.

(** The conjunct ["1=1"] changes nothing to what a clause accepts. *)
Lemma whereClause_of_holds (get : join_column -> value) (params : RecordConstraint) :
  where_holds get (whereClause_of params) = where_holds get (conditions_of params).
Proof. rewrite whereClause_of_conditions. now destruct (conditions_of params). Qed.

Lemma inequalities_on_app (column : join_column) (a b : list (condition join_column)) :
  inequalities_on column (a ++ b) = (inequalities_on column a + inequalities_on column b)%nat.
Proof. unfold inequalities_on. now rewrite filter_app, length_app. Qed.

Lemma memberships_on_app (column : join_column) (a b : list (condition join_column)) :
  memberships_on column (a ++ b) = (memberships_on column a + memberships_on column b)%nat.
Proof. unfold memberships_on. now rewrite filter_app, length_app. Qed.

Lemma inequalities_on_bounds (column column' : join_column) (b : bounds value) :
  inequalities_on column (bound_conditions column' b) =
  if join_column_eqb column' column then present_sides b else 0%nat.
Proof. destruct b as [[lo |] [hi |]], column, column'; reflexivity. Qed.

Lemma memberships_on_bounds (column column' : join_column) (b : bounds value) :
  memberships_on column (bound_conditions column' b) = 0%nat.
Proof. destruct b as [[lo |] [hi |]], column, column'; reflexivity. Qed.

Lemma inequalities_on_membership (column column' : join_column) (f : option (list string)) :
  inequalities_on column (membership_conditions column' f) = 0%nat.
Proof. destruct f as [[| v vs] |]; reflexivity. Qed.

Lemma memberships_on_membership (column column' : join_column) (f : option (list string)) :
  memberships_on column (membership_conditions column' f) =
  if join_column_eqb column' column
  then match f with Some (_ :: _) => 1%nat | _ => 0%nat end
  else 0%nat.
Proof. destruct f as [[| v vs] |], column, column'; reflexivity. Qed.

Lemma present_sides_map {A B} (f : A -> B) (b : bounds A) :
  present_sides (map_bounds f b) = present_sides b.
Proof. destruct b as [[lo |] [hi |]]; reflexivity. Qed.

Lemma present_sides_le_2 {A} (b : bounds A) : (present_sides b <= 2)%nat.
Proof. destruct b as [[lo |] [hi |]]; unfold present_sides; simpl; lia. Qed.

(** The pushes of [buildWhereClauseAndValues] are the conditions that the
    specification words, with the values bound to them. *)
Lemma conditions_of_spec (params : RecordConstraint) :
  conjuncts join_column_name (conditions_of params) = spec_record_predicate params.
Proof.
  rewrite conditions_of_fields. unfold spec_record_predicate.
  rewrite !conjuncts_app, !bound_conjuncts, !member_conjuncts. reflexivity.
Qed.

Lemma buildWhereClauseAndValues_spec (params : RecordConstraint) :
  buildWhereClauseAndValues params = spec_conjunction (spec_record_predicate params).
Proof.
  unfold buildWhereClauseAndValues, spec_conjunction.
  rewrite (where_values_conjuncts join_column_name), conditions_of_spec. f_equal.
  rewrite whereClause_of_conditions, <- conditions_of_spec.
  destruct (conditions_of params) as [| k ks]; [reflexivity |].
  apply where_text_conjuncts.
Qed.

Lemma joined_In (d : Database) (r : RecordRow) (k : Contest) :
  In (r, k) (joined d) <->
  In r (Record_table d) /\ In k (Contest_table d) /\ r_contest_id r = c_id k.
Proof.
  unfold joined. rewrite in_flat_map. split.
  - intros [r' [Hr Hin]]. apply in_map_iff in Hin.
    destruct Hin as [k' [[= <- <-] Hk]]. apply filter_In in Hk.
    destruct Hk as [Hk E]. apply Z.eqb_eq in E. auto.
  - intros [Hr [Hk E]]. exists r. split; [exact Hr |].
    apply in_map, filter_In. split; [exact Hk | now apply Z.eqb_eq].
Qed.

Lemma clause_satisfies (constraint : RecordConstraint) (r : RecordRow) (k : Contest) :
  where_holds (join_value r k) (whereClause_of constraint) = true <->
  satisfies constraint r k.
Proof.
  unfold satisfies. rewrite whereClause_of_holds, conditions_of_fields.
  rewrite !where_holds_app, !andb_true_iff.
  rewrite (@bound_conditions_within _ (join_value r k) col_c_year _ (c_year k) eq_refl).
  rewrite (@bound_conditions_withinQ _ (join_value r k) col_r_score _ (r_score r) eq_refl).
  rewrite (@bound_conditions_within _ (join_value r k) col_r_rank _ (r_rank r) eq_refl).
  rewrite (@membership_conditions_allowed (join_value r k) col_r_province _
             (r_province r) eq_refl).
  rewrite (@membership_conditions_allowed (join_value r k) col_r_level _
             (r_level r) eq_refl).
  rewrite (@membership_conditions_allowed (join_value r k) col_c_type _
             (c_type k) eq_refl).
  tauto.
Qed.

(** The identifiers that the lookup of a constraint selects. *)
Lemma record_lookup_In (d : Database) (constraint : RecordConstraint) (x : Z) :
  In x (run_SelectDistinctOierUid d (whereClause_of constraint)) <->
  has_matching_record d constraint x.
Proof.
  unfold run_SelectDistinctOierUid, has_matching_record.
  rewrite distinct_In, in_map_iff. split.
  - intros [[r k] [Hx H]]. apply filter_In in H. destruct H as [Hj Hw].
    apply joined_In in Hj. destruct Hj as [Hr [Hk E]].
    exists r, k. cbn [fst snd] in *. apply clause_satisfies in Hw. auto.
  - intros [r [k [Hr [Hk [E [Hx Hs]]]]]]. exists (r, k). split; [exact Hx |].
    apply filter_In. split; [now apply joined_In |].
    cbn [fst snd]. now apply clause_satisfies.
Qed.

Lemma matching_In (d : Database) (constraint : RecordConstraint) (x : Z) :
  In x (matching d constraint) <-> has_matching_record d constraint x.
Proof. unfold matching. rewrite Set_of_In. apply record_lookup_In. Qed.

End Compiler.

(** C7.  Compiling one record constraint gives the conjunction, joined with
    [" AND "], of the conditions that the specification words, in the order
    year, score, rank, province, level, contest type, together with their
    values in the same order: for each present lower bound of [year_range],
    [score_range] and [rank_range] the condition [column >= ?] on [c.year],
    [r.score] and [r.rank], for each present upper bound [column <= ?], and
    for each non-empty set field one condition [column IN (?,...,?)] on
    [r.province], [r.level] and [c.type] with one placeholder per value;
    nothing else is contributed.  This text and these values are what the
    lookup of the constraint hands to the store.  A joined row satisfies the
    conjunction exactly when every present bound and every non-empty set
    field admits it, and the lookup selects exactly the identifiers that own
    such a row.  Each numeric field contributes one inequality on its own
    column per present side, hence at most two; each set field contributes
    one membership condition when it is non-empty and none otherwise.  When
    no bound is present and no set field is non-empty the clause is ["1=1"]
    with no bound value, and every joined row satisfies it. *)
Theorem record_predicate_compiler (params : RecordConstraint) :
  let ks := conditions_of params in
  let clause := whereClause_of params in
  buildWhereClauseAndValues params = spec_conjunction (spec_record_predicate params) /\
  (sql_text (SelectDistinctOierUid clause) =
     "SELECT DISTINCT r.oier_uid FROM Record r JOIN Contest c ON r.contest_id = c.id WHERE "
     ++ fst (buildWhereClauseAndValues params) /\
   sql_values (SelectDistinctOierUid clause) = snd (buildWhereClauseAndValues params)) /\
  clause = match ks with [] => [Always] | _ => ks end /\
  (forall (r : RecordRow) (c : Contest),
     where_holds (join_value r c) clause = true <->
     within (sides (year_range params)) (c_year c) /\
     withinQ (sides (score_range params)) (r_score r) /\
     within (sides (rank_range params)) (r_rank r) /\
     allowed (province params) (r_province r) /\
     allowed (contest_type params) (c_type c) /\
     allowed (level_range params) (r_level r)) /\
  (forall (d : Database) (x : Z),
     In x (run_SelectDistinctOierUid d clause) <-> has_matching_record d params x) /\
  (inequalities_on col_c_year ks = present_sides (sides (year_range params)) /\
   inequalities_on col_r_score ks = present_sides (sides (score_range params)) /\
   inequalities_on col_r_rank ks = present_sides (sides (rank_range params)) /\
   (inequalities_on col_c_year ks <= 2)%nat /\
   (inequalities_on col_r_score ks <= 2)%nat /\
   (inequalities_on col_r_rank ks <= 2)%nat) /\
  (memberships_on col_r_province ks =
     match province params with Some (_ :: _) => 1%nat | _ => 0%nat end /\
   memberships_on col_c_type ks =
     match contest_type params with Some (_ :: _) => 1%nat | _ => 0%nat end /\
   memberships_on col_r_level ks =
     match level_range params with Some (_ :: _) => 1%nat | _ => 0%nat end) /\
  List.length ks =
    (inequalities_on col_c_year ks + inequalities_on col_r_score ks +
     inequalities_on col_r_rank ks + memberships_on col_r_province ks +
     memberships_on col_c_type ks + memberships_on col_r_level ks)%nat /\
  (unbounded (year_range params) -> unbounded (score_range params) ->
   unbounded (rank_range params) ->
   no_filter (province params) -> no_filter (contest_type params) ->
   no_filter (level_range params) ->
   buildWhereClauseAndValues params = ("1=1", []) /\
   forall (r : RecordRow) (c : Contest), where_holds (join_value r c) clause = true) /\
  buildWhereClauseAndValues
    {| year_range := Some (Some 2019, Some 2020); rank_range := Some (None, Some 10);
       score_range := Some (Some (5 # 2), None); province := Some ["BJ"; "SH"];
       contest_type := Some []; level_range := Some ["1st"] |} =
  ("c.year >= ? AND c.year <= ? AND r.score >= ? AND r.rank <= ? AND r.province IN (?,?) AND r.level IN (?)",
   [int_value 2019; int_value 2020; VNum (5 # 2); int_value 10;
    VText "BJ"; VText "SH"; VText "1st"]).
Proof.
  intros ks clause.
  assert (Hcount :
    inequalities_on col_c_year ks = present_sides (sides (year_range params)) /\
    inequalities_on col_r_score ks = present_sides (sides (score_range params)) /\
    inequalities_on col_r_rank ks = present_sides (sides (rank_range params)) /\
    memberships_on col_r_province ks =
      match province params with Some (_ :: _) => 1%nat | _ => 0%nat end /\
    memberships_on col_c_type ks =
      match contest_type params with Some (_ :: _) => 1%nat | _ => 0%nat end /\
    memberships_on col_r_level ks =
      match level_range params with Some (_ :: _) => 1%nat | _ => 0%nat end /\
    List.length ks =
      (present_sides (sides (year_range params)) +
       present_sides (sides (score_range params)) +
       present_sides (sides (rank_range params)) +
       match province params with Some (_ :: _) => 1 | _ => 0 end +
       match contest_type params with Some (_ :: _) => 1 | _ => 0 end +
       match level_range params with Some (_ :: _) => 1 | _ => 0 end)%nat).
  { subst ks. rewrite conditions_of_fields.
    rewrite !inequalities_on_app, !memberships_on_app, !length_app,
      !inequalities_on_bounds, !memberships_on_bounds,
      !inequalities_on_membership, !memberships_on_membership,
      !present_sides_map.
    cbn [join_column_eqb].
    repeat split; try lia.
    destruct (sides (year_range params)) as [[a |] [b |]],
             (sides (score_range params)) as [[a' |] [b' |]],
             (sides (rank_range params)) as [[a'' |] [b'' |]],
             (province params) as [[| ? ?] |],
             (contest_type params) as [[| ? ?] |],
             (level_range params) as [[| ? ?] |]; reflexivity. }
  destruct Hcount as [C1 [C2 [C3 [M1 [M2 [M3 L]]]]]].
  split; [apply buildWhereClauseAndValues_spec |].
  split.
  { subst clause. cbn [sql_text sql_values]. rewrite where_values_clause.
    split; reflexivity. }
  split; [subst clause ks; apply whereClause_of_conditions |].
  split; [intros r c; apply (clause_satisfies params r c) |].
  split; [intros d x; apply record_lookup_In |].
  split; [| split; [| split; [| split]]].
  - rewrite C1, C2, C3. repeat split; apply present_sides_le_2.
  - auto.
  - rewrite C1, C2, C3, M1, M2, M3. exact L.
  - intros Hy Hs Hr Hp Ht Hl.
    assert (E : ks = []).
    { subst ks. rewrite conditions_of_fields.
      destruct Hy as [-> | ->], Hs as [-> | ->], Hr as [-> | ->],
               Hp as [-> | ->], Ht as [-> | ->], Hl as [-> | ->]; reflexivity. }
    split.
    + unfold buildWhereClauseAndValues, whereClause_of. fold ks. now rewrite E.
    + intros r c. subst clause. rewrite whereClause_of_holds. fold ks. now rewrite E.
  - reflexivity.
Qed.

(** ** C6: an empty set filter is an absent one *)

Section Extensionality.

Variable db : option Database.

Lemma narrow_step_ext (st : state) (c c' : RecordConstraint) :
  whereClause_of c = whereClause_of c' ->
  narrow_step db st c = narrow_step db st c'.
Proof. intros E. unfold narrow_step. now rewrite E. Qed.

Lemma narrow_loop_ext (pre post : list RecordConstraint) (c c' : RecordConstraint) (st : state) :
  whereClause_of c = whereClause_of c' ->
  narrow_loop db st (pre ++ c :: post) = narrow_loop db st (pre ++ c' :: post).
Proof.
  intros E. revert st. induction pre as [| p pre IH]; intros st; cbn [app narrow_loop].
  - now rewrite narrow_step_ext with (c' := c') by exact E.
  - destruct (narrow_step db st p) as [log [e | st']]; [reflexivity |].
    unfold bind. destruct (breaks st'); [reflexivity |]. now rewrite IH.
Qed.

Lemma materialize_ext ks (rs rs' : list RecordConstraint) cands :
  List.length rs = List.length rs' ->
  materialize db ks rs cands = materialize db ks rs' cands.
Proof.
  intros E. destruct rs, rs'; try discriminate; reflexivity.
Qed.

(** [findOiers] reads [records] only in the loop and in stage 3. *)
Lemma findOiers_with_records (currentYear : Z) (config : QueryConfig)
    (rs : list RecordConstraint) :
  findOiers db currentYear (with_records config rs) =
  (st <- (st0 <- initial_state db currentYear config ;; narrow_loop db st0 rs) ;;
   materialize db (oierConditions currentYear config) rs (candidateUids st)).
Proof. reflexivity. Qed.

Lemma findOiers_ext (currentYear : Z) (config : QueryConfig)
    (pre post : list RecordConstraint) (c c' : RecordConstraint) :
  whereClause_of c = whereClause_of c' ->
  findOiers db currentYear (with_records config (pre ++ c :: post)) =
  findOiers db currentYear (with_records config (pre ++ c' :: post)).
Proof.
  intros E. rewrite !findOiers_with_records.
  destruct (initial_state db currentYear config) as [log0 [e | st0]]; [reflexivity |].
  unfold bind. rewrite narrow_loop_ext with (c' := c') by exact E.
  destruct (narrow_loop db st0 (pre ++ c' :: post)) as [log [e | st]]; [reflexivity |].
  rewrite materialize_ext with (rs' := (pre ++ c' :: post)%list); [reflexivity |].
  now rewrite !length_app.
Qed.

End Extensionality.

Lemma set_filter_empty_conditions (f : set_field) (c : RecordConstraint) :
  conditions_of (set_filter f c (Some [])) = conditions_of (set_filter f c None).
Proof. rewrite !conditions_of_fields. destruct f; reflexivity. Qed.

Lemma set_filter_empty_clause (f : set_field) (c : RecordConstraint) :
  whereClause_of (set_filter f c (Some [])) = whereClause_of (set_filter f c None).
Proof. unfold whereClause_of. now rewrite set_filter_empty_conditions. Qed.

(** C6.  For each of [province], [contest_type] and [level_range], a record
    constraint with the field set to the empty list compiles to the same
    clause and bound values as the constraint with the field absent, and
    with the one in place of the other anywhere in [records] the evaluation
    sends the same statements and returns the same rows (or throws the same
    error). *)
Theorem empty_set_filter_is_absent (f : set_field) (c : RecordConstraint) :
  buildWhereClauseAndValues (set_filter f c (Some [])) =
  buildWhereClauseAndValues (set_filter f c None) /\
  forall (db : option Database) (currentYear : Z) (config : QueryConfig)
         (pre post : list RecordConstraint),
    findOiers db currentYear (with_records config (pre ++ set_filter f c (Some []) :: post)) =
    findOiers db currentYear (with_records config (pre ++ set_filter f c None :: post)).
Proof.
  split.
  - unfold buildWhereClauseAndValues.
    now rewrite set_filter_empty_clause, set_filter_empty_conditions.
  - intros db Y config pre post. apply findOiers_ext, set_filter_empty_clause.
Qed.

(** ** What follows an iteration *)

Section AfterAnIteration.

Variable d : Database.

Lemma iterations_after (rs : list RecordConstraint) (st : state) h1 it h2 :
  mode_tracks_size st ->
  iterations (Some d) st rs = (h1 ++ it :: h2)%list ->
  sound_iteration d it /\
  exists rest,
    h2 = (if accepted (lookup_of (before it) (processed it))
          then if breaks (next_state d (before it) (processed it)) then []
               else iterations (Some d) (next_state d (before it) (processed it)) rest
          else []).
Proof.
  intros Hinv E.
  assert (Hs : sound_iteration d it).
  { pose proof (iterations_sound d rs Hinv) as F. rewrite E in F.
    rewrite Forall_forall in F. apply F, in_elt. }
  split; [exact Hs |].
  destruct (iterations_split _ _ _ _ _ _ E) as [rest Er].
  apply iterations_rest in Er. destruct Er as [_ [_ [_ Eh]]].
  destruct Hs as [Hb _]. rewrite (narrow_step_run d (processed it) Hb) in Eh.
  exists rest. rewrite Eh.
  now destruct (accepted (lookup_of (before it) (processed it))).
Qed.

(** Once an iteration has left the candidate set empty, the loop is over. *)
Lemma iterations_stop_when_empty (rs : list RecordConstraint) (st : state) h1 it h2 :
  mode_tracks_size st ->
  iterations (Some d) st rs = (h1 ++ it :: h2)%list ->
  candidates_after it = Some [] ->
  h2 = [].
Proof.
  intros Hinv E Hc.
  destruct (iterations_after _ _ _ _ Hinv E) as [Hs [rest Eh]].
  destruct (sound_iteration_outcome Hs) as [_ [[A [_ [Ha _]]] | [_ [_ [Ha _]]]]];
    [| congruence].
  rewrite A in Eh. rewrite Hc in Ha.
  assert (B : breaks (next_state d (before it) (processed it)) = true).
  { apply breaks_true. cbn [next_state candidateUids]. now rewrite <- Ha. }
  now rewrite B in Eh.
Qed.

(** Once the store has refused a lookup, the loop is over. *)
Lemma iterations_stop_when_refused (rs : list RecordConstraint) (st : state) h1 it h2 :
  mode_tracks_size st ->
  iterations (Some d) st rs = (h1 ++ it :: h2)%list ->
  refused it ->
  h2 = [].
Proof.
  intros Hinv E Hr.
  destruct (iterations_after _ _ _ _ Hinv E) as [Hs [rest Eh]].
  destruct (sound_iteration_outcome Hs) as [_ [[_ [_ [_ [_ Hn]]]] | [A _]]];
    [contradiction |].
  now rewrite A in Eh.
Qed.

(** An iteration that is followed by another one was not refused and left a
    non-empty set, with which the next one is entered. *)
Lemma iterations_continue_nonempty (rs : list RecordConstraint) (st : state) h1 it it' h2 :
  mode_tracks_size st ->
  iterations (Some d) st rs = (h1 ++ it :: it' :: h2)%list ->
  candidates_after it <> Some [] /\ candidates_after it = candidateUids (before it') /\
  mode_after it = enumerationMode (before it').
Proof.
  intros Hinv E.
  destruct (iterations_after _ _ _ _ Hinv E) as [Hs [rest Eh]].
  destruct (sound_iteration_outcome Hs) as [_ [[A [_ [Ha [Hm _]]]] | [A _]]];
    rewrite A in Eh; [| discriminate].
  destruct (breaks (next_state d (before it) (processed it))) eqn:B; [discriminate |].
  destruct rest as [| c rest]; [discriminate |].
  symmetry in Eh. apply iterations_rest in Eh. destruct Eh as [Eb _].
  rewrite Eb, Ha, Hm. cbn [next_state candidateUids enumerationMode].
  split; [| split; reflexivity].
  intros Hs'.
  assert (B' : breaks (next_state d (before it) (processed it)) = true)
    by (apply breaks_true; exact Hs').
  congruence.
Qed.

(** The store refuses a lookup of the loop exactly when some statement of
    the loop's log is not accepted. *)
Lemma lookups_accepted (its : list iteration) :
  Forall (sound_iteration d) its ->
  forallb accepted (lookups its) = true <-> forall it, In it its -> ~ refused it.
Proof.
  induction 1 as [| it its Hs _ IH].
  - split; [intros _ it [] | reflexivity].
  - unfold lookups in *. cbn [flat_map]. rewrite forallb_app, andb_true_iff, IH.
    destruct (sound_iteration_outcome Hs) as [El [[A [_ [_ [_ Hn]]]] | [A [Hr _]]]];
      rewrite El; cbn [forallb]; rewrite A; cbn [andb].
    + split.
      * intros [_ H] it' [<- | Hin]; [exact Hn | now apply H].
      * intros H. split; [reflexivity |]. intros it' Hin. apply H. now right.
    + split; [intros [H _]; discriminate |].
      intros H. exfalso. apply (H it); [now left | exact Hr].
Qed.

End AfterAnIteration.

(** ** C10: candidates never grow *)

(** C10.  In every evaluation on an initialised store, an iteration entered
    with a non-null candidate set leaves a subset of it, unless the store
    refuses its lookup (which then is the last and leaves no set at all); the
    sets entered with and left by every later iteration are subsets of the
    set an iteration leaves; and when no lookup is refused, as is the case
    when every constraint has at most 32747 values, the narrowing returns
    and the final candidate set is a subset of the base set (when the base
    filter produced one), of the set every iteration was entered with (when
    non-null) and of the set every iteration left. *)
Theorem candidates_never_grow (d : Database) (currentYear : Z) (config : QueryConfig) :
  exists log0 st0,
    initial_state (Some d) currentYear config = (log0, inr st0) /\
    let its := iterations (Some d) st0 (recordConstraints config) in
    Forall (fun it =>
              refused it \/
              exists sa, candidates_after it = Some sa /\
                         forall s, candidateUids (before it) = Some s -> incl sa s) its /\
    (forall h1 it h2 s,
       its = (h1 ++ it :: h2)%list -> candidates_after it = Some s ->
       Forall (fun it' =>
                 exists sb, candidateUids (before it') = Some sb /\ incl sb s /\
                            (refused it' \/
                             exists sa, candidates_after it' = Some sa /\ incl sa s)) h2) /\
    (forall h1 it h2,
       its = (h1 ++ it :: h2)%list -> refused it ->
       h2 = [] /\ snd (narrowed (Some d) currentYear config) = inl too_many_variables) /\
    ((forall it, In it its -> ~ refused it) ->
     exists log st,
       narrowed (Some d) currentYear config = (log, inr st) /\
       (forall s, candidateUids st0 = Some s ->
                  exists sf, candidateUids st = Some sf /\ incl sf s) /\
       Forall (fun it =>
                 exists sf sa, candidateUids st = Some sf /\
                               candidates_after it = Some sa /\ incl sf sa /\
                               forall s, candidateUids (before it) = Some s -> incl sf s) its) /\
    (Forall constraint_in_range (recordConstraints config) ->
     forall it, In it its -> ~ refused it).
Proof.
  destruct (findOiers_run d currentYear config) as [log0 [st0 [E0 [Hinv H]]]].
  exists log0, st0. split; [exact E0 |]. cbv zeta in *.
  set (rs := recordConstraints config) in *.
  pose proof (@iterations_shrink d rs _ Hinv) as Hshrink.
  pose proof (@iterations_sound d rs _ Hinv) as Hsound.
  split; [| split; [| split; [| split]]].
  - rewrite Forall_forall in *. intros it Hin.
    destruct (sound_iteration_outcome (Hsound it Hin)) as [_ [[_ [_ [Ha _]]] | [_ [Hr _]]]];
      [right | now left].
    eexists. split; [exact Ha |]. apply (Hshrink it Hin _ Ha).
  - intros h1 it h2 s E Ha.
    destruct (@iterations_after d _ _ _ _ _ Hinv E) as [Hs [rest Eh]].
    destruct (sound_iteration_outcome Hs) as [_ [[A [_ [Ha' _]]] | [_ [_ [Ha' _]]]]];
      [| congruence].
    rewrite A in Eh.
    destruct (breaks (next_state d (before it) (processed it))); [subst h2; constructor |].
    set (st' := next_state d (before it) (processed it)) in *.
    assert (Hinv' : mode_tracks_size st') by apply next_state_tracks.
    assert (Est' : candidateUids st' = Some s).
    { subst st'. cbn [next_state candidateUids]. congruence. }
    pose proof (@iterations_shrink d rest _ Hinv') as F.
    pose proof (@iterations_sound d rest _ Hinv') as G.
    rewrite <- Eh in F, G.
    rewrite Forall_forall in *. intros it' Hin.
    assert (Hb : exists sb, candidateUids (before it') = Some sb /\ incl sb s).
    { apply in_split in Hin. destruct Hin as [k1 [k2 Ek]].
      destruct k1 as [| j k1] using rev_ind.
      - cbn [app] in Ek. rewrite Ek in Eh. destruct rest as [| c rest]; [discriminate |].
        symmetry in Eh. apply iterations_rest in Eh. destruct Eh as [Eb _].
        exists s. rewrite Eb. split; [exact Est' | apply incl_refl].
      - clear IHk1. rewrite <- app_assoc in Ek. cbn [app] in Ek.
        assert (Hj : In j h2) by (rewrite Ek; apply in_elt).
        rewrite Ek in Eh. symmetry in Eh.
        destruct (@iterations_continue_nonempty d _ _ _ _ _ _ Hinv' Eh) as [_ [Ej _]].
        destruct (candidates_after j) as [sj |] eqn:Eaj.
        + exists sj. split; [congruence |].
          destruct (F j Hj sj Eaj) as [_ [_ Isj]]. now apply Isj.
        + destruct (sound_iteration_outcome (G j Hj)) as [_ [[_ [_ [Ha'' _]]] | [_ [Hr _]]]];
            [congruence |].
          exfalso.
          pose proof (@iterations_stop_when_refused d _ _ _ _ _ Hinv' Eh Hr). discriminate. }
    destruct Hb as [sb [Eb Isb]]. exists sb. split; [exact Eb |]. split; [exact Isb |].
    destruct (sound_iteration_outcome (G it' Hin)) as [_ [[_ [_ [Ha'' _]]] | [_ [Hr _]]]];
      [right | now left].
    eexists. split; [exact Ha'' |].
    destruct (F it' Hin _ Ha'') as [_ [_ I3]]. now apply I3.
  - intros h1 it h2 E Hr.
    split; [exact (@iterations_stop_when_refused d _ _ _ _ _ Hinv E Hr) |].
    destruct (forallb accepted (lookups (iterations (Some d) st0 rs))) eqn:A.
    + exfalso. rewrite (lookups_accepted Hsound) in A.
      apply (A it); [rewrite E; apply in_elt | exact Hr].
    + destruct H as [En _]. now rewrite En.
  - intros Hn. rewrite <- (lookups_accepted Hsound) in Hn. rewrite Hn in H.
    destruct H as [st [En [Hc _]]]. eexists _, st. split; [exact En |]. split.
    + intros s Es. rewrite Hc, Es. apply narrowed_by_all_Some.
    + rewrite (lookups_accepted Hsound) in Hn.
      rewrite Forall_forall in *. intros it Hin.
      destruct (sound_iteration_outcome (Hsound it Hin)) as [_ [[_ [_ [Ha _]]] | [_ [Hr _]]]];
        [| elim (Hn it Hin Hr)].
      destruct (Hshrink it Hin _ Ha) as [[sf [Ef If]] [Ib _]].
      eexists sf, _. rewrite Hc. split; [exact Ef |]. split; [exact Ha |].
      split; [exact If |].
      intros s Es. eapply incl_tran; [exact If | now apply Ib].
  - intros Hr. apply (lookups_accepted Hsound). now apply iterations_in_range.
Qed.

(** ** C4: the enumeration mode *)

Lemma sound_iteration_mode (d : Database) (it : iteration) :
  sound_iteration d it ->
  (refused it \/
   (exists s', candidates_after it = Some s' /\
               mode_after it = (List.length s' <? ENUMERATE_THRESHOLD)%nat) /\
   (enumerationMode (before it) = true -> mode_after it = true)) /\
  (enumerationMode (before it) = true -> candidateUids (before it) <> Some [] ->
   scoped_lookup it) /\
  (enumerationMode (before it) = false -> unscoped_lookup it) /\
  (candidateUids (before it) = Some [] -> unscoped_lookup it).
Proof.
  intros Hs. pose proof Hs as [Hinv _].
  destruct (sound_iteration_outcome Hs) as [El Hout].
  unfold scoped_lookup, unscoped_lookup. rewrite El. unfold lookup_of, scope_of.
  split; [| split; [| split]].
  - destruct Hout as [[_ [Eo [Ha [Hm _]]]] | [_ [Hr _]]]; [right | now left].
    split.
    + eexists. split; [exact Ha | exact Hm].
    + intros Em. rewrite Hm.
      exact (@next_state_keeps_mode d (before it) (processed it) Hinv Em).
  - intros Em Hne. unfold mode_tracks_size in Hinv. rewrite Em in Hinv.
    destruct (candidateUids (before it)) as [[| x s] |]; [congruence | | discriminate].
    exists (x :: s). now rewrite Em.
  - intros Em. rewrite Em.
    destruct (candidateUids (before it)) as [[| x s] |]; now rewrite app_nil_r.
  - intros Ec. rewrite Ec. now rewrite app_nil_r.
Qed.

(** C4 (as the code has it).  The enumeration mode is on at loop entry
    exactly when the base candidate set is non-null and has fewer than 20
    elements; after each processed constraint it is on exactly when the
    candidate set has fewer than 20 elements, so it is switched on as soon as
    the size drops below 20; it never goes back off; a lookup entered with
    the mode on and a non-empty candidate set is scoped to those candidates,
    and one entered with the mode off or with an empty candidate set is not
    scoped; and once the mode is on after a processed constraint, every
    later constraint is entered with the mode on and its lookup is scoped.
    A constraint whose lookup the store refuses is not processed: it ends
    the evaluation, and none is refused when every constraint has at most
    32747 values. *)
Theorem enumeration_mode_protocol (d : Database) (currentYear : Z) (config : QueryConfig) :
  exists log0 st0,
    initial_state (Some d) currentYear config = (log0, inr st0) /\
    let its := iterations (Some d) st0 (recordConstraints config) in
    (enumerationMode st0 = true <->
     exists s, candidateUids st0 = Some s /\ (List.length s < ENUMERATE_THRESHOLD)%nat) /\
    Forall (fun it =>
              (refused it \/
               (exists s', candidates_after it = Some s' /\
                           (mode_after it = true <->
                            (List.length s' < ENUMERATE_THRESHOLD)%nat)) /\
               (enumerationMode (before it) = true -> mode_after it = true)) /\
              (enumerationMode (before it) = true ->
               candidateUids (before it) <> Some [] -> scoped_lookup it) /\
              (enumerationMode (before it) = false -> unscoped_lookup it) /\
              (candidateUids (before it) = Some [] -> unscoped_lookup it)) its /\
    (forall h1 it h2,
       its = (h1 ++ it :: h2)%list -> mode_after it = true ->
       Forall (fun it' => enumerationMode (before it') = true /\ scoped_lookup it' /\
                          (refused it' \/ mode_after it' = true)) h2) /\
    (forall h1 it h2, its = (h1 ++ it :: h2)%list -> refused it -> h2 = []) /\
    (Forall constraint_in_range (recordConstraints config) ->
     forall it, In it its -> ~ refused it).
Proof.
  destruct (initial_state_run d currentYear config) as [st0 [E0 [Hinv Hc0]]].
  eexists _, st0. split; [exact E0 |]. cbv zeta.
  set (rs := recordConstraints config).
  pose proof (@iterations_sound d rs _ Hinv) as Hsound.
  split; [| split; [| split; [| split]]].
  - unfold mode_tracks_size in Hinv. rewrite Hinv. unfold initial_mode.
    destruct (candidateUids st0) as [s |].
    + rewrite Nat.ltb_lt. split.
      * intros H. exists s. auto.
      * intros [s' [[= <-] H]]. exact H.
    + split; [discriminate | intros [s' [H _]]; discriminate].
  - eapply Forall_impl; [| exact Hsound].
    intros it Hs. destruct (sound_iteration_mode Hs) as [H0 [H2 [H3 _]]].
    assert (Hu : candidateUids (before it) = Some [] -> unscoped_lookup it).
    { intros He. destruct Hs as [_ Eo]. unfold unscoped_lookup. rewrite Eo. cbn [fst].
      unfold lookup_of, scope_of. rewrite He. now rewrite app_nil_r. }
    split; [| split; [| split]; assumption].
    destruct H0 as [Hr | [[s' [Ea Em]] H1]]; [now left | right].
    split; [| exact H1].
    exists s'. split; [exact Ea |]. rewrite Em. apply Nat.ltb_lt.
  - intros h1 it h2 E Hm.
    destruct (@iterations_after d _ _ _ _ _ Hinv E) as [Hs [rest Eh]].
    destruct (sound_iteration_outcome Hs) as [_ [[A [_ [_ [Hm' _]]]] | [_ [_ [_ Hm']]]]];
      [| congruence].
    rewrite A in Eh.
    destruct (breaks (next_state d (before it) (processed it))) eqn:B;
      [subst h2; constructor |].
    subst h2. apply iterations_scoped.
    + apply next_state_tracks.
    + cbn [next_state enumerationMode]. congruence.
    + intros Hs'. apply breaks_true in Hs'. congruence.
  - intros h1 it h2 E Hr. exact (@iterations_stop_when_refused d _ _ _ _ _ Hinv E Hr).
  - intros Hr. apply (lookups_accepted Hsound). now apply iterations_in_range.
Qed.

(** C4, as stated, fails on [scenario_db] when the base filter selects
    nobody: the mode is on at loop entry, and the lookup of the constraint
    processed next is the unscoped [SELECT DISTINCT ... WHERE 1=1]. *)
Lemma mode_on_but_lookup_unscoped :
  exists st0 it,
    initial_state (Some scenario_db) 2024 empty_base_config =
      ([SelectUidFromOIer [AtLeast col_enroll_middle (int_value 2030)]], inr st0) /\
    candidateUids st0 = Some [] /\
    enumerationMode st0 = true /\
    iterations (Some scenario_db) st0 (recordConstraints empty_base_config) = [it] /\
    before it = st0 /\
    fst (outcome it) = [SelectDistinctOierUid [Always]] /\
    ~ scoped_lookup it.
Proof.
  eexists _, _. split; [reflexivity |].
  split; [reflexivity |]. split; [reflexivity |]. split; [reflexivity |].
  split; [reflexivity |]. split; [reflexivity |].
  intros [s [_ H]]. cbn in H. discriminate.
Qed.

(** ** C5: the short-circuit on an empty candidate set *)

(** C5 (as the code has it).  In every evaluation on an initialised store:
    once a processed constraint has left the candidate set empty, that
    constraint's lookup is the last statement sent (no later constraint is
    looked up, no row is fetched) and the result is the empty sequence; and
    when the base filter has produced the empty set, no row is fetched, and
    the only statement handed to the store after the base lookup is the
    unscoped lookup of the first record constraint, if there is one: the
    result is the empty sequence, unless the store refuses that lookup
    because it binds more than 32766 values, in which case the evaluation
    throws the store's error. *)
Theorem empty_candidates_short_circuit (d : Database) (currentYear : Z) (config : QueryConfig) :
  exists log0 st0,
    initial_state (Some d) currentYear config = (log0, inr st0) /\
    let its := iterations (Some d) st0 (recordConstraints config) in
    (forall h1 it h2,
       its = (h1 ++ it :: h2)%list -> candidates_after it = Some [] ->
       h2 = [] /\
       findOiers (Some d) currentYear config =
         ((log0 ++ lookups h1 ++ fst (outcome it))%list, inr [])) /\
    (candidateUids st0 = Some [] ->
     fst (findOiers (Some d) currentYear config) = (log0 ++ lookups its)%list /\
     match recordConstraints config with
     | [] => its = [] /\ snd (findOiers (Some d) currentYear config) = inr []
     | constraint :: _ =>
         exists it,
           its = [it] /\ processed it = constraint /\ unscoped_lookup it /\
           if (N.of_nat (List.length (snd (buildWhereClauseAndValues constraint)))
                 <=? 32766)%N
           then candidates_after it = Some [] /\
                snd (findOiers (Some d) currentYear config) = inr []
           else refused it /\
                snd (findOiers (Some d) currentYear config) = inl too_many_variables
     end).
Proof.
  destruct (findOiers_run d currentYear config) as [log0 [st0 [E0 [Hinv H]]]].
  exists log0, st0. split; [exact E0 |]. cbv zeta in *.
  set (rs := recordConstraints config) in *.
  pose proof (@iterations_sound d rs _ Hinv) as Hsound.
  split.
  - intros h1 it h2 E Ha.
    assert (Hh2 : h2 = []) by exact (@iterations_stop_when_empty d _ _ _ _ _ Hinv E Ha).
    split; [exact Hh2 |]. subst h2.
    assert (A : forallb accepted (lookups (iterations (Some d) st0 rs)) = true).
    { apply (lookups_accepted Hsound). intros it' Hin Hr.
      rewrite E in Hin. apply in_app_or in Hin. destruct Hin as [Hin | [<- | []]].
      - apply in_split in Hin. destruct Hin as [k1 [k2 Ek]].
        rewrite Ek, <- app_assoc in E. cbn [app] in E.
        pose proof (@iterations_stop_when_refused d _ _ _ _ _ Hinv E Hr) as Hk.
        destruct k2; discriminate.
      - unfold refused, candidates_after in *.
        destruct (outcome it) as [log [e | st']]; cbn [snd] in *; congruence. }
    rewrite A in H. destruct H as [st [_ [Hc Ef]]].
    pose proof (@iterations_shrink d rs _ Hinv) as F.
    rewrite E, Forall_forall in F.
    destruct (F it (in_elt _ _ _) _ Ha) as [[sf [Esf If]] _].
    assert (sf = []) by (destruct sf as [| x sf]; [reflexivity | destruct (If x); now left]).
    subst sf. rewrite Esf in Hc.
    rewrite Ef, Hc, materialize_empty, E, lookups_app. cbn [fst snd].
    unfold lookups at 2. cbn [flat_map]. now rewrite !app_nil_r.
  - intros Hs0.
    destruct rs as [| c rest] eqn:Ers.
    + cbn [iterations lookups flat_map forallb] in *.
      destruct H as [st [_ [Hc Ef]]]. cbn [narrowed_by_all] in Hc.
      rewrite Ef, Hc, Hs0, materialize_empty. cbn [fst snd].
      rewrite !app_nil_r. auto.
    + assert (El : lookup_of st0 c = SelectDistinctOierUid (whereClause_of c)).
      { unfold lookup_of, scope_of. rewrite Hs0. now rewrite app_nil_r. }
      assert (B : breaks (next_state d st0 c) = true).
      { apply breaks_true. cbn [next_state candidateUids narrowed_by]. now rewrite Hs0. }
      cbn [iterations] in *. rewrite (narrow_step_run d c Hinv) in *.
      rewrite El in *. rewrite <- unscoped_accepted.
      destruct (accepted (SelectDistinctOierUid (whereClause_of c))) eqn:A.
      * rewrite B in *. unfold lookups in *. cbn [flat_map outcome fst app forallb] in *.
        rewrite A in H. cbn [andb] in H.
        destruct H as [st [_ [Hc Ef]]].
        cbn [narrowed_by_all narrowed_by] in Hc. rewrite Hs0 in Hc.
        cbn [Set_intersect filter] in Hc. rewrite narrowed_by_all_empty in Hc.
        rewrite Ef, Hc, materialize_empty. cbn [fst snd]. rewrite !app_nil_r.
        split; [reflexivity |].
        eexists. split; [reflexivity |]. cbn [processed].
        split; [reflexivity |]. split; [reflexivity |].
        split; [| reflexivity].
        unfold candidates_after. cbn [outcome next_state candidateUids narrowed_by].
        now rewrite Hs0.
      * unfold lookups in *. cbn [flat_map outcome fst app forallb] in *.
        rewrite A in H. cbn [andb] in H. destruct H as [_ Ef].
        rewrite Ef. cbn [fst snd].
        split; [reflexivity |].
        eexists. split; [reflexivity |]. cbn [processed].
        repeat split; reflexivity.
Qed.

(** C5, as stated, fails on [scenario_db] when the base filter selects
    nobody: the candidate set has size 0 after the base lookup, and a
    further statement, the lookup of the first record constraint, is still
    sent. *)
Lemma lookup_after_empty_base :
  exists st0,
    initial_state (Some scenario_db) 2024 empty_base_config =
      ([SelectUidFromOIer [AtLeast col_enroll_middle (int_value 2030)]], inr st0) /\
    candidateUids st0 = Some [] /\
    findOiers (Some scenario_db) 2024 empty_base_config =
      ([SelectUidFromOIer [AtLeast col_enroll_middle (int_value 2030)];
        SelectDistinctOierUid [Always]],
       inr []) /\
    map sql_text (fst (findOiers (Some scenario_db) 2024 empty_base_config)) =
      ["SELECT uid FROM OIer WHERE enroll_middle >= ?";
       "SELECT DISTINCT r.oier_uid FROM Record r JOIN Contest c ON r.contest_id = c.id WHERE 1=1"].
Proof.
  eexists. split; [reflexivity |]. split; [reflexivity |]. split; reflexivity.
Qed.

(** ** C8: the store handle before initialisation *)

Lemma findOiers_uninitialised (currentYear : Z) (config : QueryConfig) :
  findOiers None currentYear config =
  throw (cannot_read "undefined"
           match oierConditions currentYear config, recordConstraints config with
           | [], [] => "exec"
           | _, _ => "prepare"
           end).
Proof.
  unfold findOiers, narrowed, initial_state, base_filter.
  destruct (oierConditions currentYear config) as [| k ks].
  - destruct (recordConstraints config) as [| c rs]; reflexivity.
  - destruct (recordConstraints config) as [| c rs]; reflexivity.
Qed.

(** C8 (as the code has it).  With the store handle unassigned, every
    evaluation of a configuration throws at its first use of the handle, the
    [TypeError] of reading [prepare] or [exec] of [undefined]: no statement
    is sent and no row is returned.  [executeQuery] shows neither results nor
    an empty table but the alert ["Query execution failed: "] followed by the
    message of that error; its handler builds the alert from the message of
    whatever was thrown and from nothing else. *)
Theorem uninitialised_store_fails (currentYear : Z) (config : QueryConfig) :
  exists method,
    (method = "prepare" \/ method = "exec") /\
    findOiers None currentYear config = ([], inl (cannot_read "undefined" method)) /\
    executeQuery None currentYear (Some config) =
      ([], ErrorAlert ("Query execution failed: " ++
                       message (cannot_read "undefined" method))) /\
    forall e : JsError, on_error e = ErrorAlert ("Query execution failed: " ++ message e).
Proof.
  exists (match oierConditions currentYear config, recordConstraints config with
          | [], [] => "exec"
          | _, _ => "prepare"
          end).
  split; [| split; [| split]].
  - destruct (oierConditions currentYear config), (recordConstraints config); auto.
  - apply findOiers_uninitialised.
  - unfold executeQuery. rewrite findOiers_uninitialised. reflexivity.
  - reflexivity.
Qed.

(** C8, as stated, fails: what is surfaced for an unassigned handle is the
    alert that the handler produces for an error thrown by the store layer
    with the same message, under the same label, so the surfaced value has no
    kind by which store-unavailable could be told from execution-failed; and
    a call without configuration surfaces the same alert whether or not the
    handle is assigned.  No reading of the surfaced page can therefore assign
    [StoreUnavailable] to every call made with an unassigned handle and
    [ExecutionFailed] to every error of the store layer. *)
Lemma surfaced_error_has_no_kind :
  snd (executeQuery None 2024 (Some empty_base_config)) =
    on_error {| err_name := "Error";
                message := "Cannot read properties of undefined (reading 'prepare')" |} /\
  executeQuery None 2024 None = executeQuery (Some scenario_db) 2024 None /\
  ~ exists kind_of : page -> error_kind,
      (forall Y cfg, kind_of (snd (executeQuery None Y cfg)) = StoreUnavailable) /\
      (forall e, err_name e = "Error" -> kind_of (on_error e) = ExecutionFailed).
Proof.
  split; [reflexivity |]. split; [reflexivity |].
  intros [kind_of [H1 H2]].
  specialize (H1 2024 (Some empty_base_config)).
  specialize (H2 {| err_name := "Error";
                    message := "Cannot read properties of undefined (reading 'prepare')" |}
                 eq_refl).
  change (snd (executeQuery None 2024 (Some empty_base_config)))
    with (on_error {| err_name := "Error";
                      message := "Cannot read properties of undefined (reading 'prepare')" |})
    in H1.
  congruence.
Qed.

(** ** C1: the order of the record constraints *)

Section Order.

Variable d : Database.

Lemma filter_filter {A} (f g : A -> bool) (l : list A) :
  filter f (filter g l) = filter (fun x => g x && f x) l.
Proof.
  induction l as [| x l IH]; simpl; [reflexivity |].
  destruct (g x); simpl; [destruct (f x) |]; now rewrite IH.
Qed.

Lemma narrowed_by_all_filter (rs : list RecordConstraint) (s : list Z) :
  narrowed_by_all d (Some s) rs = Some (filter (matches_all d rs) s).
Proof.
  revert s. induction rs as [| c rs IH]; intros s; cbn [narrowed_by_all narrowed_by].
  - f_equal. induction s as [| x s IHs]; cbn; [reflexivity | now rewrite <- IHs at 1].
  - rewrite IH. unfold Set_intersect. now rewrite filter_filter.
Qed.

Lemma matches_all_perm (rs rs' : list RecordConstraint) (x : Z) :
  Permutation rs rs' -> matches_all d rs x = matches_all d rs' x.
Proof.
  unfold matches_all. induction 1 as [| c l l' _ IH | c c' l | l l' l'' _ IH1 _ IH2];
    cbn [forallb].
  - reflexivity.
  - now rewrite IH.
  - now rewrite !andb_assoc, (andb_comm (Set_has (matching d c') x)).
  - now rewrite IH1.
Qed.

Lemma matching_NoDup (c : RecordConstraint) : NoDup (matching d c).
Proof. apply Set_of_NoDup. Qed.

(** The candidates left by a non-empty sequence started from [null]. *)
Lemma narrowed_by_all_null (c : RecordConstraint) (rs : list RecordConstraint) :
  exists s,
    narrowed_by_all d None (c :: rs) = Some s /\ NoDup s /\
    forall x, In x s <-> matches_all d (c :: rs) x = true.
Proof.
  cbn [narrowed_by_all narrowed_by]. rewrite narrowed_by_all_filter.
  eexists. split; [reflexivity |]. split.
  - apply NoDup_filter, matching_NoDup.
  - intros x. rewrite filter_In. unfold matches_all. cbn [forallb].
    now rewrite andb_true_iff, Set_has_In.
Qed.

Lemma narrowed_by_all_perm (cands : option (list Z)) (rs rs' : list RecordConstraint) :
  (forall s, cands = Some s -> NoDup s) ->
  Permutation rs rs' ->
  same_set (narrowed_by_all d cands rs) (narrowed_by_all d cands rs').
Proof.
  intros Hnd P. destruct cands as [s |].
  - rewrite !narrowed_by_all_filter. unfold same_set.
    assert (E : filter (matches_all d rs) s = filter (matches_all d rs') s).
    { apply filter_ext. intros x. now apply matches_all_perm. }
    rewrite E. split; [| split; [| tauto]]; apply NoDup_filter, Hnd; reflexivity.
  - destruct rs as [| c rs].
    + apply Permutation_nil in P. subst rs'. exact I.
    + destruct rs' as [| c' rs'].
      * symmetry in P. apply Permutation_nil in P. discriminate.
      * destruct (narrowed_by_all_null c rs) as [s [E [N M]]].
        destruct (narrowed_by_all_null c' rs') as [s' [E' [N' M']]].
        rewrite E, E'. unfold same_set. split; [exact N |]. split; [exact N' |].
        intros x. rewrite M, M'. now rewrite (matches_all_perm x P).
Qed.

Lemma materialize_same_set ks (rs rs' : list RecordConstraint) (a b : option (list Z)) :
  same_set a b ->
  List.length rs = List.length rs' ->
  snd (materialize (Some d) ks rs a) = snd (materialize (Some d) ks rs' b).
Proof.
  intros H L. destruct a as [s |], b as [t |]; try contradiction.
  - destruct H as [Ns [Nt M]].
    assert (El : List.length s = List.length t).
    { apply Permutation_length, NoDup_Permutation; assumption. }
    assert (Er : run_SelectOIersInOrdered d s = run_SelectOIersInOrdered d t)
      by now apply run_SelectOIersInOrdered_ext.
    destruct s as [| x s], t as [| y t]; try discriminate.
    + now rewrite !materialize_empty.
    + rewrite !materialize_candidates. cbn [snd]. rewrite Er.
      unfold accepted. cbn [sql_values]. now rewrite !length_map, El.
  - destruct ks, rs, rs'; try discriminate; reflexivity.
Qed.

End Order.

(** C1 (as the code has it).  On a store whose identifiers are integers
    that a JS number holds exactly, replacing the [records] of a
    configuration by any permutation of them, when the store refuses no
    record lookup of either evaluation, changes neither the final candidate
    set (as a set: [null] in both runs, or the same identifiers in both) nor
    the outcome of the evaluation: both runs return the same rows in the
    same order, or, when more than 32766 candidates are left, both throw the
    store's error for the final fetch.  With the handle unassigned both
    throw the same error.  Only the statements sent may differ. *)
Theorem record_order_irrelevant (d : Database) (currentYear : Z) (config : QueryConfig)
    (rs' : list RecordConstraint) :
  Permutation (recordConstraints config) rs' ->
  safe_identifiers d ->
  unrefused (narrowed (Some d) currentYear config) ->
  unrefused (narrowed (Some d) currentYear (with_records config rs')) ->
  (exists log st log' st',
     narrowed (Some d) currentYear config = (log, inr st) /\
     narrowed (Some d) currentYear (with_records config rs') = (log', inr st') /\
     same_set (candidateUids st) (candidateUids st') /\
     snd (findOiers (Some d) currentYear config) =
     snd (findOiers (Some d) currentYear (with_records config rs')) /\
     match candidateUids st with
     | Some (x :: s) =>
         if (N.of_nat (List.length (x :: s)) <=? 32766)%N
         then exists rows, snd (findOiers (Some d) currentYear config) = inr rows
         else snd (findOiers (Some d) currentYear config) = inl too_many_variables
     | _ => exists rows, snd (findOiers (Some d) currentYear config) = inr rows
     end) /\
  snd (findOiers None currentYear config) =
  snd (findOiers None currentYear (with_records config rs')).
Proof.
  intros P _ U U'. split.
  - destruct (@narrowed_unrefused d currentYear config U) as [log0 [st0 [st [E0 [Hinv [En [Hc Ef]]]]]]].
    destruct (@narrowed_unrefused d currentYear (with_records config rs') U') as [log0' [st0' [st' [E0' [Hinv' [En' [Hc' Ef']]]]]]].
    change (initial_state (Some d) currentYear (with_records config rs'))
      with (initial_state (Some d) currentYear config) in E0'.
    rewrite E0 in E0'. injection E0' as <- <-.
    change (recordConstraints (with_records config rs')) with rs' in *.
    change (oierConditions currentYear (with_records config rs'))
      with (oierConditions currentYear config) in *.
    assert (Hnd : forall s, candidateUids st0 = Some s -> NoDup s).
    { destruct (initial_state_run d currentYear config) as [st1 [E1 [_ Hc1]]].
      rewrite E0 in E1. injection E1 as _ <-.
      intros s Es. rewrite Es in Hc1.
      destruct (oierConditions currentYear config); [discriminate |].
      injection Hc1 as ->. apply Set_of_NoDup. }
    assert (Hsame : same_set (candidateUids st) (candidateUids st')).
    { rewrite Hc, Hc'. now apply narrowed_by_all_perm. }
    eexists _, st, _, st'.
    split; [exact En |]. split; [exact En' |]. split; [exact Hsame |].
    split.
    + rewrite Ef, Ef'. cbn [snd].
      apply materialize_same_set; [exact Hsame | now apply Permutation_length].
    + rewrite Ef. cbn [snd].
      destruct (candidateUids st) as [[| x s] |].
      * rewrite materialize_empty. eexists. reflexivity.
      * rewrite materialize_candidates, <- fetch_accepted. cbn [snd].
        destruct (accepted (SelectOIersInOrdered (x :: s))); [eexists |]; reflexivity.
      * destruct (oierConditions currentYear config), (recordConstraints config);
          cbn; eexists; reflexivity.
  - rewrite !findOiers_uninitialised.
    change (recordConstraints (with_records config rs')) with rs'.
    change (oierConditions currentYear (with_records config rs'))
      with (oierConditions currentYear config).
    destruct (recordConstraints config) as [| c rs], rs' as [| c' rs'']; try reflexivity.
    + apply Permutation_nil in P. discriminate.
    + symmetry in P. apply Permutation_nil in P. discriminate.
Qed.

Lemma record_order_irrelevant_witness :
  (exists log st log' st',
     narrowed (Some scenario_db) 2024 two_records_config = (log, inr st) /\
     narrowed (Some scenario_db) 2024 (with_records two_records_config [from_SH; since_2020]) =
       (log', inr st') /\
     same_set (candidateUids st) (candidateUids st') /\
     snd (findOiers (Some scenario_db) 2024 two_records_config) =
     snd (findOiers (Some scenario_db) 2024
            (with_records two_records_config [from_SH; since_2020])) /\
     match candidateUids st with
     | Some (x :: s) =>
         if (N.of_nat (List.length (x :: s)) <=? 32766)%N
         then exists rows, snd (findOiers (Some scenario_db) 2024 two_records_config) = inr rows
         else snd (findOiers (Some scenario_db) 2024 two_records_config) =
              inl too_many_variables
     | _ => exists rows, snd (findOiers (Some scenario_db) 2024 two_records_config) = inr rows
     end) /\
  snd (findOiers None 2024 two_records_config) =
  snd (findOiers None 2024 (with_records two_records_config [from_SH; since_2020])).
Proof.
  apply (@record_order_irrelevant scenario_db 2024 two_records_config [from_SH; since_2020]).
  - apply perm_swap.
  - exact scenario_db_safe.
  - reflexivity.
  - reflexivity.
Defined.

(** An evaluation whose first record constraint alone binds more values
    than the store accepts throws the store's error. *)
Lemma first_lookup_refused (d : Database) (Y : Z) (config : QueryConfig)
    (c : RecordConstraint) (rest : list RecordConstraint) :
  recordConstraints config = c :: rest ->
  (SQLITE_MAX_VARIABLE_NUMBER < N.of_nat (List.length (snd (buildWhereClauseAndValues c))))%N ->
  snd (findOiers (Some d) Y config) = inl too_many_variables.
Proof.
  intros Hrs Hlong.
  destruct (findOiers_run d Y config) as [log0 [st0 [E0 [Hinv H]]]].
  cbv zeta in H. rewrite Hrs in H. cbn [iterations] in H.
  rewrite (narrow_step_run d c Hinv) in H.
  assert (A : accepted (lookup_of st0 c) = false).
  { unfold accepted. rewrite lookup_values_length. apply N.leb_gt. lia. }
  rewrite A in H. unfold lookups in H. cbn [flat_map outcome fst app forallb] in H.
  rewrite A in H. cbn [andb] in H. destruct H as [_ Ef]. now rewrite Ef.
Qed.

Lemma from_too_many_values :
  N.of_nat (List.length (snd (buildWhereClauseAndValues from_too_many))) = 32767%N.
Proof.
  assert (E : repeat "BJ" (N.to_nat 32767) = "BJ" :: repeat "BJ" (N.to_nat 32766)).
  { replace (N.to_nat 32767) with (S (N.to_nat 32766)); [reflexivity |].
    rewrite <- N2Nat.inj_succ. reflexivity. }
  unfold buildWhereClauseAndValues. cbn [snd]. rewrite conditions_of_fields.
  unfold from_too_many.
  cbn [year_range score_range rank_range province level_range contest_type sides
       map_bounds option_map fst snd bound_conditions app].
  rewrite E.
  cbn [membership_conditions app where_values flat_map condition_values].
  rewrite app_nil_r, length_map. cbn [List.length].
  rewrite repeat_length, Nat2N.inj_succ, N2Nat.id. reflexivity.
Qed.

(** C1, as stated, fails on [scenario_db]: with a constraint that matches
    nobody before a constraint whose set filter holds 32767 values, the loop
    stops after the first lookup and the result is the empty sequence; with
    the two constraints swapped, the store refuses the lookup of the long
    filter and the evaluation throws. *)
Lemma order_decides_refusal :
  Permutation (recordConstraints too_many_last_config) [from_too_many; from_nowhere] /\
  findOiers (Some scenario_db) 2024 too_many_last_config =
    ([SelectDistinctOierUid [Member col_r_province [VText "XX"]]], inr []) /\
  snd (findOiers (Some scenario_db) 2024
         (with_records too_many_last_config [from_too_many; from_nowhere])) =
    inl too_many_variables /\
  snd (executeQuery (Some scenario_db) 2024 (Some too_many_last_config)) =
    ResultsPage too_many_last_config [] /\
  snd (executeQuery (Some scenario_db) 2024
         (Some (with_records too_many_last_config [from_too_many; from_nowhere]))) =
    ErrorAlert "Query execution failed: too many SQL variables" /\
  N.of_nat (List.length (snd (buildWhereClauseAndValues from_too_many))) = 32767%N.
Proof.
  assert (E1 : findOiers (Some scenario_db) 2024 too_many_last_config =
               ([SelectDistinctOierUid [Member col_r_province [VText "XX"]]], inr []))
    by reflexivity.
  assert (E2 : snd (findOiers (Some scenario_db) 2024
                      (with_records too_many_last_config [from_too_many; from_nowhere])) =
               inl too_many_variables).
  { apply (@first_lookup_refused scenario_db 2024 _ from_too_many [from_nowhere]);
      [reflexivity |].
    rewrite from_too_many_values. reflexivity. }
  split; [apply perm_swap |]. split; [exact E1 |]. split; [exact E2 |].
  split; [| split; [| exact from_too_many_values]].
  - unfold executeQuery. rewrite E1. reflexivity.
  - unfold executeQuery, bind.
    destruct (findOiers (Some scenario_db) 2024
                (with_records too_many_last_config [from_too_many; from_nowhere]))
      as [log r].
    cbn [snd] in E2. subst r. reflexivity.
Qed.

(** No record lookup is refused when every constraint is in range. *)
Lemma narrowed_in_range (d : Database) (Y : Z) (config : QueryConfig) :
  Forall constraint_in_range (recordConstraints config) ->
  unrefused (narrowed (Some d) Y config).
Proof.
  intros H. unfold unrefused.
  destruct (findOiers_run d Y config) as [log0 [st0 [E0 [Hinv Hrun]]]].
  cbv zeta in Hrun. rewrite (iterations_in_range d Hinv H) in Hrun.
  destruct Hrun as [st [En _]]. rewrite En. cbn [fst].
  rewrite forallb_app, (base_log_accepted d Y config E0).
  now rewrite (iterations_in_range d Hinv H).
Qed.

(** ** C9: what an evaluation shows *)

Lemma cleanConfig_sides (config : QueryConfig) :
  sides (enroll_year_range (cleanConfig config)) = sides (enroll_year_range config) /\
  sides (grade_range (cleanConfig config)) = sides (grade_range config) /\
  recordConstraints (cleanConfig config) = recordConstraints config.
Proof.
  unfold cleanConfig, recordConstraints. cbn [enroll_year_range grade_range records].
  destruct (enroll_year_range config) as [[[a |] [b |]] |],
           (grade_range config) as [[[a' |] [b' |]] |],
           (records config) as [[| c rs] |]; repeat split; reflexivity.
Qed.

(** What the pruning drops and what it keeps. *)
Lemma cleanConfig_pruned (config : QueryConfig) :
  (unbounded (enroll_year_range config) -> enroll_year_range (cleanConfig config) = None) /\
  (~ unbounded (enroll_year_range config) ->
   enroll_year_range (cleanConfig config) = enroll_year_range config) /\
  (unbounded (grade_range config) -> grade_range (cleanConfig config) = None) /\
  (~ unbounded (grade_range config) ->
   grade_range (cleanConfig config) = grade_range config) /\
  (recordConstraints config = [] -> records (cleanConfig config) = None) /\
  (recordConstraints config <> [] -> records (cleanConfig config) = records config).
Proof.
  unfold cleanConfig, recordConstraints, unbounded.
  cbn [enroll_year_range grade_range records].
  destruct (enroll_year_range config) as [[[a |] [b |]] |],
           (grade_range config) as [[[a' |] [b' |]] |],
           (records config) as [[| c rs] |];
    repeat split; intros H; try reflexivity;
    try (destruct H as [H | H]; discriminate); try discriminate;
    try (exfalso; apply H; auto; fail).
Qed.

(** The page of a run that threw the store's error. *)
Lemma executeQuery_refused (d : Database) (Y : Z) (config : QueryConfig) :
  forallb accepted (fst (findOiers (Some d) Y config)) = false ->
  executeQuery (Some d) Y (Some config) =
    (fst (findOiers (Some d) Y config),
     ErrorAlert "Query execution failed: too many SQL variables").
Proof.
  intros A. apply findOiers_refused in A. unfold executeQuery, bind.
  destruct (findOiers (Some d) Y config) as [log r]. cbn [fst snd] in *. now subst r.
Qed.

(** The candidates with which stage 3 of a constrained query is entered are
    a set, never the null value. *)
Lemma constrained_candidates (d : Database) (Y : Z) (config : QueryConfig) :
  oierConditions Y config <> [] \/ recordConstraints config <> [] ->
  exists s,
    narrowed_by_all d
      (match oierConditions Y config with
       | [] => None
       | ks => Some (Set_of (run_SelectUidFromOIer d ks))
       end) (recordConstraints config) = Some s.
Proof.
  intros H. destruct (oierConditions Y config) as [| k ks].
  - destruct H as [H | H]; [congruence |].
    destruct (recordConstraints config) as [| c rest]; [congruence |].
    cbn [narrowed_by_all narrowed_by].
    destruct (narrowed_by_all_Some d rest (matching d c)) as [s' [Es _]]. eauto.
  - destruct (narrowed_by_all_Some d (recordConstraints config)
                (Set_of (run_SelectUidFromOIer d (k :: ks)))) as [s' [Es _]]. eauto.
Qed.

(** A narrowing that returns was refused nothing. *)
Lemma narrowed_returned (d : Database) (Y : Z) (config : QueryConfig)
    (log : list query) (st : state) :
  narrowed (Some d) Y config = (log, inr st) ->
  unrefused (narrowed (Some d) Y config).
Proof.
  intros E. unfold unrefused.
  destruct (findOiers_run d Y config) as [log0 [st0 [E0 [Hinv H]]]].
  cbv zeta in H.
  destruct (forallb accepted (lookups (iterations (Some d) st0 (recordConstraints config))))
    eqn:A.
  - destruct H as [st' [En _]]. rewrite En. cbn [fst].
    now rewrite forallb_app, A, (base_log_accepted d Y config E0).
  - destruct H as [En _]. rewrite E in En. discriminate.
Qed.

(** Once the narrowing of a constrained query has returned, the only
    statement left is the final fetch, which binds the candidates: the store
    refuses it exactly when there are more than 32766. *)
Lemma fetch_decides (d : Database) (Y : Z) (config : QueryConfig)
    (log : list query) (st : state) :
  oierConditions Y config <> [] \/ recordConstraints config <> [] ->
  narrowed (Some d) Y config = (log, inr st) ->
  exists s,
    candidateUids st = Some s /\
    narrowed_by_all d
      (match oierConditions Y config with
       | [] => None
       | ks => Some (Set_of (run_SelectUidFromOIer d ks))
       end) (recordConstraints config) = Some s /\
    forallb accepted (fst (findOiers (Some d) Y config)) =
      (N.of_nat (List.length s) <=? 32766)%N.
Proof.
  intros H E.
  pose proof (narrowed_returned d Y config E) as U.
  destruct (constrained_candidates d Y config H) as [s Es].
  destruct (@narrowed_unrefused d Y config U) as [log0 [st0 [st' [E0 [Hinv [En [Hcs Ef]]]]]]].
  rewrite E in En. injection En as -> <-.
  destruct (initial_state_run d Y config) as [st1 [E1 [_ Hc1]]].
  rewrite E0 in E1. injection E1 as _ <-.
  assert (Hst : candidateUids st = Some s).
  { rewrite Hcs, Hc1, <- Es. now destruct (oierConditions Y config). }
  exists s. split; [exact Hst |]. split; [exact Es |].
  unfold unrefused in U. rewrite E in U. cbn [fst] in U.
  rewrite Ef. cbn [fst]. rewrite forallb_app, U. cbn [andb].
  rewrite (materialize_filtered d (candidateUids st) H), Hst.
  destruct s as [| x s]; [reflexivity |].
  cbn [fst forallb]. now rewrite andb_true_r, fetch_accepted.
Qed.

(** The candidates with which stage 3 is entered and the rows it fetches,
    for a configuration with some base bound or some record constraint, in a
    run of which the store refuses no statement. *)
Lemma filtered_rows (d : Database) (Y : Z) (config : QueryConfig) :
  oierConditions Y config <> [] \/ recordConstraints config <> [] ->
  unrefused (findOiers (Some d) Y config) ->
  exists log log' st s,
    narrowed (Some d) Y config = (log', inr st) /\
    candidateUids st = narrowed_by_all d
                         (match oierConditions Y config with
                          | [] => None
                          | ks => Some (Set_of (run_SelectUidFromOIer d ks))
                          end) (recordConstraints config) /\
    candidateUids st = Some s /\
    findOiers (Some d) Y config =
      (log, inr (map ObjectRow
                   (order_by_score_desc
                      (filter (fun o => Set_has s (uid o)) (OIer_table d))))).
Proof.
  intros H U.
  destruct (@findOiers_unrefused d Y config U)
    as [log0 [st0 [st [rows [E0 [Hinv [En [Hc [Em Ef]]]]]]]]].
  destruct (initial_state_run d Y config) as [st1 [E1 [_ Hc1]]].
  rewrite E0 in E1. injection E1 as _ <-.
  rewrite (materialize_filtered d (candidateUids st) H) in Em.
  assert (Hs : exists s, candidateUids st = Some s).
  { rewrite Hc, Hc1.
    destruct (oierConditions Y config) as [| k ks].
    - destruct H as [H | H]; [congruence |].
      destruct (recordConstraints config) as [| c rest]; [congruence |].
      cbn [narrowed_by_all narrowed_by].
      destruct (narrowed_by_all_Some d rest (matching d c)) as [s' [Es _]]. eauto.
    - destruct (narrowed_by_all_Some d (recordConstraints config)
                  (Set_of (run_SelectUidFromOIer d (k :: ks)))) as [s' [Es _]]. eauto. }
  destruct Hs as [s Es].
  eexists _, _, st, s. split; [exact En |].
  split; [rewrite Hc, Hc1; now destruct (oierConditions Y config) |].
  split; [exact Es |].
  rewrite Ef. f_equal. f_equal.
  rewrite Es in Em. apply (f_equal snd) in Em. cbn [snd] in Em.
  destruct s as [| x s].
  - injection Em as <-. clear. induction (OIer_table d) as [| o l IH]; [reflexivity | exact IH].
  - destruct (accepted (SelectOIersInOrdered (x :: s))); [| discriminate].
    injection Em as <-. now rewrite run_SelectOIersInOrdered_spec.
Qed.

(** The identifiers left as candidates are those that match. *)
Section Matches.

Variable d : Database.

Lemma matches_all_spec (rs : list RecordConstraint) (x : Z) :
  matches_all d rs x = true <->
  forall constraint, In constraint rs -> has_matching_record d constraint x.
Proof.
  unfold matches_all. rewrite forallb_forall. split; intros H c Hc.
  - apply matching_In, Set_has_In, H, Hc.
  - apply Set_has_In, matching_In, H, Hc.
Qed.

(** The candidates with which stage 3 is entered, for a configuration with
    some base bound or some record constraint. *)
Lemma final_candidates (Y : Z) (config : QueryConfig) (s : list Z) :
  oierConditions Y config <> [] \/ recordConstraints config <> [] ->
  narrowed_by_all d
    (match oierConditions Y config with
     | [] => None
     | ks => Some (Set_of (run_SelectUidFromOIer d ks))
     end) (recordConstraints config) = Some s ->
  NoDup s /\
  forall x, In x s <->
            (oierConditions Y config <> [] -> passes_base d Y config x) /\
            forall constraint, In constraint (recordConstraints config) ->
                               has_matching_record d constraint x.
Proof.
  intros H Es.
  destruct (oierConditions Y config) as [| k ks'] eqn:Eks.
  - destruct H as [H | H]; [congruence |].
    destruct (recordConstraints config) as [| c rest] eqn:Ers; [congruence |].
    destruct (narrowed_by_all_null d c rest) as [s' [E [N M]]].
    rewrite E in Es. injection Es as <-. split; [exact N |].
    intros x. rewrite M, matches_all_spec.
    split; [intros Hm; split; [congruence | exact Hm] | tauto].
  - rewrite narrowed_by_all_filter in Es. injection Es as <-.
    split; [apply NoDup_filter, Set_of_NoDup |].
    intros x. rewrite filter_In, Set_of_In, matches_all_spec.
    rewrite <- Eks, base_lookup_In. split.
    + intros [Hb Hm]. auto.
    + intros [Hb Hm]. split; [apply Hb; rewrite Eks; discriminate | exact Hm].
Qed.

(** The rows of a constrained query of which the store refuses no
    statement. *)
Lemma matching_rows (Y : Z) (config : QueryConfig) :
  oierConditions Y config <> [] \/ recordConstraints config <> [] ->
  unrefused (findOiers (Some d) Y config) ->
  exists log rows keep,
    findOiers (Some d) Y config = (log, inr (map ObjectRow rows)) /\
    executeQuery (Some d) Y (Some config) = (log, ResultsPage (cleanConfig config) rows) /\
    StronglySorted score_desc rows /\
    Permutation rows (filter keep (OIer_table d)) /\
    forall o, In o rows <->
              In o (OIer_table d) /\
              (oierConditions Y config <> [] -> passes_base d Y config (uid o)) /\
              forall constraint, In constraint (recordConstraints config) ->
                                 has_matching_record d constraint (uid o).
Proof.
  intros H U.
  destruct (@filtered_rows d Y config H U) as [log [log' [st [s [En [Hc [Es Ef]]]]]]].
  rewrite Es in Hc. symmetry in Hc.
  destruct (final_candidates Y config H Hc) as [_ M].
  eexists log, _, (fun o => Set_has s (uid o)).
  split; [exact Ef |]. split; [| split; [| split]].
  - unfold executeQuery. rewrite Ef. unfold bind, displayResults.
    rewrite table_rows_objects. cbn. now rewrite app_nil_r.
  - apply order_by_score_desc_sorted.
  - apply order_by_score_desc_perm.
  - intros o. rewrite order_by_score_desc_In, filter_In, Set_has_In, M. tauto.
Qed.

End Matches.

(** C9 (as the code has it).  For a configuration with at least one base
    bound or record constraint, an evaluation on an initialised store of
    which the store refuses no statement shows the rows returned by
    [findOiers], which are the rows of [OIer] whose identifier is in the
    final candidate set, by non-increasing [oierdb_score] (when the
    identifiers of the store are integers that a JS number holds exactly,
    these are the enrollees that pass the base bounds and own, for every
    record constraint, a joined record that satisfies it), together with the
    configuration as it was supplied, less its entries that are absent, empty
    or all-null: a bound pair without present side and an empty sequence of
    records are dropped, and every other entry is shown as supplied,
    [grade_range] as grades, whatever the current year.  When the store
    refuses a statement, the evaluation shows the alert of the store's error
    instead; once the narrowing has returned, that happens exactly when more
    than 32766 candidates are left for the final fetch. *)
Theorem displayed_output (d : Database) (currentYear : Z) (config : QueryConfig) :
  oierConditions currentYear config <> [] \/ recordConstraints config <> [] ->
  (if forallb accepted (fst (findOiers (Some d) currentYear config))
   then exists log log' st rows,
          narrowed (Some d) currentYear config = (log', inr st) /\
          findOiers (Some d) currentYear config = (log, inr (map ObjectRow rows)) /\
          executeQuery (Some d) currentYear (Some config) =
            (log, ResultsPage (cleanConfig config) rows) /\
          StronglySorted score_desc rows /\
          (forall o, In o rows <->
                     In o (OIer_table d) /\
                     exists s, candidateUids st = Some s /\ In (uid o) s) /\
          (safe_identifiers d ->
           forall o, In o rows <->
                     In o (OIer_table d) /\
                     (oierConditions currentYear config <> [] ->
                      passes_base d currentYear config (uid o)) /\
                     forall constraint, In constraint (recordConstraints config) ->
                                        has_matching_record d constraint (uid o))
   else executeQuery (Some d) currentYear (Some config) =
          (fst (findOiers (Some d) currentYear config),
           ErrorAlert "Query execution failed: too many SQL variables")) /\
  (forall log' st,
     narrowed (Some d) currentYear config = (log', inr st) ->
     exists s, candidateUids st = Some s /\
               forallb accepted (fst (findOiers (Some d) currentYear config)) =
                 (N.of_nat (List.length s) <=? 32766)%N) /\
  ((unbounded (enroll_year_range config) ->
    enroll_year_range (cleanConfig config) = None) /\
   (~ unbounded (enroll_year_range config) ->
    enroll_year_range (cleanConfig config) = enroll_year_range config) /\
   (unbounded (grade_range config) -> grade_range (cleanConfig config) = None) /\
   (~ unbounded (grade_range config) ->
    grade_range (cleanConfig config) = grade_range config) /\
   (recordConstraints config = [] -> records (cleanConfig config) = None) /\
   (recordConstraints config <> [] -> records (cleanConfig config) = records config)) /\
  sides (enroll_year_range (cleanConfig config)) = sides (enroll_year_range config) /\
  sides (grade_range (cleanConfig config)) = sides (grade_range config) /\
  recordConstraints (cleanConfig config) = recordConstraints config.
Proof.
  intros H. split; [| split; [| split; [apply cleanConfig_pruned | apply cleanConfig_sides]]].
  2: { intros log' st E.
       destruct (fetch_decides d currentYear config H E) as [s [Hs [_ Ha]]]. eauto. }
  destruct (forallb accepted (fst (findOiers (Some d) currentYear config))) eqn:A.
  - destruct (@filtered_rows d currentYear config H A) as [log [log' [st [s [En [Hc [Es Ef]]]]]]].
    assert (Hc' : narrowed_by_all d
                    (match oierConditions currentYear config with
                     | [] => None
                     | ks => Some (Set_of (run_SelectUidFromOIer d ks))
                     end) (recordConstraints config) = Some s) by congruence.
    destruct (@final_candidates d currentYear config s H Hc') as [_ M].
    eexists log, log', st, _. split; [exact En |]. split; [exact Ef |].
    split; [| split; [| split]].
    + unfold executeQuery. rewrite Ef. unfold bind, displayResults.
      rewrite table_rows_objects. cbn. now rewrite app_nil_r.
    + apply order_by_score_desc_sorted.
    + intros o. rewrite order_by_score_desc_In, filter_In, Set_has_In. split.
      * intros [Hin Hu]. split; [exact Hin |]. exists s. auto.
      * intros [Hin [s' [Es' Hu]]]. rewrite Es in Es'. injection Es' as <-. auto.
    + intros _ o. rewrite order_by_score_desc_In, filter_In, Set_has_In, M. tauto.
  - now apply executeQuery_refused.
Qed.

Lemma displayed_output_witness :
  (if forallb accepted (fst (findOiers (Some scenario_db) 2024 two_records_config))
   then exists log log' st rows,
          narrowed (Some scenario_db) 2024 two_records_config = (log', inr st) /\
          findOiers (Some scenario_db) 2024 two_records_config =
            (log, inr (map ObjectRow rows)) /\
          executeQuery (Some scenario_db) 2024 (Some two_records_config) =
            (log, ResultsPage (cleanConfig two_records_config) rows) /\
          StronglySorted score_desc rows /\
          (forall o, In o rows <->
                     In o (OIer_table scenario_db) /\
                     exists s, candidateUids st = Some s /\ In (uid o) s) /\
          (safe_identifiers scenario_db ->
           forall o, In o rows <->
                     In o (OIer_table scenario_db) /\
                     (oierConditions 2024 two_records_config <> [] ->
                      passes_base scenario_db 2024 two_records_config (uid o)) /\
                     forall constraint, In constraint (recordConstraints two_records_config) ->
                                        has_matching_record scenario_db constraint (uid o))
   else executeQuery (Some scenario_db) 2024 (Some two_records_config) =
          (fst (findOiers (Some scenario_db) 2024 two_records_config),
           ErrorAlert "Query execution failed: too many SQL variables")) /\
  (forall log' st,
     narrowed (Some scenario_db) 2024 two_records_config = (log', inr st) ->
     exists s, candidateUids st = Some s /\
               forallb accepted (fst (findOiers (Some scenario_db) 2024 two_records_config)) =
                 (N.of_nat (List.length s) <=? 32766)%N) /\
  ((unbounded (enroll_year_range two_records_config) ->
    enroll_year_range (cleanConfig two_records_config) = None) /\
   (~ unbounded (enroll_year_range two_records_config) ->
    enroll_year_range (cleanConfig two_records_config) =
    enroll_year_range two_records_config) /\
   (unbounded (grade_range two_records_config) ->
    grade_range (cleanConfig two_records_config) = None) /\
   (~ unbounded (grade_range two_records_config) ->
    grade_range (cleanConfig two_records_config) = grade_range two_records_config) /\
   (recordConstraints two_records_config = [] ->
    records (cleanConfig two_records_config) = None) /\
   (recordConstraints two_records_config <> [] ->
    records (cleanConfig two_records_config) = records two_records_config)) /\
  sides (enroll_year_range (cleanConfig two_records_config)) =
    sides (enroll_year_range two_records_config) /\
  sides (grade_range (cleanConfig two_records_config)) =
    sides (grade_range two_records_config) /\
  recordConstraints (cleanConfig two_records_config) =
    recordConstraints two_records_config.
Proof.
  apply (@displayed_output scenario_db 2024 two_records_config).
  right. discriminate.
Defined.

(** C9, as stated, fails: for the grade window [[1, 3]] in 2024 the
    configuration shown with the results is the one supplied, with
    [grade_range = [1, 3]] and no enrollment-year bound, not the normalized
    one with the enrollment-year bound [[2028, 2030]]; the same page is shown
    in 2025, when the translation gives another window. *)
Lemma displayed_config_not_normalized :
  executeQuery (Some scenario_db) 2024 (Some grades_1_3_config) =
    ([SelectUidFromOIer [AtLeast col_enroll_middle (int_value 2028);
                         AtMost col_enroll_middle (int_value 2030)]],
     ResultsPage grades_1_3_config []) /\
  spec_normalized_config 2024 grades_1_3_config =
    {| enroll_year_range := Some (Some 2028, Some 2030);
       grade_range := None; records := None |} /\
  grades_1_3_config <> spec_normalized_config 2024 grades_1_3_config /\
  snd (executeQuery (Some scenario_db) 2025 (Some grades_1_3_config)) =
  snd (executeQuery (Some scenario_db) 2024 (Some grades_1_3_config)) /\
  spec_normalized_config 2025 grades_1_3_config <>
  spec_normalized_config 2024 grades_1_3_config.
Proof.
  split; [reflexivity |]. split; [reflexivity |].
  split; [discriminate |]. split; [reflexivity | discriminate].
Qed.

(** The rows of the unfiltered query are arrays of values, which
    [displayResults] cannot render: with a non-empty [OIer] table the page
    shown for a configuration without any constraint is the alert of the
    [TypeError] thrown while building the first table row. *)
Remark unfiltered_rows_are_not_displayed (d : Database) (currentYear : Z)
    (config : QueryConfig) :
  unbounded (enroll_year_range config) ->
  unbounded (grade_range config) ->
  recordConstraints config = [] ->
  OIer_table d <> [] ->
  executeQuery (Some d) currentYear (Some config) =
    ([SelectAllOIersOrdered],
     ErrorAlert "Query execution failed: Cannot read properties of undefined (reading 'toFixed')").
Proof.
  intros He Hg Hr Hne.
  assert (E : findOiers (Some d) currentYear config =
              ([SelectAllOIersOrdered],
               inr (map ValuesRow (order_by_score_desc (OIer_table d))))).
  { unfold findOiers, narrowed, initial_state, base_filter, oierConditions,
      enroll_conditions, grade_conditions.
    rewrite Hr. destruct He as [-> | ->], Hg as [-> | ->]; reflexivity. }
  unfold executeQuery. rewrite E. unfold bind, displayResults.
  destruct (order_by_score_desc (OIer_table d)) as [| o l] eqn:Eo.
  - exfalso. apply Hne.
    pose proof (order_by_score_desc_perm (OIer_table d)) as P. rewrite Eo in P.
    now apply Permutation_nil in P.
  - reflexivity.
Qed.

(** ** The scenarios of the specification *)

(** Scenario A: no constraint at all. *)
Example scenario_A :
  findOiers (Some scenario_db) 2024 empty_config =
  ([SelectAllOIersOrdered],
   inr [ValuesRow (mkOIer 1 "uid1" 2020 (90 # 1)); ValuesRow (mkOIer 2 "uid2" 2021 (80 # 1))]).
Proof. reflexivity. Qed.

(** Scenario B: [enroll_year_range = [2021, null]]. *)
Example scenario_B :
  findOiers (Some scenario_db) 2024
    {| enroll_year_range := Some (Some 2021, None); grade_range := None; records := None |} =
  ([SelectUidFromOIer [AtLeast col_enroll_middle (int_value 2021)];
    SelectOIersInOrdered [2]],
   inr [ObjectRow (mkOIer 2 "uid2" 2021 (80 # 1))]).
Proof. reflexivity. Qed.

(** Scenario C: two record constraints matching disjoint sets; the second
    lookup is scoped to the one candidate left by the first, and no row is
    fetched. *)
Example scenario_C :
  findOiers (Some scenario_db) 2024
    {| enroll_year_range := None; grade_range := None; records := Some [from_BJ; from_SH] |} =
  ([SelectDistinctOierUid [Member col_r_province [VText "BJ"]];
    SelectDistinctOierUid [Member col_r_province [VText "SH"];
                           Member col_r_oier_uid [int_value 2]]],
   inr []).
Proof. reflexivity. Qed.

(** The clause and values compiled for a constraint with bounds and sets. *)
Example buildWhereClauseAndValues_example :
  buildWhereClauseAndValues
    {| year_range := Some (Some 2019, Some 2020); rank_range := Some (None, Some 10);
       score_range := None; province := Some ["BJ"; "SH"]; contest_type := Some [];
       level_range := None |} =
  ("c.year >= ? AND c.year <= ? AND r.rank <= ? AND r.province IN (?,?)",
   [int_value 2019; int_value 2020; int_value 10; VText "BJ"; VText "SH"]).
Proof. reflexivity. Qed.

(** The statements of scenario C as they are sent, with their bound values:
    the second one carries the scope appended to [finalWhere]. *)
Example scenario_C_sql :
  map (fun q => (sql_text q, sql_values q))
    (fst (findOiers (Some scenario_db) 2024
            {| enroll_year_range := None; grade_range := None;
               records := Some [from_BJ; from_SH] |})) =
  [("SELECT DISTINCT r.oier_uid FROM Record r JOIN Contest c ON r.contest_id = c.id WHERE r.province IN (?)",
    [VText "BJ"]);
   ("SELECT DISTINCT r.oier_uid FROM Record r JOIN Contest c ON r.contest_id = c.id WHERE r.province IN (?) AND r.oier_uid IN (?)",
    [VText "SH"; int_value 2])].
Proof. reflexivity. Qed.

(** A constraint without any field, looked up in enumeration mode. *)
Example scoped_tautology_sql :
  map (fun q => (sql_text q, sql_values q))
    (fst (findOiers (Some scenario_db) 2024
            {| enroll_year_range := Some (Some 2021, None); grade_range := None;
               records := Some [any_record] |})) =
  [("SELECT uid FROM OIer WHERE enroll_middle >= ?", [int_value 2021]);
   ("SELECT DISTINCT r.oier_uid FROM Record r JOIN Contest c ON r.contest_id = c.id WHERE 1=1 AND r.oier_uid IN (?)",
    [int_value 2]);
   ("SELECT * FROM OIer WHERE uid IN (?) ORDER BY oierdb_score DESC", [int_value 2])].
Proof. reflexivity. Qed.

(** The threshold is strict: 20 candidates left by a constraint do not
    switch the mode on, 19 do. *)
Example threshold_20_not_scoped :
  map sql_text (fst (findOiers (Some (uniform_db 20)) 2024 two_any_config)) =
  ["SELECT DISTINCT r.oier_uid FROM Record r JOIN Contest c ON r.contest_id = c.id WHERE 1=1";
   "SELECT DISTINCT r.oier_uid FROM Record r JOIN Contest c ON r.contest_id = c.id WHERE 1=1";
   "SELECT * FROM OIer WHERE uid IN (?,?,?,?,?,?,?,?,?,?,?,?,?,?,?,?,?,?,?,?) ORDER BY oierdb_score DESC"].
Proof. vm_compute. reflexivity. Qed.

Example threshold_19_scoped :
  map sql_text (fst (findOiers (Some (uniform_db 19)) 2024 two_any_config)) =
  ["SELECT DISTINCT r.oier_uid FROM Record r JOIN Contest c ON r.contest_id = c.id WHERE 1=1";
   "SELECT DISTINCT r.oier_uid FROM Record r JOIN Contest c ON r.contest_id = c.id WHERE 1=1 AND r.oier_uid IN (?,?,?,?,?,?,?,?,?,?,?,?,?,?,?,?,?,?,?)";
   "SELECT * FROM OIer WHERE uid IN (?,?,?,?,?,?,?,?,?,?,?,?,?,?,?,?,?,?,?) ORDER BY oierdb_score DESC"].
Proof. vm_compute. reflexivity. Qed.

(** * Further properties of the engine *)

(** ** The rows a filtered query returns *)

(** X1.  For a configuration with at least one base bound or record
    constraint, on an initialised store whose identifiers are integers that
    a JS number holds exactly: when the store refuses no statement of the
    run, [findOiers] returns those rows of [OIer], each as often as it is in
    the table and by non-increasing [oierdb_score], whose identifier passes
    the base bounds (when there are any) and owns, for every record
    constraint, a record joined to its contest that satisfies the constraint
    (different constraints may be met by different records); when the store
    refuses a statement, [findOiers] throws the store's error. *)
Theorem returned_rows_are_the_matches (d : Database) (Y : Z) (config : QueryConfig) :
  oierConditions Y config <> [] \/ recordConstraints config <> [] ->
  safe_identifiers d ->
  if forallb accepted (fst (findOiers (Some d) Y config))
  then exists log rows keep,
         findOiers (Some d) Y config = (log, inr (map ObjectRow rows)) /\
         StronglySorted score_desc rows /\
         Permutation rows (filter keep (OIer_table d)) /\
         forall o, In o rows <->
                   In o (OIer_table d) /\
                   (oierConditions Y config <> [] -> passes_base d Y config (uid o)) /\
                   forall constraint, In constraint (recordConstraints config) ->
                                      has_matching_record d constraint (uid o)
  else snd (findOiers (Some d) Y config) = inl too_many_variables.
Proof.
  intros H _.
  destruct (forallb accepted (fst (findOiers (Some d) Y config))) eqn:A.
  - destruct (@matching_rows d Y config H A) as [log [rows [keep [Ef [_ M]]]]].
    exists log, rows, keep. split; [exact Ef | exact M].
  - now apply findOiers_refused.
Qed.

Lemma returned_rows_are_the_matches_witness :
  if forallb accepted (fst (findOiers (Some scenario_db) 2024 two_records_config))
  then exists log rows keep,
         findOiers (Some scenario_db) 2024 two_records_config =
           (log, inr (map ObjectRow rows)) /\
         StronglySorted score_desc rows /\
         Permutation rows (filter keep (OIer_table scenario_db)) /\
         forall o, In o rows <->
                   In o (OIer_table scenario_db) /\
                   (oierConditions 2024 two_records_config <> [] ->
                    passes_base scenario_db 2024 two_records_config (uid o)) /\
                   forall constraint, In constraint (recordConstraints two_records_config) ->
                                      has_matching_record scenario_db constraint (uid o)
  else snd (findOiers (Some scenario_db) 2024 two_records_config) = inl too_many_variables.
Proof.
  apply (@returned_rows_are_the_matches scenario_db 2024 two_records_config).
  - right. discriminate.
  - exact scenario_db_safe.
Defined.

(** ** How many statements a run sends *)

Section Cost.

Lemma iterations_length db (rs : list RecordConstraint) (st : state) :
  (List.length (iterations db st rs) <= List.length rs)%nat.
Proof.
  revert st. induction rs as [| c rs IH]; intros st; cbn [iterations List.length]; [lia |].
  destruct (narrow_step db st c) as [log [e | st']]; cbn [List.length]; [lia |].
  destruct (breaks st'); cbn [List.length]; [lia |]. specialize (IH st'). lia.
Qed.

(** Each executed iteration hands one record lookup to the store. *)
Lemma lookups_sound (d : Database) (its : list iteration) :
  Forall (sound_iteration d) its ->
  lookups its = map (fun it => lookup_of (before it) (processed it)) its.
Proof.
  induction 1 as [| it its Hs _ IH]; [reflexivity |].
  unfold lookups in *. cbn [flat_map map]. rewrite IH.
  destruct Hs as [_ E]. now rewrite E.
Qed.

End Cost.

(** X2.  A run of [findOiers] hands no statement to the store when the store
    handle is unassigned.  On an initialised store it hands over, in this
    order: one lookup in [OIer] exactly when the configuration has a base
    bound; one record lookup for each executed iteration of the loop, at
    most one per record constraint; and at most one statement that fetches
    rows of [OIer]: never more than the number of record constraints plus
    two. *)
Theorem statements_sent_bound (Y : Z) (config : QueryConfig) :
  fst (findOiers None Y config) = [] /\
  forall d : Database,
    exists sent fetch,
      fst (findOiers (Some d) Y config) =
        (match oierConditions Y config with
         | [] => []
         | ks => [SelectUidFromOIer ks]
         end ++ sent ++ fetch)%list /\
      Forall (fun q => exists ks, q = SelectDistinctOierUid ks) sent /\
      (List.length sent <= List.length (recordConstraints config))%nat /\
      (fetch = [] \/ fetch = [SelectAllOIersOrdered] \/
       exists s, fetch = [SelectOIersInOrdered s]) /\
      (List.length (fst (findOiers (Some d) Y config)) <=
       List.length (recordConstraints config) + 2)%nat.
Proof.
  split; [now rewrite findOiers_uninitialised |].
  intros d.
  destruct (findOiers_run d Y config) as [log0 [st0 [E0 [Hinv H]]]]. cbv zeta in H.
  destruct (initial_state_run d Y config) as [st1 [E1 _]].
  rewrite E0 in E1. injection E1 as El _.
  set (its := iterations (Some d) st0 (recordConstraints config)) in *.
  pose proof (@iterations_sound d (recordConstraints config) _ Hinv) as Hsound.
  fold its in Hsound.
  assert (Hsent : Forall (fun q => exists ks, q = SelectDistinctOierUid ks) (lookups its)).
  { rewrite (lookups_sound Hsound). apply Forall_forall. intros q Hq.
    apply in_map_iff in Hq. destruct Hq as [it [<- _]]. eexists. reflexivity. }
  assert (Hlen : (List.length (lookups its) <= List.length (recordConstraints config))%nat).
  { rewrite (lookups_sound Hsound), length_map. apply iterations_length. }
  assert (Hbase : (List.length log0 <= 1)%nat).
  { rewrite El. destruct (oierConditions Y config); cbn; lia. }
  assert (Elog : log0 = match oierConditions Y config with
                        | [] => []
                        | ks => [SelectUidFromOIer ks]
                        end).
  { rewrite El. now destruct (oierConditions Y config). }
  destruct (forallb accepted (lookups its)).
  - destruct H as [st [_ [_ Ef]]].
    exists (lookups its),
           (fst (materialize (Some d) (oierConditions Y config) (recordConstraints config)
                   (candidateUids st))).
    assert (Hfetch :
      let fetch := fst (materialize (Some d) (oierConditions Y config)
                          (recordConstraints config) (candidateUids st)) in
      fetch = [] \/ fetch = [SelectAllOIersOrdered] \/
      exists s, fetch = [SelectOIersInOrdered s]).
    { cbv zeta. destruct (candidateUids st) as [[| x s] |].
      - rewrite materialize_empty. now left.
      - rewrite materialize_candidates. right. right. eexists. reflexivity.
      - destruct (oierConditions Y config), (recordConstraints config); cbn; auto. }
    rewrite Ef. cbn [fst]. rewrite <- Elog, <- app_assoc.
    split; [reflexivity |]. split; [exact Hsent |]. split; [exact Hlen |].
    split; [exact Hfetch |].
    rewrite !length_app.
    destruct Hfetch as [-> | [-> | [s ->]]]; cbn [List.length]; lia.
  - destruct H as [_ Ef]. exists (lookups its), [].
    rewrite Ef. cbn [fst]. rewrite <- Elog, app_nil_r.
    split; [reflexivity |]. split; [exact Hsent |]. split; [exact Hlen |].
    split; [now left |]. rewrite length_app. lia.
Qed.

(** ** The configuration shown can be evaluated again *)

Lemma cleanConfig_oierConditions (Y : Z) (config : QueryConfig) :
  oierConditions Y (cleanConfig config) = oierConditions Y config.
Proof.
  unfold oierConditions, enroll_conditions, grade_conditions, cleanConfig.
  cbn [enroll_year_range grade_range].
  destruct (enroll_year_range config) as [[[a |] [b |]] |],
           (grade_range config) as [[[a' |] [b' |]] |]; reflexivity.
Qed.

Lemma cleanConfig_recordConstraints (config : QueryConfig) :
  recordConstraints (cleanConfig config) = recordConstraints config.
Proof.
  unfold recordConstraints, cleanConfig. cbn [records].
  now destruct (records config) as [[| c rs] |].
Qed.

Lemma cleanConfig_idempotent (config : QueryConfig) :
  cleanConfig (cleanConfig config) = cleanConfig config.
Proof.
  unfold cleanConfig. cbn [enroll_year_range grade_range records].
  destruct (enroll_year_range config) as [[[a |] [b |]] |],
           (grade_range config) as [[[a' |] [b' |]] |],
           (records config) as [[| c rs] |]; reflexivity.
Qed.

(** [findOiers] reads its configuration through [oierConditions] and
    [recordConstraints] only. *)
Lemma findOiers_reads (db : option Database) (Y : Z) (config config' : QueryConfig) :
  oierConditions Y config = oierConditions Y config' ->
  recordConstraints config = recordConstraints config' ->
  findOiers db Y config = findOiers db Y config'.
Proof.
  intros Ek Er. unfold findOiers, narrowed, initial_state. now rewrite Ek, Er.
Qed.

(** X4.  Pruning is idempotent, and the pruned configuration that a results
    page shows denotes the same query as the one submitted: evaluating it
    sends the same statements, returns the same rows and shows the same
    page. *)
Theorem shown_config_reevaluates (db : option Database) (Y : Z) (config : QueryConfig) :
  cleanConfig (cleanConfig config) = cleanConfig config /\
  findOiers db Y (cleanConfig config) = findOiers db Y config /\
  executeQuery db Y (Some (cleanConfig config)) = executeQuery db Y (Some config).
Proof.
  assert (E : findOiers db Y (cleanConfig config) = findOiers db Y config).
  { apply findOiers_reads;
      [apply cleanConfig_oierConditions | apply cleanConfig_recordConstraints]. }
  split; [apply cleanConfig_idempotent |]. split; [exact E |].
  unfold executeQuery, displayResults. now rewrite E, cleanConfig_idempotent.
Qed.

(** ** The unconstrained query and the constrained ones *)

Lemma findOiers_unfiltered (d : Database) (Y : Z) (config : QueryConfig) :
  oierConditions Y config = [] ->
  recordConstraints config = [] ->
  findOiers (Some d) Y config =
    ([SelectAllOIersOrdered], inr (map ValuesRow (order_by_score_desc (OIer_table d)))).
Proof.
  intros Ek Er. unfold findOiers, narrowed, initial_state, base_filter.
  now rewrite Ek, Er.
Qed.

Lemma table_rows_values (o : OIer) (l : list OIer) :
  table_rows (map ValuesRow (o :: l)) = throw (cannot_read "undefined" "toFixed").
Proof. reflexivity. Qed.

(** The page of the unconstrained query on a non-empty table. *)
Lemma executeQuery_unfiltered (d : Database) (Y : Z) (config : QueryConfig) :
  oierConditions Y config = [] ->
  recordConstraints config = [] ->
  OIer_table d <> [] ->
  executeQuery (Some d) Y (Some config) =
    ([SelectAllOIersOrdered],
     ErrorAlert "Query execution failed: Cannot read properties of undefined (reading 'toFixed')").
Proof.
  intros Ek Er Hne. unfold executeQuery.
  rewrite (findOiers_unfiltered d Y config Ek Er). unfold bind, displayResults.
  destruct (order_by_score_desc (OIer_table d)) as [| o l] eqn:Eo.
  - exfalso. apply Hne.
    pose proof (order_by_score_desc_perm (OIer_table d)) as P. rewrite Eo in P.
    now apply Permutation_nil in P.
  - reflexivity.
Qed.

Lemma returned_unfiltered (d : Database) (Y : Z) (config : QueryConfig) (o : OIer) :
  oierConditions Y config = [] ->
  recordConstraints config = [] ->
  In o (returned (findOiers (Some d) Y config)) <-> In o (OIer_table d).
Proof.
  intros Ek Er. unfold returned. rewrite (findOiers_unfiltered d Y config Ek Er).
  cbn [snd]. rewrite map_map. cbn [row_oier]. rewrite map_id.
  apply order_by_score_desc_In.
Qed.

(** The rows of a constrained query are rows of the table that match; they
    are all of these when the store refuses no statement. *)
Lemma returned_filtered (d : Database) (Y : Z) (config : QueryConfig) (o : OIer) :
  oierConditions Y config <> [] \/ recordConstraints config <> [] ->
  (In o (returned (findOiers (Some d) Y config)) ->
   In o (OIer_table d) /\
   (oierConditions Y config <> [] -> passes_base d Y config (uid o)) /\
   forall constraint, In constraint (recordConstraints config) ->
                      has_matching_record d constraint (uid o)) /\
  (unrefused (findOiers (Some d) Y config) ->
   In o (OIer_table d) ->
   (oierConditions Y config <> [] -> passes_base d Y config (uid o)) ->
   (forall constraint, In constraint (recordConstraints config) ->
                       has_matching_record d constraint (uid o)) ->
   In o (returned (findOiers (Some d) Y config))).
Proof.
  intros H.
  assert (Hu : unrefused (findOiers (Some d) Y config) ->
               forall o', In o' (returned (findOiers (Some d) Y config)) <->
                 In o' (OIer_table d) /\
                 (oierConditions Y config <> [] -> passes_base d Y config (uid o')) /\
                 forall constraint, In constraint (recordConstraints config) ->
                                    has_matching_record d constraint (uid o')).
  { intros U o'.
    destruct (@matching_rows d Y config H U) as [log [rows [keep [Ef [_ [_ [_ M]]]]]]].
    unfold returned. rewrite Ef. cbn [snd]. rewrite map_map. cbn [row_oier].
    rewrite map_id. apply M. }
  split.
  - intros Hin.
    destruct (forallb accepted (fst (findOiers (Some d) Y config))) eqn:A.
    + now apply (Hu A).
    + apply findOiers_refused in A. unfold returned in Hin. rewrite A in Hin. destruct Hin.
  - intros U H1 H2 H3. apply (Hu U). auto.
Qed.

(** X5.  Adding record constraints never adds rows: on an initialised store
    whose identifiers are integers that a JS number holds exactly, when
    every record constraint of a configuration is also one of a second
    configuration with the same base bounds, and the store refuses no
    statement of the evaluation of the first, every enrollee returned for
    the second is returned for the first. *)
Theorem more_constraints_fewer_rows (d : Database) (Y : Z) (config : QueryConfig)
    (rs rs' : list RecordConstraint) (o : OIer) :
  incl rs rs' ->
  safe_identifiers d ->
  unrefused (findOiers (Some d) Y (with_records config rs)) ->
  In o (returned (findOiers (Some d) Y (with_records config rs'))) ->
  In o (returned (findOiers (Some d) Y (with_records config rs))).
Proof.
  intros Hincl _ U Hin.
  assert (Ek : oierConditions Y (with_records config rs') =
               oierConditions Y (with_records config rs)) by reflexivity.
  destruct (oierConditions Y (with_records config rs)) as [| k ks] eqn:Eks.
  - destruct rs as [| c rs].
    + apply returned_unfiltered; [exact Eks | reflexivity |].
      destruct rs' as [| c' rs'].
      * now apply returned_unfiltered in Hin.
      * apply returned_filtered in Hin; [tauto | right; discriminate].
    + assert (H' : rs' <> []).
      { intros ->. destruct (Hincl c). now left. }
      apply returned_filtered in Hin; [| right; exact H'].
      apply returned_filtered; [right; discriminate | exact U | tauto | |].
      * intros Hne. rewrite Eks in Hne. congruence.
      * intros c0 Hc0. apply Hin. cbn [recordConstraints with_records records] in *.
        now apply Hincl.
  - assert (Hne : oierConditions Y (with_records config rs') <> [])
      by (rewrite Ek; discriminate).
    apply returned_filtered in Hin; [| left; exact Hne].
    apply returned_filtered; [left; rewrite Eks; discriminate | exact U | tauto | |].
    + intros _. destruct Hin as [_ [Hb _]]. exact (Hb Hne).
    + intros c0 Hc0. apply Hin. cbn [recordConstraints with_records records] in *.
      now apply Hincl.
Qed.

Lemma more_constraints_fewer_rows_witness :
  In (mkOIer 1 "uid1" 2020 (90 # 1))
     (returned (findOiers (Some scenario_db) 2024 (with_records empty_config [from_SH]))).
Proof.
  apply (@more_constraints_fewer_rows scenario_db 2024 empty_config
           [from_SH] [since_2020; from_SH]).
  - intros c [<- | []]. right. now left.
  - exact scenario_db_safe.
  - reflexivity.
  - vm_compute. now left.
Defined.

(** * The helper functions *)

(** ** Trimming and splitting *)

Section Strings.

Lemma trimStart_head (s : string) :
  trimStart s = EmptyString \/
  exists c t, trimStart s = String c t /\ is_space c = false.
Proof.
  induction s as [| c s IH]; cbn [trimStart]; [now left |].
  destruct (is_space c) eqn:E; [exact IH |]. right. now exists c, s.
Qed.

Lemma trimEnd_head (c : ascii) (s : string) :
  is_space c = false -> exists t, trimEnd (String c s) = String c t.
Proof.
  intros E. cbn [trimEnd]. rewrite E. destruct (trimEnd s); eexists; reflexivity.
Qed.

Lemma trimEnd_idempotent (s : string) : trimEnd (trimEnd s) = trimEnd s.
Proof.
  induction s as [| c s IH]; [reflexivity |].
  cbn [trimEnd]. destruct (trimEnd s) as [| c' t] eqn:E.
  - destruct (is_space c) eqn:Ec; [reflexivity |]. cbn [trimEnd]. now rewrite Ec.
  - cbn [trimEnd]. cbn [trimEnd] in IH.
    destruct (trimEnd t) as [| c'' t'] eqn:Et.
    + destruct (is_space c') eqn:Ec'; [discriminate |]. now rewrite IH.
    + now rewrite IH.
Qed.

Lemma trim_idempotent (s : string) : trim (trim s) = trim s.
Proof.
  unfold trim. destruct (trimStart_head s) as [E | [c [t [E Ec]]]]; rewrite E.
  - reflexivity.
  - destruct (@trimEnd_head c t Ec) as [t' Et]. rewrite Et.
    cbn [trimStart]. rewrite Ec, <- Et. apply trimEnd_idempotent.
Qed.

Lemma count_char_trimStart (c : ascii) (s : string) :
  (count_char c (trimStart s) <= count_char c s)%nat.
Proof.
  induction s as [| a s IH]; cbn [trimStart count_char]; [lia |].
  destruct (is_space a); cbn [count_char]; lia.
Qed.

Lemma count_char_trimEnd (c : ascii) (s : string) :
  (count_char c (trimEnd s) <= count_char c s)%nat.
Proof.
  induction s as [| a s IH]; cbn [trimEnd count_char]; [lia |].
  destruct (trimEnd s) as [| a' t]; [destruct (is_space a) |]; cbn [count_char] in *; lia.
Qed.

Lemma count_char_trim (c : ascii) (s : string) :
  (count_char c (trim s) <= count_char c s)%nat.
Proof.
  unfold trim. pose proof (count_char_trimEnd c (trimStart s)).
  pose proof (count_char_trimStart c s). lia.
Qed.

Lemma split_pieces (sep : ascii) (s : string) :
  Forall (fun piece => count_char sep piece = 0%nat) (split sep s).
Proof.
  induction s as [| c s IH]; cbn [split]; [repeat constructor |].
  destruct (Ascii.eqb c sep) eqn:E; [constructor; [reflexivity | exact IH] |].
  destruct (split sep s) as [| piece rest]; cbn [cons_first].
  - constructor; [| constructor]. cbn [count_char]. now rewrite E.
  - inversion IH as [| ? ? Hp Hr]; subst. constructor; [| exact Hr].
    cbn [count_char]. now rewrite E, Hp.
Qed.

Lemma split_plain (sep : ascii) (s : string) :
  count_char sep s = 0%nat -> split sep s = [s].
Proof.
  induction s as [| c s IH]; cbn [split count_char]; [reflexivity |].
  destruct (Ascii.eqb c sep); [discriminate |].
  intros H. rewrite IH by exact H. reflexivity.
Qed.

Lemma split_app (sep : ascii) (a b : string) :
  count_char sep a = 0%nat ->
  split sep (a ++ String sep b) = a :: split sep b.
Proof.
  induction a as [| c a IH]; cbn [split count_char String.append].
  - intros _. now rewrite Ascii.eqb_refl.
  - destruct (Ascii.eqb c sep); [discriminate |].
    intros H. rewrite IH by exact H. reflexivity.
Qed.

Lemma split_concat (sep : ascii) (items : list string) :
  items <> [] ->
  Forall (fun x => count_char sep x = 0%nat) items ->
  split sep (String.concat (String sep EmptyString) items) = items.
Proof.
  induction items as [| x items IH]; [congruence |].
  intros _ H. inversion H as [| ? ? Hx Hr]; subst.
  destruct items as [| y items].
  - cbn [String.concat]. now apply split_plain.
  - change (String.concat (String sep EmptyString) (x :: y :: items))
      with (x ++ String sep (String.concat (String sep EmptyString) (y :: items)))%string.
    rewrite split_app by exact Hx. now rewrite IH.
Qed.

End Strings.

(** ** [getListOrNull] *)

(** An element that [getListOrNull] can return: non-empty, without white
    space at either end, without comma. *)
Lemma getListOrNull_elements (s : string) :
  Forall (fun x => x <> EmptyString /\ trim x = x /\ count_char ","%char x = 0%nat)
         (filter nonempty (map trim (split "," s))).
Proof.
  apply Forall_forall. intros x Hx. apply filter_In in Hx. destruct Hx as [Hin Hn].
  apply in_map_iff in Hin. destruct Hin as [piece [<- Hp]].
  split; [| split].
  - intros E. rewrite E in Hn. discriminate.
  - apply trim_idempotent.
  - pose proof (split_pieces "," s) as F. rewrite Forall_forall in F.
    specialize (F piece Hp). pose proof (count_char_trim "," piece). lia.
Qed.

(** X6.  [getListOrNull] returns [null] exactly for a missing or empty
    value; otherwise it returns a list each of whose elements is non-empty,
    has no white space at either end and contains no comma. *)
Theorem getListOrNull_shape (value : option string) :
  (getListOrNull value = None <-> value = None \/ value = Some EmptyString) /\
  forall l, getListOrNull value = Some l ->
            Forall (fun x => x <> EmptyString /\ trim x = x /\
                             count_char ","%char x = 0%nat) l.
Proof.
  split.
  - destruct value as [[| c s] |]; cbn [getListOrNull]; split; auto; try discriminate.
    intros [H | H]; discriminate.
  - intros l E. destruct value as [[| c s] |]; try discriminate.
    unfold getListOrNull in E. injection E as <-.
    apply (getListOrNull_elements (String c s)).
Qed.

(** X7.  [getListOrNull] reads back what was joined with commas: for a
    non-empty list of elements that are non-empty, without white space at
    either end and without comma, it returns the list itself. *)
Theorem getListOrNull_of_joined (items : list string) :
  items <> [] ->
  Forall (fun x => x <> EmptyString /\ trim x = x /\ count_char ","%char x = 0%nat) items ->
  getListOrNull (Some (String.concat "," items)) = Some items.
Proof.
  intros Hne H.
  assert (Hsplit : split "," (String.concat "," items) = items).
  { apply split_concat; [exact Hne |]. eapply Forall_impl; [| exact H].
    intros x [_ [_ Hx]]. exact Hx. }
  assert (Hfilter : filter nonempty (map trim items) = items).
  { clear Hne Hsplit. induction H as [| x items [Hx [Ht _]] _ IH]; [reflexivity |].
    cbn [map filter]. rewrite Ht, IH. destruct x; [congruence | reflexivity]. }
  destruct items as [| x items]; [congruence |].
  inversion H as [| ? ? [Hx _] _]; subst.
  destruct (String.concat "," (x :: items)) as [| c s] eqn:E.
  - exfalso. destruct x as [| c x]; [congruence |].
    destruct items; cbn in E; discriminate.
  - unfold getListOrNull. rewrite Hsplit. now rewrite Hfilter.
Qed.

Lemma getListOrNull_of_joined_witness :
  getListOrNull (Some (String.concat "," ["BJ"; "SH"; "Hong Kong"])) =
  Some ["BJ"; "SH"; "Hong Kong"].
Proof.
  apply (@getListOrNull_of_joined ["BJ"; "SH"; "Hong Kong"]).
  - discriminate.
  - repeat constructor; discriminate.
Defined.

(** X8.  A non-empty value made of commas and white space only is read by
    [getListOrNull] as the empty list, not as [null]; a record constraint
    with a set filter read from such a value compiles to the same clause and
    values, and is evaluated with the same statements and rows, as the
    constraint without that filter. *)
Theorem getListOrNull_only_separators (s : string) (f : set_field) (c : RecordConstraint) :
  s <> EmptyString ->
  only_separators s = true ->
  getListOrNull (Some s) = Some [] /\
  buildWhereClauseAndValues (set_filter f c (getListOrNull (Some s))) =
  buildWhereClauseAndValues (set_filter f c None) /\
  forall (db : option Database) (Y : Z) (config : QueryConfig)
         (pre post : list RecordConstraint),
    findOiers db Y (with_records config (pre ++ set_filter f c (getListOrNull (Some s)) :: post)) =
    findOiers db Y (with_records config (pre ++ set_filter f c None :: post)).
Proof.
  intros Hne Hs.
  assert (Hpieces : forall t, only_separators t = true ->
                              Forall (fun p => all_chars is_space p = true) (split "," t)).
  { induction t as [| a t IH]; cbn [split only_separators all_chars].
    - intros _. repeat constructor.
    - unfold only_separators. cbn [all_chars]. intros H.
      apply andb_true_iff in H. destruct H as [Ha Ht]. specialize (IH Ht).
      destruct (Ascii.eqb a ",") eqn:E; [constructor; [reflexivity | exact IH] |].
      cbn [orb] in Ha.
      destruct (split "," t) as [| p ps]; cbn [cons_first].
      + repeat constructor. cbn [all_chars]. now rewrite Ha.
      + inversion IH as [| ? ? Hp Hps]; subst. constructor; [| exact Hps].
        cbn [all_chars]. now rewrite Ha, Hp. }
  assert (Htrim : forall p, all_chars is_space p = true -> trim p = EmptyString).
  { intros p Hp. unfold trim.
    assert (E : trimStart p = EmptyString).
    { induction p as [| a p IH]; [reflexivity |]. cbn [all_chars] in Hp.
      apply andb_true_iff in Hp. destruct Hp as [Ha Hp]. cbn [trimStart].
      rewrite Ha. now apply IH. }
    now rewrite E. }
  assert (E : getListOrNull (Some s) = Some []).
  { destruct s as [| a s]; [congruence |]. unfold getListOrNull. f_equal.
    specialize (Hpieces _ Hs).
    induction Hpieces as [| p ps Hp _ IH]; [reflexivity |].
    cbn [map filter]. now rewrite (Htrim p Hp). }
  split; [exact E |]. rewrite E. split.
  - unfold buildWhereClauseAndValues.
    now rewrite set_filter_empty_clause, set_filter_empty_conditions.
  - intros db Y config pre post. apply findOiers_ext, set_filter_empty_clause.
Qed.

Lemma getListOrNull_only_separators_witness :
  getListOrNull (Some " , ,") = Some [] /\
  buildWhereClauseAndValues (set_filter Province since_2020 (getListOrNull (Some " , ,"))) =
  buildWhereClauseAndValues (set_filter Province since_2020 None) /\
  forall (db : option Database) (Y : Z) (config : QueryConfig)
         (pre post : list RecordConstraint),
    findOiers db Y (with_records config
                      (pre ++ set_filter Province since_2020 (getListOrNull (Some " , ,")) :: post)) =
    findOiers db Y (with_records config (pre ++ set_filter Province since_2020 None :: post)).
Proof.
  apply (@getListOrNull_only_separators " , ," Province since_2020).
  - discriminate.
  - reflexivity.
Defined.

(** ** [handleUiFormSubmit] *)

Section UiFormFacts.

Variable parseInt : string -> parsed Z.
Variable parseFloat : string -> parsed Q.
Variable Number_toString : parsed Q -> string.
Hypothesis Number_toString_renders : renders_numbers Number_toString.

Lemma pair_is_filled_always {A} (render : A -> string) (b : bounds A) :
  (forall x, exists c s, render x = String c s /\ c <> "n"%char) ->
  pair_is_filled render b = true.
Proof.
  intros Hr. unfold pair_is_filled, pair_toString. cbn [Nat.ltb Nat.leb andb].
  apply negb_true_iff, String.eqb_neq.
  destruct b as [[x |] y]; cbn [fst snd].
  - destruct (Hr x) as [c [s [E Hc]]]. rewrite E. cbn [String.append].
    intros [= H _]. congruence.
  - cbn [String.append]. discriminate.
Qed.

Lemma recordCond_is_filled (f : RecordFields) :
  is_filled Number_toString (recordCond parseInt parseFloat f) = true.
Proof.
  unfold is_filled, recordCond. cbn [form_year_range].
  rewrite (@pair_is_filled_always (parsed Z) (fun n => Number_toString (to_number n)));
    [reflexivity |].
  intros n. apply Number_toString_renders.
Qed.

Lemma ui_records (form : UiForm) :
  form_records (ui_config parseInt parseFloat Number_toString form) =
  map (recordCond parseInt parseFloat) (record_rows form).
Proof.
  unfold ui_config. cbn [form_records].
  induction (record_rows form) as [| f fs IH]; [reflexivity |].
  cbn [map filter]. now rewrite recordCond_is_filled, IH.
Qed.

End UiFormFacts.

(** X9.  [handleUiFormSubmit] turns every record row of the form into a
    record constraint, in order, whatever the row holds (numerals or not):
    the test meant to skip the rows left blank accepts every row, since the
    text of a pair never is ["null,null"]. *)
Theorem ui_form_keeps_every_row (parseInt : string -> parsed Z) (parseFloat : string -> parsed Q)
    (Number_toString : parsed Q -> string) (form : UiForm) :
  renders_numbers Number_toString ->
  form_records (ui_config parseInt parseFloat Number_toString form) =
  map (recordCond parseInt parseFloat) (record_rows form).
Proof.
  intros H. exact (ui_records parseInt parseFloat H form).
Qed.

Lemma number_text_renders : renders_numbers number_text.
Proof.
  intros [q | | [|]]; cbn [number_text];
    try (eexists _, _; split; [reflexivity | discriminate]).
  unfold integer_numeral.
  destruct (Z.to_int (Qnum q / Z.pos (Qden q))) as [u | u];
    destruct u; cbn; eexists _, _; (split; [reflexivity | discriminate]).
Qed.

Lemma ui_form_keeps_every_row_witness :
  form_records (ui_config numeral_integer numeral_number number_text no_numeral_row_form) =
  map (recordCond numeral_integer numeral_number) (record_rows no_numeral_row_form).
Proof.
  apply (@ui_form_keeps_every_row numeral_integer numeral_number number_text
           no_numeral_row_form).
  exact number_text_renders.
Defined.

(** The second row of that form holds [NaN] as the lower bound of its
    years, and the configuration built from the form has no canonical
    form. *)
Example no_numeral_row :
  map (fun c => fst (form_year_range c))
    (form_records (ui_config numeral_integer numeral_number number_text
                     no_numeral_row_form)) = [None; Some NaN] /\
  canonical (ui_config numeral_integer numeral_number number_text no_numeral_row_form) =
  None.
Proof. split; reflexivity. Qed.

(** ** The page of a form *)

Section UiPages.

Variable parseInt : string -> parsed Z.
Variable parseFloat : string -> parsed Q.
Variable Number_toString : parsed Q -> string.
Hypothesis Number_toString_renders : renders_numbers Number_toString.



End UiPages.

Lemma blank_row_canonical (parseInt : string -> parsed Z) (parseFloat : string -> parsed Q) :
  canonical_record (recordCond parseInt parseFloat blank_fields) =
  Some {| year_range := Some (None, None); rank_range := Some (None, None);
          score_range := Some (None, None); province := None; contest_type := None;
          level_range := None |}.
Proof. reflexivity. Qed.

Lemma blank_row_matches (d : Database) (x : Z) :
  has_matching_record d
    {| year_range := Some (None, None); rank_range := Some (None, None);
       score_range := Some (None, None); province := None; contest_type := None;
       level_range := None |} x <-> has_record d x.
Proof.
  unfold has_matching_record, has_record, satisfies, within, withinQ.
  cbn. split.
  - intros [r [k [Hr [Hk [E [Hx _]]]]]]. exists r, k. auto.
  - intros [r [k [Hr [Hk [E Hx]]]]]. exists r, k.
    repeat split; auto; discriminate.
Qed.



(** X11.  A form submitted with all its fields left empty and at least one
    record row (the page starts with one) does not list every enrollee.  On
    an initialised store whose identifiers are integers that a JS number
    holds exactly, let [s] be the identifiers that own at least one record
    joined to a contest: when they are at most 32766, the submission lists
    exactly the enrollees whose identifier is one of them; when they are
    more, the store refuses the final fetch and the submission shows the
    alert of the store's error. *)
Theorem blank_form_lists_enrollees_with_records (parseInt : string -> parsed Z)
    (parseFloat : string -> parsed Q) (Number_toString : parsed Q -> string)
    (d : Database) (Y : Z) (form : UiForm) :
  renders_numbers Number_toString ->
  left_empty (enroll_min form) -> left_empty (enroll_max form) ->
  left_empty (grade_min form) -> left_empty (grade_max form) ->
  record_rows form <> [] ->
  Forall (eq blank_fields) (record_rows form) ->
  safe_identifiers d ->
  exists config s,
    canonical (ui_config parseInt parseFloat Number_toString form) = Some config /\
    handleUiFormSubmit parseInt parseFloat Number_toString (Some d) Y form =
      Some (executeQuery (Some d) Y (Some config)) /\
    NoDup s /\
    (forall x, In x s <-> has_record d x) /\
    if (N.of_nat (List.length s) <=? 32766)%N
    then exists log rows,
           executeQuery (Some d) Y (Some config) =
             (log, ResultsPage (cleanConfig config) rows) /\
           StronglySorted score_desc rows /\
           forall o, In o rows <-> In o (OIer_table d) /\ has_record d (uid o)
    else executeQuery (Some d) Y (Some config) =
           (fst (findOiers (Some d) Y config),
            ErrorAlert "Query execution failed: too many SQL variables").
Proof.
  intros Hr He1 He2 Hg1 Hg2 Hne Hblank _.
  set (blank := {| year_range := Some (None, None); rank_range := Some (None, None);
                   score_range := Some (None, None); province := None;
                   contest_type := None; level_range := None |}).
  set (config := {| enroll_year_range := Some (None, None);
                    grade_range := Some (None, None);
                    records := Some (map (fun _ => blank) (record_rows form)) |}).
  assert (Ec : canonical (ui_config parseInt parseFloat Number_toString form) = Some config).
  { unfold canonical. rewrite (ui_records parseInt parseFloat Hr form).
    unfold ui_config. cbn [form_enroll_year_range form_grade_range].
    assert (Erec : canonical_records (map (recordCond parseInt parseFloat) (record_rows form)) =
                   Some (map (fun _ => blank) (record_rows form))).
    { clear Hne. induction Hblank as [| f fs <- _ IH]; [reflexivity |].
      cbn [map canonical_records]. rewrite IH, blank_row_canonical. reflexivity. }
    rewrite Erec.
    destruct He1 as [-> | ->], He2 as [-> | ->], Hg1 as [-> | ->], Hg2 as [-> | ->];
      reflexivity. }
  assert (Hrs : recordConstraints config = map (fun _ => blank) (record_rows form))
    by reflexivity.
  assert (Hks : oierConditions Y config = []) by reflexivity.
  assert (H : oierConditions Y config <> [] \/ recordConstraints config <> []).
  { right. rewrite Hrs. destruct (record_rows form); [congruence | discriminate]. }
  assert (Hrange : Forall constraint_in_range (recordConstraints config)).
  { rewrite Hrs. apply Forall_forall. intros c Hc. apply in_map_iff in Hc.
    destruct Hc as [f [<- _]]. unfold constraint_in_range. cbn. lia. }
  pose proof (narrowed_in_range d Y config Hrange) as U.
  destruct (@narrowed_unrefused d Y config U) as [log0 [st0 [st [_ [_ [En _]]]]]].
  destruct (fetch_decides d Y config H En) as [s [_ [Es Ha]]].
  destruct (@final_candidates d Y config s H Es) as [Nd Ms].
  assert (Hs : forall x, In x s <-> has_record d x).
  { intros x. rewrite Ms, Hrs. split.
    - intros [_ Hm]. destruct (record_rows form) as [| f fs] eqn:Ef; [congruence |].
      apply blank_row_matches. apply Hm. now left.
    - intros Hrec. split; [intros Hk; now elim Hk |].
      intros c Hc. apply in_map_iff in Hc. destruct Hc as [f [<- _]].
      now apply blank_row_matches. }
  exists config, s. split; [exact Ec |].
  split; [unfold handleUiFormSubmit; now rewrite Ec |].
  split; [exact Nd |]. split; [exact Hs |].
  rewrite <- Ha.
  destruct (forallb accepted (fst (findOiers (Some d) Y config))) eqn:A.
  - destruct (@matching_rows d Y config H A) as [log [rows [keep [_ [Ee [Hsorted [_ M]]]]]]].
    exists log, rows. split; [exact Ee |]. split; [exact Hsorted |].
    intros o. rewrite M, <- Hs, Ms. tauto.
  - now apply executeQuery_refused.
Qed.

Lemma blank_form_lists_enrollees_with_records_witness :
  exists config s,
    canonical (ui_config numeral_integer numeral_number number_text one_blank_row_form) =
      Some config /\
    handleUiFormSubmit numeral_integer numeral_number number_text
      (Some scenario_db) 2024 one_blank_row_form =
      Some (executeQuery (Some scenario_db) 2024 (Some config)) /\
    NoDup s /\
    (forall x, In x s <-> has_record scenario_db x) /\
    if (N.of_nat (List.length s) <=? 32766)%N
    then exists log rows,
           executeQuery (Some scenario_db) 2024 (Some config) =
             (log, ResultsPage (cleanConfig config) rows) /\
           StronglySorted score_desc rows /\
           forall o, In o rows <->
                     In o (OIer_table scenario_db) /\ has_record scenario_db (uid o)
    else executeQuery (Some scenario_db) 2024 (Some config) =
           (fst (findOiers (Some scenario_db) 2024 config),
            ErrorAlert "Query execution failed: too many SQL variables").
Proof.
  apply (@blank_form_lists_enrollees_with_records numeral_integer numeral_number
           number_text scenario_db 2024 one_blank_row_form).
  - exact number_text_renders.
  - right. reflexivity.
  - right. reflexivity.
  - right. reflexivity.
  - right. reflexivity.
  - discriminate.
  - repeat constructor.
  - exact scenario_db_safe.
Defined.

(** ** [convertLuoguToConfig] and [handleLuoguFormSubmit] *)

Section Luogu.

Lemma is_digit_value (c : ascii) : is_digit c = true -> 0 <= digit_value c <= 9.
Proof.
  unfold is_digit, digit_value. intros H. apply andb_true_iff in H.
  destruct H as [H1 H2]. apply Nat.leb_le in H1, H2. lia.
Qed.

Lemma match_here_year (s : string) (year : Z) (g : string) :
  match_here s = Some (year, g) -> 0 <= year <= 9999.
Proof.
  unfold match_here.
  destruct s as [| b [| d1 [| d2 [| d3 [| d4 [| e rest]]]]]]; try discriminate.
  destruct (Ascii.eqb b "[" && is_digit d1 && is_digit d2 && is_digit d3 && is_digit d4 &&
            Ascii.eqb e "]") eqn:E; [| discriminate].
  intros [= <- _].
  apply andb_true_iff in E. destruct E as [E _].
  apply andb_true_iff in E. destruct E as [E H4].
  apply andb_true_iff in E. destruct E as [E H3].
  apply andb_true_iff in E. destruct E as [E H2].
  apply andb_true_iff in E. destruct E as [_ H1].
  apply is_digit_value in H1, H2, H3, H4.
  unfold four_digits. lia.
Qed.

Lemma match_pattern_year (s : string) (year : Z) (g : string) :
  match_pattern s = Some (year, g) -> 0 <= year <= 9999.
Proof.
  induction s as [| c s IH]; cbn [match_pattern].
  - destruct (match_here EmptyString) as [[y g'] |] eqn:E; [| discriminate].
    intros [= <- _]. eapply match_here_year, E.
  - destruct (match_here (String c s)) as [[y g'] |] eqn:E.
    + intros [= <- _]. eapply match_here_year, E.
    + exact IH.
Qed.

Lemma own_entry_In (map : list (string * string)) (key v : string) :
  own_entry map key = Some v -> In (key, v) map.
Proof.
  induction map as [| [k w] map IH]; cbn [own_entry]; [discriminate |].
  destruct (String.eqb k key) eqn:E.
  - apply String.eqb_eq in E. intros [= ->]. subst k. now left.
  - intros H. right. now apply IH.
Qed.

Lemma own_entry_None (map : list (string * string)) (key : string) :
  own_entry map key = None -> forall v, ~ In (key, v) map.
Proof.
  induction map as [| [k w] map IH]; cbn [own_entry]; [intros _ v [] |].
  destruct (String.eqb k key) eqn:E; [discriminate |].
  intros H v [[= -> _] | Hin].
  - rewrite String.eqb_refl in E. discriminate.
  - exact (IH H v Hin).
Qed.

Lemma first_included_In (map : list (string * string)) (text v : string) :
  first_included map text = Some v -> exists k, In (k, v) map.
Proof.
  induction map as [| [k w] map IH]; cbn [first_included]; [discriminate |].
  destruct (includes k text).
  - intros [= ->]. exists k. now left.
  - intros H. destruct (IH H) as [k' Hk]. exists k'. now right.
Qed.

(** The truthy values that reading a level gives. *)
Lemma truthy_level_lookup (map : list (string * string)) (key : string) (lv : level) :
  truthy_level (lookup map key) = Some lv ->
  match lv with
  | LevelText l => l <> EmptyString /\ In (key, l) map
  | LevelInherited name =>
      name = key /\ In name Object_prototype /\ forall v, ~ In (name, v) map
  end.
Proof.
  unfold lookup. destruct (own_entry map key) as [[| c l] |] eqn:E; cbn [truthy_level].
  - discriminate.
  - intros [= <-]. split; [discriminate | now apply own_entry_In].
  - destruct (existsb (String.eqb key) Object_prototype) eqn:Ex; cbn [truthy_level];
      [| discriminate].
    intros [= <-]. split; [reflexivity |]. split; [| now apply own_entry_None].
    apply existsb_exists in Ex. destruct Ex as [name [Hin Hn]].
    apply String.eqb_eq in Hn. now subst name.
Qed.

Variable mapping : NameMapping.

Lemma convert_entry_shaped (line next : string) :
  Forall (luogu_shaped mapping)
    (convert_entry (entries_of (contest_mapping mapping))
                   (entries_of (level_mapping mapping)) line next) /\
  (List.length (convert_entry (entries_of (contest_mapping mapping))
                  (entries_of (level_mapping mapping)) line next) <= 1)%nat.
Proof.
  unfold convert_entry.
  destruct (match_pattern line) as [[year g] |] eqn:Em; [| split; [apply Forall_nil | cbn; lia]].
  destruct (truthy_level (lookup (entries_of (level_mapping mapping)) (trim next)))
    as [lv |] eqn:El; [| split; [apply Forall_nil | cbn; lia]].
  destruct (first_included (entries_of (contest_mapping mapping)) (trim g))
    as [[| c' t] |] eqn:Ec; try (split; [apply Forall_nil | cbn; lia]).
  split; [| cbn; lia]. constructor; [| constructor].
  unfold luogu_shaped. cbn [luogu_year luogu_contest_type luogu_level].
  split; [eapply match_pattern_year, Em |]. split; [discriminate |].
  split; [eapply first_included_In, Ec |].
  apply truthy_level_lookup in El. destruct lv as [l | name].
  - destruct El as [Hl Hin]. split; [exact Hl |]. eexists. exact Hin.
  - destruct El as [_ [Hin Hown]]. split; assumption.
Qed.

Lemma convert_lines_shaped (lines : list string) :
  Forall (luogu_shaped mapping)
    (convert_lines (entries_of (contest_mapping mapping))
                   (entries_of (level_mapping mapping)) lines) /\
  (2 * List.length (convert_lines (entries_of (contest_mapping mapping))
                      (entries_of (level_mapping mapping)) lines) <=
   List.length lines)%nat.
Proof.
  revert lines. fix IH 1. intros [| line [| next rest]].
  - split; [constructor | cbn; lia].
  - split; [constructor | cbn; lia].
  - cbn [convert_lines]. destruct (IH rest) as [F L].
    destruct (convert_entry_shaped line next) as [F' L'].
    split; [apply Forall_app; now split |].
    rewrite length_app. cbn [List.length]. lia.
Qed.

End Luogu.

Lemma Forall2_pick_l (A B : Type) (R : A -> B -> Prop) (l : list A) (l' : list B) (a : A) :
  Forall2 R l l' -> In a l -> exists b, In b l' /\ R a b.
Proof.
  induction 1 as [| x y l l' Hxy _ IH]; [intros [] |].
  intros [<- | Hin].
  - exists y. split; [now left | exact Hxy].
  - destruct (IH Hin) as [b [Hb Hr]]. exists b. split; [now right | exact Hr].
Qed.

Lemma Forall2_pick_r (A B : Type) (R : A -> B -> Prop) (l : list A) (l' : list B) (b : B) :
  Forall2 R l l' -> In b l' -> exists a, In a l /\ R a b.
Proof.
  induction 1 as [| x y l l' Hxy _ IH]; [intros [] |].
  intros [<- | Hin].
  - exists x. split; [now left | exact Hxy].
  - destruct (IH Hin) as [a [Ha Hr]]. exists a. split; [now right | exact Hr].
Qed.

(** The canonical record constraints are those of the records, one for each
    and in order, when every level is a text; there are none as soon as one
    level is inherited. *)
Lemma canonical_luogu_records_Some (l : list LuoguRecord) (rs : list RecordConstraint) :
  canonical_luogu_records l = Some rs ->
  Forall2 (fun r constraint =>
             exists lv, luogu_level r = LevelText lv /\
                        constraint = luogu_record (luogu_year r) (luogu_contest_type r) lv)
    l rs.
Proof.
  revert rs. induction l as [| r l IH]; intros rs; cbn [canonical_luogu_records].
  - intros [= <-]. constructor.
  - unfold canonical_luogu_record.
    destruct (luogu_level r) as [lv | name] eqn:El; [| discriminate].
    destruct (canonical_luogu_records l) as [rest |]; [| discriminate].
    intros [= <-]. constructor; [| now apply IH].
    exists lv. auto.
Qed.

Lemma canonical_luogu_records_None (l : list LuoguRecord) :
  canonical_luogu_records l = None <->
  exists r name, In r l /\ luogu_level r = LevelInherited name.
Proof.
  induction l as [| r l IH]; cbn [canonical_luogu_records].
  - split; [discriminate | intros [r [name [[] _]]]].
  - unfold canonical_luogu_record.
    destruct (luogu_level r) as [lv | name] eqn:El.
    + destruct (canonical_luogu_records l) as [rest |].
      * split; [discriminate |].
        intros [r' [name [[<- | Hin] E]]]; [congruence |].
        destruct IH as [_ IH]. discriminate IH. eauto.
      * split; [| reflexivity]. intros _.
        destruct IH as [IH _]. destruct (IH eq_refl) as [r' [name [Hin E]]].
        exists r', name. split; [now right | exact E].
    + split; [| reflexivity]. intros _. exists r, name. split; [now left | exact El].
Qed.

(** X12.  Every record that [convertLuoguToConfig] produces has a year
    between 0 and 9999, a contest type that is a non-empty value of the
    contest mapping, and as its level either a non-empty value of the level
    mapping or, when the level line is no key of the level mapping but names
    a property of [Object.prototype], that inherited property; there is at
    most one record for every two non-blank lines of the text.  When every
    level is a text, the configuration is the canonical one without base
    bound whose record constraints, one for each record and in order, bound
    the contest year on both sides by the record's year and allow exactly its
    contest type and its level; as soon as one level is inherited, it has no
    canonical form.  The level line ["constructor"] gives such a record. *)
Theorem luogu_config_shape (luoguText : string) (mapping : NameMapping) :
  let config := convertLuoguToConfig luoguText mapping in
  Forall (luogu_shaped mapping) (luogu_records config) /\
  (2 * List.length (luogu_records config) <= List.length (luogu_lines luoguText))%nat /\
  (forall canonical_config,
     canonical_luogu config = Some canonical_config ->
     (forall Y, oierConditions Y canonical_config = []) /\
     Forall2 (fun r constraint =>
                exists lv, luogu_level r = LevelText lv /\
                           constraint =
                             luogu_record (luogu_year r) (luogu_contest_type r) lv)
       (luogu_records config) (recordConstraints canonical_config)) /\
  (canonical_luogu config = None <->
   exists r name, In r (luogu_records config) /\ luogu_level r = LevelInherited name) /\
  convertLuoguToConfig constructor_history sample_mapping =
    {| luogu_records :=
         [ {| luogu_year := 2020; luogu_contest_type := "NOI";
              luogu_level := LevelInherited "constructor" |} ] |}.
Proof.
  cbv zeta.
  assert (Er : luogu_records (convertLuoguToConfig luoguText mapping) =
               convert_lines (entries_of (contest_mapping mapping))
                 (entries_of (level_mapping mapping)) (luogu_lines luoguText))
    by reflexivity.
  destruct (convert_lines_shaped mapping (luogu_lines luoguText)) as [F L].
  rewrite <- Er in F, L.
  split; [exact F |]. split; [exact L |].
  unfold canonical_luogu.
  split; [| split; [| reflexivity]].
  - intros cfg E.
    destruct (canonical_luogu_records (luogu_records (convertLuoguToConfig luoguText mapping)))
      as [rs |] eqn:Ers; [| discriminate].
    injection E as <-. split; [reflexivity |].
    cbn [recordConstraints records]. now apply canonical_luogu_records_Some.
  - rewrite <- canonical_luogu_records_None.
    destruct (canonical_luogu_records (luogu_records (convertLuoguToConfig luoguText mapping)));
      split; intros E; (discriminate E || reflexivity).
Qed.

Lemma luogu_record_matches (d : Database) (year : Z) (t l : string) (x : Z) :
  has_matching_record d (luogu_record year t l) x <-> took_part d year t l x.
Proof.
  unfold has_matching_record, took_part, satisfies, within, withinQ, allowed.
  cbn [luogu_record year_range rank_range score_range province contest_type level_range
       sides fst snd In].
  split.
  - intros [r [k [Hr [Hk [E [Hx [[Hlo Hhi] [_ [_ [_ [Ht Hl]]]]]]]]]]].
    exists r, k. specialize (Hlo year eq_refl). specialize (Hhi year eq_refl).
    repeat split; auto; try lia.
    + destruct Ht as [Ht | []]. now symmetry.
    + destruct Hl as [Hl | []]. now symmetry.
  - intros [r [k [Hr [Hk [E [Hx [Hy [Ht Hl]]]]]]]]. exists r, k.
    repeat split; auto; try discriminate.
    + intros lo [= <-]. lia.
    + intros hi [= <-]. lia.
Qed.

(** X13.  When [convertLuoguToConfig] recognises at least one entry and the
    level of every recognised entry is a text of the level mapping, the
    submission evaluates the canonical configuration of these entries.  On
    an initialised store whose identifiers are integers that a JS number
    holds exactly: when the store refuses no statement of the evaluation, the
    submission ends in a results page, and the rows shown are the enrollees
    that, for every recognised entry, own a record of the entry's level in a
    contest of the entry's year and type; when the store refuses a
    statement, it ends in the alert of the store's error. *)
Theorem luogu_results (d : Database) (Y : Z) (mapping : NameMapping) (luoguContent : string)
    (config : QueryConfig) :
  canonical_luogu (convertLuoguToConfig luoguContent mapping) = Some config ->
  luogu_records (convertLuoguToConfig luoguContent mapping) <> [] ->
  safe_identifiers d ->
  handleLuoguFormSubmit (Some d) Y mapping luoguContent =
    Some (executeQuery (Some d) Y (Some config)) /\
  if forallb accepted (fst (findOiers (Some d) Y config))
  then exists log rows,
         executeQuery (Some d) Y (Some config) =
           (log, ResultsPage (cleanConfig config) rows) /\
         StronglySorted score_desc rows /\
         forall o, In o rows <->
                   In o (OIer_table d) /\
                   forall r lv,
                     In r (luogu_records (convertLuoguToConfig luoguContent mapping)) ->
                     luogu_level r = LevelText lv ->
                     took_part d (luogu_year r) (luogu_contest_type r) lv (uid o)
  else executeQuery (Some d) Y (Some config) =
         (fst (findOiers (Some d) Y config),
          ErrorAlert "Query execution failed: too many SQL variables").
Proof.
  intros Ec Hne _.
  split; [unfold handleLuoguFormSubmit; now rewrite Ec |].
  unfold canonical_luogu in Ec.
  destruct (canonical_luogu_records (luogu_records (convertLuoguToConfig luoguContent mapping)))
    as [rs |] eqn:Ers; [| discriminate].
  injection Ec as <-.
  pose proof (canonical_luogu_records_Some _ Ers) as F.
  set (config := {| enroll_year_range := None; grade_range := None; records := Some rs |}).
  assert (Hr : recordConstraints config = rs) by reflexivity.
  assert (H : oierConditions Y config <> [] \/ recordConstraints config <> []).
  { right. rewrite Hr. intros ->. apply Forall2_length in F.
    destruct (luogu_records (convertLuoguToConfig luoguContent mapping));
      [now apply Hne | discriminate F]. }
  destruct (forallb accepted (fst (findOiers (Some d) Y config))) eqn:A.
  - destruct (@matching_rows d Y config H A) as [log [rows [keep [_ [Ee [Hs [_ M]]]]]]].
    exists log, rows. split; [exact Ee |]. split; [exact Hs |].
    intros o. rewrite M, Hr. split.
    + intros [Ht [_ Hm]]. split; [exact Ht |].
      intros r lv Hin El.
      destruct (@Forall2_pick_l _ _ _ _ _ _ F Hin) as [c [Hc [lv' [El' Ec']]]].
      rewrite El in El'. injection El' as <-.
      apply luogu_record_matches. rewrite <- Ec'. apply Hm, Hc.
    + intros [Ht Hm]. split; [exact Ht |]. split; [intros Hk; now elim Hk |].
      intros c Hc. destruct (@Forall2_pick_r _ _ _ _ _ _ F Hc) as [r [Hin [lv [El ->]]]].
      apply luogu_record_matches, (Hm r lv Hin El).
  - now apply executeQuery_refused.
Qed.

Lemma luogu_results_witness :
  handleLuoguFormSubmit (Some scenario_db) 2024 sample_mapping sample_history =
    Some (executeQuery (Some scenario_db) 2024
            (Some {| enroll_year_range := None; grade_range := None;
                     records := Some [luogu_record 2020 "NOI" "1st"] |})) /\
  exists log rows,
    executeQuery (Some scenario_db) 2024
      (Some {| enroll_year_range := None; grade_range := None;
               records := Some [luogu_record 2020 "NOI" "1st"] |}) =
      (log, ResultsPage
              (cleanConfig {| enroll_year_range := None; grade_range := None;
                              records := Some [luogu_record 2020 "NOI" "1st"] |}) rows) /\
    StronglySorted score_desc rows /\
    forall o, In o rows <->
              In o (OIer_table scenario_db) /\
              forall r lv,
                In r (luogu_records (convertLuoguToConfig sample_history sample_mapping)) ->
                luogu_level r = LevelText lv ->
                took_part scenario_db (luogu_year r) (luogu_contest_type r) lv (uid o).
Proof.
  apply (@luogu_results scenario_db 2024 sample_mapping sample_history
           {| enroll_year_range := None; grade_range := None;
              records := Some [luogu_record 2020 "NOI" "1st"] |}).
  - reflexivity.
  - vm_compute. discriminate.
  - exact scenario_db_safe.
Defined.

(** The sample history is the search for a first prize at NOI 2020, which
    [uid1] holds. *)
Example sample_history_page :
  handleLuoguFormSubmit (Some scenario_db) 2024 sample_mapping sample_history =
  Some
    ([SelectDistinctOierUid
        [AtLeast col_c_year (int_value 2020); AtMost col_c_year (int_value 2020);
         Member col_r_level [VText "1st"]; Member col_c_type [VText "NOI"]];
      SelectOIersInOrdered [1]],
     ResultsPage
       {| enroll_year_range := None; grade_range := None;
          records := Some [luogu_record 2020 "NOI" "1st"] |}
       [mkOIer 1 "uid1" 2020 (90 # 1)]).
Proof. reflexivity. Qed.

(** A level line that names a property of [Object.prototype] is recognised:
    the record holds that property, and the configuration is none of the
    canonical ones. *)
Example constructor_history_record :
  luogu_records (convertLuoguToConfig constructor_history sample_mapping) =
    [ {| luogu_year := 2020; luogu_contest_type := "NOI";
         luogu_level := LevelInherited "constructor" |} ] /\
  canonical_luogu (convertLuoguToConfig constructor_history sample_mapping) = None.
Proof. split; reflexivity. Qed.

(** X14.  A text with fewer than two non-blank lines yields no record; and
    whenever [convertLuoguToConfig] recognises no entry, the submission runs
    the query without base bound and without record constraint: on an
    initialised store with a non-empty [OIer] table the page is the alert of
    the [TypeError] thrown while rendering the rows, and with an empty table
    it is an empty results page.  An entry whose level line names a property
    of [Object.prototype] is a recognised one. *)
Theorem luogu_nothing_recognised (d : Database) (Y : Z) (mapping : NameMapping)
    (luoguContent : string) :
  let config := convertLuoguToConfig luoguContent mapping in
  let unconstrained :=
    {| enroll_year_range := None; grade_range := None; records := Some [] |} in
  ((List.length (luogu_lines luoguContent) < 2)%nat -> luogu_records config = []) /\
  (luogu_records config = [] ->
   canonical_luogu config = Some unconstrained /\
   handleLuoguFormSubmit (Some d) Y mapping luoguContent =
     Some (executeQuery (Some d) Y (Some unconstrained)) /\
   (OIer_table d <> [] ->
    handleLuoguFormSubmit (Some d) Y mapping luoguContent =
      Some ([SelectAllOIersOrdered],
            ErrorAlert "Query execution failed: Cannot read properties of undefined (reading 'toFixed')")) /\
   (OIer_table d = [] ->
    handleLuoguFormSubmit (Some d) Y mapping luoguContent =
      Some ([SelectAllOIersOrdered], ResultsPage (cleanConfig unconstrained) []))) /\
  luogu_records (convertLuoguToConfig constructor_history sample_mapping) <> [].
Proof.
  intros config unconstrained. split; [| split].
  - intros Hl. destruct (convert_lines_shaped mapping (luogu_lines luoguContent)) as [_ L].
    unfold config, convertLuoguToConfig. cbn [luogu_records].
    destruct (convert_lines _ _ _); [reflexivity |].
    cbn [List.length] in L. lia.
  - intros Hr.
    assert (Ec : canonical_luogu config = Some unconstrained).
    { unfold canonical_luogu. now rewrite Hr. }
    split; [exact Ec |].
    unfold handleLuoguFormSubmit. fold config. rewrite Ec.
    split; [reflexivity |]. split.
    + intros Hne. f_equal. now apply executeQuery_unfiltered.
    + intros He. f_equal. unfold executeQuery.
      rewrite (findOiers_unfiltered d Y unconstrained eq_refl eq_refl), He. reflexivity.
  - discriminate.
Qed.

(** ** Reading back a written history *)

Section History.

Lemma plain_head (s : string) :
  plain s -> exists c t, s = String c t /\ is_space c = false.
Proof.
  intros [Hne [Ht _]]. unfold trim in Ht.
  destruct (trimStart_head s) as [E | [c [t [E Ec]]]].
  - rewrite E in Ht. cbn in Ht. congruence.
  - rewrite E in Ht. destruct (@trimEnd_head c t Ec) as [t' Et].
    rewrite Et in Ht. exists c, t'. split; [now symmetry | exact Ec].
Qed.

Lemma plain_trimStart (s : string) : plain s -> trimStart s = s.
Proof.
  intros H. destruct (plain_head H) as [c [t [-> Ec]]]. cbn [trimStart]. now rewrite Ec.
Qed.

Lemma plain_trimEnd (s : string) : plain s -> trimEnd s = s.
Proof.
  intros H. pose proof (plain_trimStart H) as E. destruct H as [_ [Ht _]].
  unfold trim in Ht. now rewrite E in Ht.
Qed.

Lemma trimEnd_app (a b : string) :
  trimEnd b = b -> b <> EmptyString -> trimEnd (a ++ b) = (a ++ b)%string.
Proof.
  intros Hb Hne. induction a as [| c a IH]; cbn [String.append]; [exact Hb |].
  cbn [trimEnd]. rewrite IH.
  destruct (a ++ b)%string eqn:E; [| reflexivity].
  destruct a; cbn in E; [congruence | discriminate].
Qed.

Lemma dot_star_plain (s : string) :
  all_chars (fun c => negb (is_line_terminator c)) s = true -> dot_star s = s.
Proof.
  induction s as [| c s IH]; cbn [all_chars dot_star]; [reflexivity |].
  intros H. apply andb_true_iff in H. destruct H as [Hc Hs].
  apply negb_true_iff in Hc. rewrite Hc. now rewrite IH.
Qed.

Lemma split_lines_plain (s : string) :
  all_chars (fun c => negb (is_line_terminator c)) s = true -> split_lines s = [s].
Proof.
  induction s as [| c s IH]; [reflexivity |].
  cbn [all_chars]. intros H. apply andb_true_iff in H. destruct H as [Hc Hs].
  apply negb_true_iff in Hc. unfold is_line_terminator in Hc.
  apply orb_false_iff in Hc. destruct Hc as [Hlf Hcr].
  assert (Elf : Ascii.eqb c "010" = false).
  { apply Ascii.eqb_neq. intros ->. discriminate. }
  assert (Ecr : Ascii.eqb c "013" = false).
  { apply Ascii.eqb_neq. intros ->. discriminate. }
  change (split_lines (String c s))
    with (if Ascii.eqb c "010" then EmptyString :: split_lines s
          else match s with
               | String c' s'' =>
                   if Ascii.eqb c "013" && Ascii.eqb c' "010"
                   then EmptyString :: split_lines s''
                   else cons_first c (split_lines s)
               | EmptyString => [String c EmptyString]
               end).
  rewrite Elf, Ecr. destruct s as [| c' s']; [reflexivity |].
  cbn [andb]. now rewrite (IH Hs).
Qed.

Lemma split_lines_app (a b : string) :
  all_chars (fun c => negb (is_line_terminator c)) a = true ->
  split_lines (a ++ String "010" b) = a :: split_lines b.
Proof.
  induction a as [| c a IH]; [reflexivity |].
  cbn [all_chars]. intros H. apply andb_true_iff in H. destruct H as [Hc Ha].
  apply negb_true_iff in Hc. unfold is_line_terminator in Hc.
  apply orb_false_iff in Hc. destruct Hc as [Hlf Hcr].
  assert (Elf : Ascii.eqb c "010" = false).
  { apply Ascii.eqb_neq. intros ->. discriminate. }
  assert (Ecr : Ascii.eqb c "013" = false).
  { apply Ascii.eqb_neq. intros ->. discriminate. }
  cbn [String.append].
  change (split_lines (String c (a ++ String "010" b)))
    with (if Ascii.eqb c "010" then EmptyString :: split_lines (a ++ String "010" b)
          else match (a ++ String "010" b)%string with
               | String c' s'' =>
                   if Ascii.eqb c "013" && Ascii.eqb c' "010"
                   then EmptyString :: split_lines s''
                   else cons_first c (split_lines (a ++ String "010" b))
               | EmptyString => [String c EmptyString]
               end).
  rewrite Elf, Ecr, (IH Ha). cbn [andb cons_first].
  destruct (a ++ String "010" b)%string eqn:E; [| reflexivity].
  destruct a; discriminate.
Qed.

Lemma split_lines_concat (lines : list string) :
  lines <> [] ->
  Forall plain lines ->
  split_lines (String.concat (String "010" EmptyString) lines) = lines.
Proof.
  induction lines as [| x lines IH]; [congruence |].
  intros _ H. inversion H as [| ? ? [_ [_ Hx]] Hr]; subst.
  destruct lines as [| y lines].
  - cbn [String.concat]. now apply split_lines_plain.
  - change (String.concat (String "010" EmptyString) (x :: y :: lines))
      with (x ++ String "010" (String.concat (String "010" EmptyString) (y :: lines)))%string.
    rewrite split_lines_app by exact Hx. rewrite IH; [reflexivity | discriminate | exact Hr].
Qed.

Lemma concat_kept_at_end (lines : list string) :
  lines <> [] ->
  Forall plain lines ->
  trimEnd (String.concat (String "010" EmptyString) lines) =
    String.concat (String "010" EmptyString) lines /\
  String.concat (String "010" EmptyString) lines <> EmptyString.
Proof.
  induction lines as [| x lines IH]; [congruence |].
  intros _ H. inversion H as [| ? ? Hx Hr]; subst.
  destruct lines as [| y lines].
  - cbn [String.concat]. split; [now apply plain_trimEnd | apply Hx].
  - change (String.concat (String "010" EmptyString) (x :: y :: lines))
      with (x ++ String "010" (String.concat (String "010" EmptyString) (y :: lines)))%string.
    destruct IH as [IH1 IH2]; [discriminate | exact Hr |].
    split.
    + apply trimEnd_app.
      * change (String "010" (String.concat (String "010" EmptyString) (y :: lines)))
          with (String "010" EmptyString ++
                String.concat (String "010" EmptyString) (y :: lines))%string.
        now apply trimEnd_app.
      * discriminate.
    + destruct x; cbn; discriminate.
Qed.

(** The lines of a text written from plain lines are those lines. *)
Lemma luogu_lines_written (lines : list string) :
  Forall plain lines ->
  luogu_lines (String.concat (String "010" EmptyString) lines) = lines.
Proof.
  intros H. destruct lines as [| x lines]; [reflexivity |].
  assert (Hne : x :: lines <> []) by discriminate.
  set (text := String.concat (String "010" EmptyString) (x :: lines)).
  assert (Etrim : trim text = text).
  { unfold trim.
    assert (Es : trimStart text = text).
    { inversion H as [| ? ? Hx _]; subst. destruct (plain_head Hx) as [c [t [-> Ec]]].
      subst text. destruct lines; cbn [String.concat String.append trimStart]; now rewrite Ec. }
    rewrite Es. apply concat_kept_at_end; assumption. }
  unfold luogu_lines. rewrite Etrim. subst text. rewrite split_lines_concat by assumption.
  clear Hne Etrim. induction H as [| y ys [Hy [Ht _]] _ IH]; [reflexivity |].
  cbn [map filter]. rewrite Ht, IH. destruct y; [congruence | reflexivity].
Qed.

Variable mapping : NameMapping.

Lemma entry_line_plain (e : HistoryEntry) : well_formed e -> plain (entry_line e).
Proof.
  intros [H1 [H2 [H3 [H4 [Hc _]]]]].
  assert (Hnt : forall c, is_digit c = true -> negb (is_line_terminator c) = true).
  { intros c Hd. unfold is_digit in Hd. apply andb_true_iff in Hd. destruct Hd as [Hl _].
    apply Nat.leb_le in Hl. unfold is_line_terminator.
    destruct (Nat.eqb_spec (nat_of_ascii c) 10); [lia |].
    destruct (Nat.eqb_spec (nat_of_ascii c) 13); [lia | reflexivity]. }
  split; [discriminate |]. split.
  - unfold trim, entry_line. cbn [trimStart is_space nat_of_ascii].
    change (is_space "[") with false. cbv iota.
    apply (trimEnd_app (String "[" (String (e_d1 e) (String (e_d2 e) (String (e_d3 e)
             (String (e_d4 e) (String "]" (String " " EmptyString)))))))).
    + now apply plain_trimEnd.
    + apply Hc.
  - unfold entry_line. cbn [all_chars].
    rewrite (Hnt _ H1), (Hnt _ H2), (Hnt _ H3), (Hnt _ H4).
    destruct Hc as [_ [_ Hc]]. rewrite Hc. reflexivity.
Qed.

Lemma match_pattern_entry_line (e : HistoryEntry) :
  well_formed e ->
  match_pattern (entry_line e) =
  Some (four_digits (e_d1 e) (e_d2 e) (e_d3 e) (e_d4 e), e_contest e).
Proof.
  intros [H1 [H2 [H3 [H4 [Hc _]]]]].
  unfold entry_line. cbn [match_pattern match_here].
  rewrite H1, H2, H3, H4. cbn [Ascii.eqb Bool.eqb andb trimStart].
  change (is_space " ") with true. cbv iota.
  rewrite (plain_trimStart Hc). destruct Hc as [_ [_ Hc]].
  now rewrite (dot_star_plain _ Hc).
Qed.

Lemma entry_level_lookup (levelMap : list (string * string)) (e : HistoryEntry) :
  truthy_level (lookup levelMap (e_level e)) = entry_level levelMap e.
Proof.
  unfold lookup, entry_level.
  destruct (own_entry levelMap (e_level e)) as [[| c l] |]; try reflexivity.
  now destruct (existsb (String.eqb (e_level e)) Object_prototype).
Qed.

Lemma convert_entry_written (e : HistoryEntry) :
  well_formed e ->
  convert_entry (entries_of (contest_mapping mapping)) (entries_of (level_mapping mapping))
    (entry_line e) (e_level e) = entry_records mapping e.
Proof.
  intros H. unfold convert_entry, entry_records.
  rewrite (match_pattern_entry_line H).
  destruct H as [_ [_ [_ [_ [[_ [Hc _]] [_ [Hl _]]]]]]].
  now rewrite Hc, Hl, entry_level_lookup.
Qed.

Lemma convert_lines_written (es : list HistoryEntry) :
  Forall well_formed es ->
  convert_lines (entries_of (contest_mapping mapping)) (entries_of (level_mapping mapping))
    (flat_map entry_lines es) = flat_map (entry_records mapping) es.
Proof.
  induction 1 as [| e es He _ IH]; [reflexivity |].
  cbn [flat_map entry_lines app convert_lines].
  now rewrite (convert_entry_written He), IH.
Qed.

End History.

(** X15.  A history written entry by entry (the year as four digits in
    brackets, a space and the contest name on one line, the level on the
    next, names and levels being non-empty, without white space at either end
    and without line terminator) is read back entry by entry: the records
    are, in order, those of the entries that have a level and whose contest
    name includes a key of the contest mapping, the first such key deciding,
    with a non-empty value.  The level of an entry is the text that the
    level mapping has for its level line, when that text is not empty, and,
    when the level line is no key of the level mapping, the property of
    [Object.prototype] that it names, if any; the other entries are
    skipped. *)
Theorem written_history_is_read_back (mapping : NameMapping) (es : list HistoryEntry) :
  Forall well_formed es ->
  convertLuoguToConfig (history_text es) mapping =
  {| luogu_records := flat_map (entry_records mapping) es |}.
Proof.
  intros H. unfold convertLuoguToConfig, history_text.
  rewrite luogu_lines_written.
  - now rewrite (convert_lines_written mapping H).
  - apply Forall_flat_map. eapply Forall_impl; [| exact H].
    intros e He. constructor; [now apply entry_line_plain |].
    constructor; [apply He | constructor].
Qed.

Lemma written_history_is_read_back_witness :
  Forall well_formed sample_entries /\
  convertLuoguToConfig (history_text sample_entries) sample_mapping =
  {| luogu_records := flat_map (entry_records sample_mapping) sample_entries |}.
Proof.
  assert (H : Forall well_formed sample_entries) by (repeat constructor; discriminate).
  split; [exact H |].
  exact (@written_history_is_read_back sample_mapping sample_entries H).
Defined.

(** The records of the sample entries: a second prize at NOIP 2019, a first
    prize at NOI 2020, the inherited property [toString] at NOI 2021, and
    nothing for the level [bronze], which the level mapping does not
    have. *)
Example sample_entries_records :
  flat_map (entry_records sample_mapping) sample_entries =
  [ {| luogu_year := 2019; luogu_contest_type := "NOIP"; luogu_level := LevelText "2nd" |};
    {| luogu_year := 2020; luogu_contest_type := "NOI"; luogu_level := LevelText "1st" |};
    {| luogu_year := 2021; luogu_contest_type := "NOI";
       luogu_level := LevelInherited "toString" |} ].
Proof. reflexivity. Qed.

(** ** When an evaluation ends in an alert *)

(** X16.  On an initialised store, the evaluation of a configuration ends in
    an alert in two cases only.  Either the configuration has neither base
    bound nor record constraint and the [OIer] table is not empty: the alert
    is that of the [TypeError] thrown while rendering the first row.  Or the
    configuration has a base bound or a record constraint and the store
    refuses one of its statements, which has more than 32766 placeholders:
    the alert is that of the store's error.  In every other case a results
    page is shown.  When no record constraint has more than 32747 values,
    the statement refused can only be the final fetch, and it is refused
    exactly when more than 32766 candidates are left. *)
Theorem alerts_of_an_evaluation (d : Database) (Y : Z) (config : QueryConfig) :
  let unconstrained := oierConditions Y config = [] /\ recordConstraints config = [] in
  let run := executeQuery (Some d) Y (Some config) in
  (unconstrained -> OIer_table d <> [] ->
   run = ([SelectAllOIersOrdered],
          ErrorAlert "Query execution failed: Cannot read properties of undefined (reading 'toFixed')")) /\
  (unconstrained -> OIer_table d = [] ->
   run = ([SelectAllOIersOrdered], ResultsPage (cleanConfig config) [])) /\
  (~ unconstrained ->
   if forallb accepted (fst (findOiers (Some d) Y config))
   then exists rows, run = (fst (findOiers (Some d) Y config),
                            ResultsPage (cleanConfig config) rows)
   else run = (fst (findOiers (Some d) Y config),
               ErrorAlert "Query execution failed: too many SQL variables")) /\
  (forall msg,
     snd run = ErrorAlert msg ->
     (unconstrained /\ OIer_table d <> [] /\
      msg = "Query execution failed: Cannot read properties of undefined (reading 'toFixed')") \/
     (~ unconstrained /\
      forallb accepted (fst (findOiers (Some d) Y config)) = false /\
      msg = "Query execution failed: too many SQL variables")) /\
  (~ unconstrained ->
   Forall constraint_in_range (recordConstraints config) ->
   exists s,
     narrowed_by_all d
       (match oierConditions Y config with
        | [] => None
        | ks => Some (Set_of (run_SelectUidFromOIer d ks))
        end) (recordConstraints config) = Some s /\
     (forallb accepted (fst (findOiers (Some d) Y config)) = true <->
      (N.of_nat (List.length s) <= 32766)%N)).
Proof.
  intros unconstrained run.
  assert (Hc : ~ unconstrained ->
               oierConditions Y config <> [] \/ recordConstraints config <> []).
  { intros Hn. unfold unconstrained in Hn.
    destruct (oierConditions Y config); [| left; discriminate].
    destruct (recordConstraints config); [| right; discriminate].
    elim Hn. now split. }
  assert (P1 : unconstrained -> OIer_table d <> [] ->
               run = ([SelectAllOIersOrdered],
                      ErrorAlert "Query execution failed: Cannot read properties of undefined (reading 'toFixed')")).
  { intros [Ek Er] Hne. now apply executeQuery_unfiltered. }
  assert (P2 : unconstrained -> OIer_table d = [] ->
               run = ([SelectAllOIersOrdered], ResultsPage (cleanConfig config) [])).
  { intros [Ek Er] He. unfold run, executeQuery.
    rewrite (findOiers_unfiltered d Y config Ek Er), He. reflexivity. }
  assert (P3 : ~ unconstrained ->
               if forallb accepted (fst (findOiers (Some d) Y config))
               then exists rows, run = (fst (findOiers (Some d) Y config),
                                        ResultsPage (cleanConfig config) rows)
               else run = (fst (findOiers (Some d) Y config),
                           ErrorAlert "Query execution failed: too many SQL variables")).
  { intros Hn. destruct (forallb accepted (fst (findOiers (Some d) Y config))) eqn:A.
    - destruct (@matching_rows d Y config (Hc Hn) A) as [log [rows [keep [Ef [Ee _]]]]].
      exists rows. unfold run. rewrite Ee, Ef. reflexivity.
    - now apply executeQuery_refused. }
  split; [exact P1 |]. split; [exact P2 |]. split; [exact P3 |]. split.
  - intros msg Hm.
    assert (D : unconstrained \/ ~ unconstrained).
    { unfold unconstrained.
      destruct (oierConditions Y config); [| right; intros [E _]; discriminate].
      destruct (recordConstraints config); [| right; intros [_ E]; discriminate].
      left. split; reflexivity. }
    destruct D as [Hu | Hn].
    + left. split; [exact Hu |].
      destruct (OIer_table d) as [| o os] eqn:Et.
      * rewrite (P2 Hu eq_refl) in Hm. discriminate.
      * assert (Hne : o :: os <> []) by discriminate.
        rewrite (P1 Hu Hne) in Hm. cbn [snd] in Hm. injection Hm as <-.
        split; [exact Hne | reflexivity].
    + right. split; [exact Hn |]. specialize (P3 Hn).
      destruct (forallb accepted (fst (findOiers (Some d) Y config))).
      * destruct P3 as [rows P3]. rewrite P3 in Hm. discriminate.
      * rewrite P3 in Hm. cbn [snd] in Hm. injection Hm as <-. split; reflexivity.
  - intros Hn Hr.
    pose proof (narrowed_in_range d Y config Hr) as U.
    destruct (@narrowed_unrefused d Y config U) as [log0 [st0 [st [_ [_ [En _]]]]]].
    destruct (fetch_decides d Y config (Hc Hn) En) as [s [_ [Es Ha]]].
    exists s. split; [exact Es |]. rewrite Ha. apply N.leb_le.
Qed.

(** On the sample store, the evaluation of a configuration without base
    bound and record constraint ends in the first alert, and that of a
    configuration whose record constraint lists 32767 provinces in the
    second. *)
Example alerts_on_the_sample_store :
  snd (executeQuery (Some scenario_db) 2024
         (Some {| enroll_year_range := None; grade_range := None; records := None |})) =
    ErrorAlert "Query execution failed: Cannot read properties of undefined (reading 'toFixed')" /\
  snd (executeQuery (Some scenario_db) 2024
         (Some {| enroll_year_range := None; grade_range := None;
                  records := Some [from_too_many] |})) =
    ErrorAlert "Query execution failed: too many SQL variables".
Proof.
  split; [reflexivity |].
  unfold executeQuery.
  assert (E : snd (findOiers (Some scenario_db) 2024
                     {| enroll_year_range := None; grade_range := None;
                        records := Some [from_too_many] |}) = inl too_many_variables).
  { apply findOiers_refused. unfold findOiers, narrowed, initial_state, base_filter.
    cbn [oierConditions]. reflexivity. }
  destruct (findOiers (Some scenario_db) 2024
              {| enroll_year_range := None; grade_range := None;
                 records := Some [from_too_many] |}) as [log r].
  cbn [snd] in E. subst r. reflexivity.
Qed.
